(** * Motion detection (motion.c): a shallow embedding and its properties

    The C translation unit keeps all of its state in one file-scope
    structure [mctx] plus the function-local statics of [ma_filter] and
    [dumppng].  The embedding threads that state explicitly: [state] for the
    detector, [system] for the detector with the heap of frame buffers and
    the detection thread.

    Conventions.
    - A C [int] is a [Z] and [/] on [int] truncates toward zero ([Z.quot]).
      Signed overflow is undefined in C.  [initmotion] checks the one
      product it applies to a raw argument ([sens * sens]) and computes
      the grid and its indices on unbounded integers; [ma_filter] is
      written on unbounded integers.  [initmotion_int] and [ma_filter_int]
      are the same functions with every operation checked against the
      range of [int]: what they return, the unchecked functions return
      ([initmotion_int_sound], [ma_filter_int_sound]), and they agree on
      frames and counts far from the ends of the type
      ([initmotion_int_agrees], [ma_filter_int_agrees]).
    - An array is a [list]; a read or write outside of it, a division by
      zero and the release of a buffer that is not live make the function
      return [None].
    - The block that [malloc] returns holds arbitrary values, given by a
      function [junk] from cell index to content.
    - What libpng makes of the map file is a parameter of [readmap]
      ([mapfile]).
    - [state] holds neither the pointer [mctx.eventcb] nor the row buffers
      of [dumppng], and [lookformotion] on [state] takes the dump to
      succeed and the callback to be there.  [process] adds both, and
      [lookformotion_full] is [lookformotion] with the row buffers filled
      ([dumppng_rows]), the image header checked as libpng does, the
      filter checked ([ma_filter_int]) and the call through a null
      [mctx.eventcb] a fault.  A frame that [lookformotion_full]
      completes, [lookformotion] completes with the same detector
      ([lookformotion_full_sound]); the converse holds in range
      ([lookformotion_full_agrees]).
    - The critical sections of [findmotion] and [motionstart] are atomic
      steps on [system]. *)

From Stdlib Require Import ZArith Lia List Bool.
From stdpp Require Import base option list gmap.

Local Open Scope Z_scope.

(** ** C integers and arrays *)

Definition INT_MAX : Z := 2147483647.
Definition INT_MIN : Z := -2147483648.

Definition in_int (z : Z) : bool := (INT_MIN <=? z) && (z <=? INT_MAX).

(** [a * b] on [int]; [None] when the product leaves the type. *)
Definition int_mul (a b : Z) : option Z :=
  if in_int (a * b) then Some (a * b) else None.

(** [a + b] and [a - b] on [int], checked the same way. *)
Definition int_add (a b : Z) : option Z :=
  if in_int (a + b) then Some (a + b) else None.

Definition int_sub (a b : Z) : option Z :=
  if in_int (a - b) then Some (a - b) else None.

(** [a / b] on [int]. *)
Definition int_div (a b : Z) : option Z :=
  if b =? 0 then None else Some (a ÷ b).

(** The conversion [(uint16_t) z]. *)
Definition u16 (z : Z) : Z := z mod 65536.

(** [a[k]] as an rvalue. *)
Definition load {A} (a : list A) (k : Z) : option A :=
  if k <? 0 then None else a !! Z.to_nat k.

(** [a[k] = x]. *)
Definition store {A} (a : list A) (k : Z) (x : A) : option (list A) :=
  if k <? 0 then None
  else if (Z.to_nat k <? length a)%nat then Some (<[Z.to_nat k := x]> a)
  else None.

(** [for (i = lo; ...; i++) body], run for [trips] iterations. *)
Fixpoint for_from {St} (lo : Z) (trips : nat)
    (body : Z -> St -> option St) (s : St) : option St :=
  match trips with
  | O => Some s
  | S k =>
      match body lo s with
      | Some s' => for_from (lo + 1) k body s'
      | None => None
      end
  end.

(** [for (i = 0; i < n; i++) body]. *)
Definition for_lt {St} (n : Z) (body : Z -> St -> option St) (s : St)
    : option St :=
  for_from 0 (Z.to_nat n) body s.

(** ** Data *)

(** [struct motvec]: [int8_t dx, dy; uint16_t sad]. *)
Record motvec := MotVec { dx : Z; dy : Z; sad : Z }.

(** Modelled from the spec: the enumeration [movementevents] is declared in
    motion.h, which is not part of the sources; the event callback ABI names
    the single kind MOVEMENT, and the code passes [movement]. *)
Inductive movementevents := movement.

(** A heap address returned by [av_realloc]. *)
Definition ptr := nat.

Definition FLAGS_MOVEMENT : Z := 1.
Definition FLAGS_MOTMONITOR : Z := 2.

(** The program state: the fields of [mctx] (the mutex, the condition
    variable and the name of the dump file apart), the statics [i] and [sum]
    of [ma_filter], the static [fnum] of [dumppng], the calls made to the
    event callback (oldest first) and the number of [pthread_create] calls. *)
Record state := State {
  width : Z;
  height : Z;
  map : list Z;
  vectors : option ptr;
  threshold : Z;
  flags : Z;
  window_size : Z;
  filter_window : list Z;
  ma_i : Z;
  ma_sum : Z;
  fnum : Z;
  events : list (Z * movementevents);
  threads : nat
}.

(** The state at program start: zero-initialised statics. *)
Definition boot : state :=
  {| width := 0; height := 0; map := []; vectors := None; threshold := 0;
     flags := 0; window_size := 0; filter_window := []; ma_i := 0;
     ma_sum := 0; fnum := 0; events := []; threads := 0 |}.

Definition set_map (st : state) (m : list Z) : state :=
  {| width := width st; height := height st; map := m;
     vectors := vectors st; threshold := threshold st; flags := flags st;
     window_size := window_size st; filter_window := filter_window st;
     ma_i := ma_i st; ma_sum := ma_sum st; fnum := fnum st;
     events := events st; threads := threads st |}.

Definition set_filter (st : state) (fw : list Z) (i sum : Z) : state :=
  {| width := width st; height := height st; map := map st;
     vectors := vectors st; threshold := threshold st; flags := flags st;
     window_size := window_size st; filter_window := fw;
     ma_i := i; ma_sum := sum; fnum := fnum st;
     events := events st; threads := threads st |}.

Definition set_fnum (st : state) (n : Z) : state :=
  {| width := width st; height := height st; map := map st;
     vectors := vectors st; threshold := threshold st; flags := flags st;
     window_size := window_size st; filter_window := filter_window st;
     ma_i := ma_i st; ma_sum := ma_sum st; fnum := n;
     events := events st; threads := threads st |}.

Definition call_eventcb (st : state) (motion : Z) (e : movementevents) : state :=
  {| width := width st; height := height st; map := map st;
     vectors := vectors st; threshold := threshold st; flags := flags st;
     window_size := window_size st; filter_window := filter_window st;
     ma_i := ma_i st; ma_sum := ma_sum st; fnum := fnum st;
     events := events st ++ [(motion, e)]; threads := threads st |}.

Definition set_vectors (st : state) (v : option ptr) : state :=
  {| width := width st; height := height st; map := map st;
     vectors := v; threshold := threshold st; flags := flags st;
     window_size := window_size st; filter_window := filter_window st;
     ma_i := ma_i st; ma_sum := ma_sum st; fnum := fnum st;
     events := events st; threads := threads st |}.

Definition spawn_thread (st : state) : state :=
  {| width := width st; height := height st; map := map st;
     vectors := vectors st; threshold := threshold st; flags := flags st;
     window_size := window_size st; filter_window := filter_window st;
     ma_i := ma_i st; ma_sum := ma_sum st; fnum := fnum st;
     events := events st; threads := S (threads st) |}.

(** ** The sensitivity map *)

(** What [fopen], [png_sig_cmp] and [png_read_png] make of the file named by
    the caller: no readable file, a file without the PNG signature, or a
    decoded image with its colour type and its rows of bytes. *)
Inductive mapfile :=
| Unreadable
| NotPng
| Png (color_type : Z) (rows : list (list Z)).

Definition PNG_COLOR_TYPE_GRAY : Z := 0.
Definition PNG_COLOR_TYPE_RGB : Z := 2.

(** The two nested loops of [readmap] over the decoded rows. *)
Definition readmap_rows (w h : Z) (rows : list (list Z)) (m : list Z)
    : option (list Z) :=
  for_lt h (fun i m =>
    r ← load rows i;
    m ← for_lt (w - 1) (fun j m =>
           rj ← load r j;
           store m (i * w + j) (u16 (rj * rj))) m;
    store m ((i + 1) * w) 65535) m.

(** [readmap(mf)]: the return value and the state. *)
Definition readmap (mf : mapfile) (st : state) : option (Z * state) :=
  match mf with
  | Unreadable => Some (-1, st)
  | NotPng => Some (-1, st)
  | Png _ rows =>
      m ← readmap_rows (width st) (height st) rows (map st);
      Some (0, set_map st m)
  end.

(** The contents of a block fresh from [malloc]: [n] cells holding whatever
    [junk] the allocator left there. *)
Definition malloc_u16 (junk : nat -> Z) (n : Z) : list Z :=
  List.map (fun k => u16 (junk k)) (seq 0 (Z.to_nat n)).

(** [calloc(n, sizeof(int))]. *)
Definition calloc_int (n : Z) : list Z := replicate (Z.to_nat n) 0.

(** The [else] branch of [initmotion]: a uniform map. *)
Definition fill_uniform (rows cols sens : Z) (m : list Z) : option (list Z) :=
  for_lt rows (fun y m =>
    m ← for_lt (cols - 1) (fun x m => store m (y * cols + x) (u16 sens)) m;
    store m (y * cols + cols) 65535) m.

(** [initmotion(width, height, map, sens, thresh, window_size, eventcb)].
    [memset] clears [mctx] and leaves the statics of [ma_filter] and
    [dumppng] as they are.  The grid and the indices of the map are
    computed on unbounded integers here and in [int] in [initmotion_int];
    the pointer [eventcb] is in [initmotion_full]. *)
Definition initmotion (junk : nat -> Z) (st : state)
    (width_px height_px : Z) (mapfn : option mapfile)
    (sens thresh wsize : Z) : option (Z * state) :=
  let rows := (height_px + 15) ÷ 16 in
  let cols := (width_px + 15) ÷ 16 + 1 in
  let st1 :=
    {| width := cols; height := rows;
       map := malloc_u16 junk ((cols + 1) * rows);
       vectors := None; threshold := thresh; flags := FLAGS_MOTMONITOR;
       window_size := wsize; filter_window := calloc_int wsize;
       ma_i := ma_i st; ma_sum := ma_sum st; fnum := fnum st;
       events := events st; threads := threads st |} in
  match mapfn with
  | Some mf =>
      '(rc, st2) ← readmap mf st1;
      if negb (rc =? 0) then Some (-1, st2)
      else Some (0, spawn_thread st2)
  | None =>
      sens ← int_mul sens sens;
      let sens := if sens >? 65535 then 65535 else sens in
      m ← fill_uniform rows cols sens (map st1);
      Some (0, spawn_thread (set_map st1 m))
  end.

(** ** The noise filter *)

(** The locals of [ma_filter] that the caller or the terminal sees: the
    returned value, the noise floor [nf] and the 12-sample average. *)
Record ma_out := MaOut { ma_ret : Z; ma_nf : Z; ma_trend : Z }.

(** [if (n > threshold * 4) n = threshold * 4]. *)
Definition cap4 (thr n : Z) : Z := if n >? thr * 4 then thr * 4 else n.

(** The loop that sums the 12 slots behind the cursor. *)
Definition head_sum (fw : list Z) (wsize i : Z) : option Z :=
  for_lt 12 (fun j head_avg =>
    let k := i - j in
    let k := if k <? 0 then wsize + i - j else k in
    x ← load fw k;
    Some (head_avg + x)) 0.

Definition ma_filter (st : state) (t : Z) : option (ma_out * state) :=
  let i := ma_i st in
  let sum := ma_sum st in
  let nmblk := width st * height st in
  let t := if t >? nmblk ÷ 4 then threshold st else t in
  let n := cap4 (threshold st) t in
  let sum := sum + n in
  n ← load (filter_window st) i;
  let n := cap4 (threshold st) n in
  let sum := sum - n in
  nf ← int_div sum (window_size st);
  fw ← store (filter_window st) i t;
  head_avg ← head_sum fw (window_size st) i;
  let t := head_avg ÷ 12 in
  let i := i + 1 in
  let i := if i >=? window_size st then 0 else i in
  let r := if t >? nf then t - nf else 0 in
  Some ({| ma_ret := r; ma_nf := nf; ma_trend := t |}, set_filter st fw i sum).

(** [ma_filter] once more, with every operation on [int] checked against
    the range of the type: where it returns, no signed overflow occurred,
    and [ma_filter_int_agrees] below gives bounds under which it returns
    what [ma_filter] returns. *)
Definition cap4_int (thr n : Z) : option Z :=
  m ← int_mul thr 4;
  Some (if n >? m then m else n).

Definition head_sum_int (fw : list Z) (wsize i : Z) : option Z :=
  for_lt 12 (fun j head_avg =>
    k ← int_sub i j;
    k ← (if k <? 0 then s ← int_add wsize i; int_sub s j else Some k);
    x ← load fw k;
    int_add head_avg x) 0.

Definition ma_filter_int (st : state) (t : Z) : option (ma_out * state) :=
  let i := ma_i st in
  let sum := ma_sum st in
  nmblk ← int_mul (width st) (height st);
  let t := if t >? nmblk ÷ 4 then threshold st else t in
  n ← cap4_int (threshold st) t;
  sum ← int_add sum n;
  n ← load (filter_window st) i;
  n ← cap4_int (threshold st) n;
  sum ← int_sub sum n;
  nf ← int_div sum (window_size st);
  fw ← store (filter_window st) i t;
  head_avg ← head_sum_int fw (window_size st) i;
  let t := head_avg ÷ 12 in
  i ← int_add i 1;
  let i := if i >=? window_size st then 0 else i in
  r ← (if t >? nf then int_sub t nf else Some 0);
  Some ({| ma_ret := r; ma_nf := nf; ma_trend := t |}, set_filter st fw i sum).

(** ** The detector *)

(** [v->dx * v->dx + v->dy * v->dy]. *)
Definition magnitude_sq (v : motvec) : Z := dx v * dx v + dy v * dy v.

(** The counting loop of [lookformotion] over [n] cells. *)
Definition count_moved (m : list Z) (v : list motvec) (n : Z) : option Z :=
  for_lt n (fun i t =>
    mi ← load m i;
    vi ← load v i;
    Some (if mi <? magnitude_sq vi then t + 1 else t)) 0.

(** [dumppng(v)] as far as [state] goes: it reads [width * height]
    vectors, writes one image and advances its frame number.  The row
    buffers and the header that libpng checks are in [dumppng_full]. *)
Definition dumppng (st : state) (v : list motvec) : option state :=
  if (0 <? height st) && (0 <? width st)
     && (Z.of_nat (length v) <? width st * height st)
  then None
  else Some (set_fnum st (fnum st + 1)).

(** [(uint8_t) sqrt((double) m)] for an [int] [m]: the square root of an
    integer below [2^31] has its integer part exact in a [double], and the
    conversion to [uint8_t] is defined for a value below 256. *)
Definition sqrt_u8 (m : Z) : option Z :=
  if (0 <=? m) && (Z.sqrt m <? 256) then Some (Z.sqrt m) else None.

(** The row buffers that the first call of [dumppng] allocates: [h] rows
    of [w] bytes, holding what [malloc] left there. *)
Definition png_alloc (junk : nat -> nat -> Z) (w h : Z) : list (list Z) :=
  List.map (fun i => List.map (fun j => junk i j mod 256)
                       (seq 0 (Z.to_nat w)))
    (seq 0 (Z.to_nat h)).

(** The body of the inner loop of [dumppng]: [t = rows[i]],
    [tv = &v[i * width + j]], [t[j] = sqrt(...)]. *)
Definition dumppng_cell (w : Z) (v : list motvec) (i j : Z)
    (rows : list (list Z)) : option (list (list Z)) :=
  t ← load rows i;
  tv ← load v (i * w + j);
  px ← sqrt_u8 (magnitude_sq tv);
  t ← store t j px;
  store rows i t.

(** [dumppng(v)] up to the call of libpng, on the static [rows] of the
    earlier calls: the buffers are allocated when [fnum] is 0 and reused
    otherwise, then filled from the vectors. *)
Definition dumppng_rows (junk : nat -> nat -> Z) (st : state)
    (rows : list (list Z)) (v : list motvec) : option (list (list Z)) :=
  let rows :=
    if fnum st =? 0 then png_alloc junk (width st) (height st) else rows in
  for_lt (height st) (fun i rows =>
    for_lt (width st) (fun j rows =>
      dumppng_cell (width st) v i j rows) rows) rows.

(** The tail of [lookformotion]: filter the count, call back on a hit.
    The callback is taken to be there; [lookformotion_full] has the null
    pointer. *)
Definition filter_and_fire (st : state) (t : Z) : option state :=
  '(o, st) ← ma_filter st t;
  let ft := ma_ret o in
  if ft >=? threshold st then Some (call_eventcb st ft movement)
  else Some st.

(** [lookformotion(v)]; [mctx.pngfn] is always set by [initmotion]. *)
Definition lookformotion (st : state) (v : list motvec) : option state :=
  let n := width st * height st in
  t ← count_moved (map st) v n;
  st ← dumppng st v;
  filter_and_fire st t.

(** ** The frame handoff *)

(** Where the detection thread is: inside [pthread_cond_wait]; signalled and
    about to return from it; or past the unlock, with the pointer it took,
    until the end of its pass. *)
Inductive worker_state :=
| Waiting
| Woken
| Busy (tv : option ptr).

(** The program with its heap of frame buffers: the detector, the live
    buffers, the next address [av_realloc] hands out, the addresses given to
    [av_free] (oldest first) and the detection thread. *)
Record system := System {
  det : state;
  heap : gmap nat (list motvec);
  next_ptr : ptr;
  freed : list ptr;
  worker : worker_state
}.

(** [av_free(p)] on a pointer that is not null; [None] when [p] is not a
    live buffer. *)
Definition av_free (p : ptr) (sys : system) : option system :=
  match heap sys !! p with
  | Some _ =>
      Some {| det := det sys; heap := delete p (heap sys);
              next_ptr := next_ptr sys; freed := freed sys ++ [p];
              worker := worker sys |}
  | None => None
  end.

(** [pthread_cond_signal]: wakes the thread if it waits, else is lost. *)
Definition cond_signal (w : worker_state) : worker_state :=
  match w with
  | Waiting => Woken
  | _ => w
  end.

(** [findmotion(out)], with [out] the vectors of the encoder's buffer: the
    copy is made outside the lock, the rest is the critical section. *)
Definition findmotion (out : list motvec) (sys : system) : option system :=
  let tmpbuf := next_ptr sys in
  let sys := {| det := det sys; heap := <[tmpbuf := out]> (heap sys);
                next_ptr := S tmpbuf; freed := freed sys;
                worker := worker sys |} in
  sys ← match vectors (det sys) with
        | Some q => av_free q sys
        | None => Some sys
        end;
  Some {| det := set_vectors (det sys) (Some tmpbuf); heap := heap sys;
          next_ptr := next_ptr sys; freed := freed sys;
          worker := cond_signal (worker sys) |}.

(** The critical section of [motionstart] once [pthread_cond_wait] returns:
    the pointer taken and the state.  [None] when the thread has not been
    woken: the step cannot happen. *)
Definition motionstart_take (sys : system) : option (option ptr * system) :=
  match worker sys with
  | Woken =>
      let tv := vectors (det sys) in
      Some (tv, {| det := set_vectors (det sys) None; heap := heap sys;
                   next_ptr := next_ptr sys; freed := freed sys;
                   worker := Busy tv |})
  | _ => None
  end.

(** The rest of the pass: [lookformotion(tv); av_free(tv)] and back to
    [pthread_cond_wait].  A null [tv] has no vector to read. *)
Definition motionstart_pass (sys : system) : option system :=
  match worker sys with
  | Busy tv =>
      v ← match tv with
          | Some p => heap sys !! p
          | None => Some []
          end;
      d ← lookformotion (det sys) v;
      sys ← match tv with
            | Some p => av_free p sys
            | None => Some sys
            end;
      Some {| det := d; heap := heap sys; next_ptr := next_ptr sys;
              freed := freed sys; worker := Waiting |}
  | _ => None
  end.

(** The allocator never hands out a live or an already freed address, and
    the slot, when full, points to a live buffer. *)
Definition heap_ok (sys : system) : Prop :=
  (forall p, (next_ptr sys <= p)%nat -> heap sys !! p = None) /\
  (forall p, In p (freed sys) -> (p < next_ptr sys)%nat) /\
  (forall q, vectors (det sys) = Some q -> is_Some (heap sys !! q)).

(** ** Runs *)

(** One pass of the worker over each frame of [vs], oldest first. *)
Fixpoint lookformotion_all (st : state) (vs : list (list motvec)) : option state :=
  match vs with
  | [] => Some st
  | v :: vs => st ← lookformotion st v; lookformotion_all st vs
  end.

(** Successive calls of [ma_filter], the outputs dropped. *)
Fixpoint feed (st : state) (raws : list Z) : option state :=
  match raws with
  | [] => Some st
  | t :: raws => '(_, st) ← ma_filter st t; feed st raws
  end.

(** ** The program with every step checked

    The functions above once more, with what they leave out: the
    arithmetic of [initmotion] on [int], the pointer [mctx.eventcb], the
    row buffers of [dumppng] and the answer of libpng to the image header.
    A result of the checked function is a result of the function above
    ([initmotion_int_sound], [lookformotion_full_sound]), and both agree
    where the frame, the grid and the counts are in range
    ([initmotion_int_agrees], [lookformotion_full_agrees]). *)

(** The [else] branch of [initmotion], the index computed in [int]. *)
Definition fill_uniform_int (rows cols sens : Z) (m : list Z)
    : option (list Z) :=
  for_lt rows (fun y m =>
    c1 ← int_sub cols 1;
    m ← for_lt c1 (fun x m =>
           yc ← int_mul y cols;
           k ← int_add yc x;
           store m k (u16 sens)) m;
    yc ← int_mul y cols;
    k ← int_add yc cols;
    store m k 65535) m.

(** The loops of [readmap], the index computed in [int]. *)
Definition readmap_rows_int (w h : Z) (rows : list (list Z)) (m : list Z)
    : option (list Z) :=
  for_lt h (fun i m =>
    r ← load rows i;
    w1 ← int_sub w 1;
    m ← for_lt w1 (fun j m =>
           rj ← load r j;
           iw ← int_mul i w;
           k ← int_add iw j;
           store m k (u16 (rj * rj))) m;
    i1 ← int_add i 1;
    k ← int_mul i1 w;
    store m k 65535) m.

Definition readmap_int (mf : mapfile) (st : state) : option (Z * state) :=
  match mf with
  | Unreadable => Some (-1, st)
  | NotPng => Some (-1, st)
  | Png _ rows =>
      m ← readmap_rows_int (width st) (height st) rows (map st);
      Some (0, set_map st m)
  end.

(** [initmotion] with [height + 15], [width + 15], the two [+ 1] and the
    indices of the map computed in [int].  The byte count given to
    [malloc] is computed in [size_t], which is taken wide enough for it,
    and [malloc] is taken to succeed. *)
Definition initmotion_int (junk : nat -> Z) (st : state)
    (width_px height_px : Z) (mapfn : option mapfile)
    (sens thresh wsize : Z) : option (Z * state) :=
  h15 ← int_add height_px 15;
  let rows := h15 ÷ 16 in
  w15 ← int_add width_px 15;
  cols ← int_add (w15 ÷ 16) 1;
  c1 ← int_add cols 1;
  let st1 :=
    {| width := cols; height := rows;
       map := malloc_u16 junk (c1 * rows);
       vectors := None; threshold := thresh; flags := FLAGS_MOTMONITOR;
       window_size := wsize; filter_window := calloc_int wsize;
       ma_i := ma_i st; ma_sum := ma_sum st; fnum := fnum st;
       events := events st; threads := threads st |} in
  match mapfn with
  | Some mf =>
      '(rc, st2) ← readmap_int mf st1;
      if negb (rc =? 0) then Some (-1, st2)
      else Some (0, spawn_thread st2)
  | None =>
      sens ← int_mul sens sens;
      let sens := if sens >? 65535 then 65535 else sens in
      m ← fill_uniform_int rows cols sens (map st1);
      Some (0, spawn_thread (set_map st1 m))
  end.

(** The program: [mctx] and the statics as in [state], whether
    [mctx.eventcb] holds a function ([false] for the null pointer), and
    the static row buffers of [dumppng]. *)
Record process := Process {
  ctx : state;
  eventcb : bool;
  png_rows : list (list Z)
}.

(** [initmotion] as the program runs it; [cb] tells whether the caller
    passed a function.  [memset] clears [mctx.eventcb], which is assigned
    only on the path that returns 0. *)
Definition initmotion_full (junk : nat -> Z) (p : process)
    (width_px height_px : Z) (mapfn : option mapfile)
    (sens thresh wsize : Z) (cb : bool) : option (Z * process) :=
  '(rc, st) ← initmotion_int junk (ctx p) width_px height_px mapfn
                sens thresh wsize;
  Some (rc, {| ctx := st; eventcb := (rc =? 0) && cb;
               png_rows := png_rows p |}).

(** What [png_set_IHDR] accepts as width and height: libpng refuses a
    zero dimension and one above its limit (a million unless the library
    was built otherwise; a negative [int] arrives as a [png_uint_32] above
    that limit) with [png_error], and with no error handler installed by
    [png_create_write_struct(..., NULL, NULL, NULL)] and no [setjmp] the
    program aborts. *)
Definition PNG_USER_MAX : Z := 1000000.

Definition png_ihdr_ok (w h : Z) : bool :=
  (1 <=? w) && (w <=? PNG_USER_MAX) && (1 <=? h) && (h <=? PNG_USER_MAX).

(** [dumppng(v)]: the row buffers are filled, the header
    [png_set_IHDR(png, info, mctx.width-1, mctx.height, ...)] is given to
    libpng, the image is written ([fopen] is taken to succeed) and the
    frame number advances. *)
Definition dumppng_full (junk : nat -> nat -> Z) (p : process)
    (v : list motvec) : option process :=
  rows ← dumppng_rows junk (ctx p) (png_rows p) v;
  if png_ihdr_ok (width (ctx p) - 1) (height (ctx p)) then
    n ← int_add (fnum (ctx p)) 1;
    Some {| ctx := set_fnum (ctx p) n; eventcb := eventcb p;
            png_rows := rows |}
  else None.

(** [lookformotion(v)], with [n] computed in [int], the dump, the checked
    filter and the call through [mctx.eventcb], which faults on the null
    pointer. *)
Definition lookformotion_full (junk : nat -> nat -> Z) (p : process)
    (v : list motvec) : option process :=
  n ← int_mul (width (ctx p)) (height (ctx p));
  t ← count_moved (map (ctx p)) v n;
  p ← dumppng_full junk p v;
  '(o, st) ← ma_filter_int (ctx p) t;
  let ft := ma_ret o in
  if ft >=? threshold st then
    if eventcb p then
      Some {| ctx := call_eventcb st ft movement; eventcb := eventcb p;
              png_rows := png_rows p |}
    else None
  else Some {| ctx := st; eventcb := eventcb p; png_rows := png_rows p |}.

(** One pass of the worker over each frame of [vs], oldest first. *)
Fixpoint lookformotion_full_all (junk : nat -> nat -> Z) (p : process)
    (vs : list (list motvec)) : option process :=
  match vs with
  | [] => Some p
  | v :: vs =>
      p ← lookformotion_full junk p v; lookformotion_full_all junk p vs
  end.

(** ** Vocabulary of the statements *)

(** *** Sums and ranges *)

Fixpoint zsum (l : list Z) : Z :=
  match l with
  | [] => 0
  | x :: l => x + zsum l
  end.

(** [lo, lo+1, ..., lo+n-1]. *)
Fixpoint zrange (lo : Z) (n : nat) : list Z :=
  match n with
  | O => []
  | S k => lo :: zrange (lo + 1) k
  end.

(** *** The grid and the map *)

(** The grid of the sensitivity map as the data model has it. *)
Definition height_mb (height_px : Z) : Z := (height_px + 15) ÷ 16.
Definition width_mb (width_px : Z) : Z := (width_px + 15) ÷ 16.

(** What cell [k] of the map holds once the first [y] rows of the grid have
    been written with the values [val row column] over the block [m0]: the
    cells of a written row but the last one hold their value, the cell after
    the last written row holds 65535, and every other cell is as in [m0]. *)
Definition grid_after (cols : Z) (val : Z -> Z -> Z) (m0 : list Z)
    (y k : Z) : option Z :=
  if k <? y * cols then
    if k mod cols <? cols - 1 then Some (val (k / cols) (k mod cols))
    else load m0 k
  else if (k =? y * cols) && (0 <? y) then Some 65535
  else load m0 k.

(** Pixel [j] of row [i] of a decoded image, if the image has it. *)
Definition pixel (rows : list (list Z)) (i j : Z) : option Z :=
  r ← load rows i; load r j.

(** The image has a pixel for every cell that [readmap] reads on a grid of
    [h] rows and [w] columns. *)
Definition image_covers (rows : list (list Z)) (w h : Z) : Prop :=
  forall i j, 0 <= i < h -> 0 <= j < w - 1 -> is_Some (pixel rows i j).

(** The map value that [readmap] derives from a pixel. *)
Definition pixel_sq (rows : list (list Z)) (i j : Z) : Z :=
  let p := default 0 (pixel rows i j) in u16 (p * p).

(** The image has exactly the pixels of a grid of [h] rows and [w - 1]
    columns. *)
Definition image_matches (rows : list (list Z)) (w h : Z) : Prop :=
  Z.of_nat (length rows) = h /\
  Forall (fun r => Z.of_nat (length r) = w - 1) rows.

(** Cell [i] counts as moved: the squared magnitude of its vector is
    strictly above its map value. *)
Definition exceeds (m : list Z) (v : list motvec) (i : Z) : bool :=
  match load m i, load v i with
  | Some mi, Some vi => mi <? magnitude_sq vi
  | _, _ => false
  end.

(** The moved cells among the indices [0 .. n-1]. *)
Definition moved_cells (m : list Z) (v : list motvec) (n : Z) : list Z :=
  List.filter (exceeds m v) (zrange 0 (Z.to_nat n)).

(** A frame from its [(dx, dy)] pairs. *)
Definition frame_of (l : list (Z * Z)) : list motvec :=
  List.map (fun p => MotVec (fst p) (snd p) 0) l.

(** *** The filter *)

(** Step 1 of the filter: the raw count after the quarter-frame clamp. *)
Definition clamp_count (st : state) (raw : Z) : Z :=
  if raw >? (width st * height st) ÷ 4 then threshold st else raw.

(** The ring is allocated with [window_size] slots and the cursor is one of
    them. *)
Definition filter_ok (st : state) : Prop :=
  0 < window_size st /\
  length (filter_window st) = Z.to_nat (window_size st) /\
  0 <= ma_i st < window_size st.

(** The sample [j] places behind slot [i] of the ring, wrapping around. *)
Definition ring_back (fw : list Z) (i : Z) (j : Z) : Z :=
  default 0 (fw !! Z.to_nat ((i - j) mod Z.of_nat (length fw))).

(** The sum of the [n] samples that end at slot [i]. *)
Definition recent_sum (fw : list Z) (i : Z) (n : nat) : Z :=
  zsum (List.map (ring_back fw i) (zrange 0 n)).

(** The sum of the ring slots, each capped at [4 * threshold]. *)
Definition capped_sum (st : state) : Z :=
  zsum (List.map (fun x => Z.min x (4 * threshold st)) (filter_window st)).

(** The sample [d] calls back in time: [hist st 0] is the slot written by
    the last call, just behind the cursor. *)
Definition hist (st : state) (d : Z) : Z :=
  ring_back (filter_window st) (ma_i st - 1) d.

(** Counts far enough from the ends of [int] for one call of [ma_filter]:
    the grid has an [int] number of cells, the threshold, the raw count and
    the ring slots are below [2^24] in absolute value, and the running sum
    and the window size below [2^30]. *)
Definition small (z : Z) : Prop := -16777216 <= z <= 16777216.

Definition filter_small (st : state) (t : Z) : Prop :=
  INT_MIN <= width st * height st <= INT_MAX /\
  small (threshold st) /\ small t /\
  Forall small (filter_window st) /\
  -1073741824 <= ma_sum st <= 1073741824 /\
  window_size st <= 1073741824.

(** The fields that only [initmotion] writes. *)
Definition config (st : state) : Z * Z * list Z * Z * Z :=
  (width st, height st, map st, threshold st, window_size st).

(** What one call of [ma_filter] on the raw count [raw] does, seen from the
    history: the fields set by [initmotion] stay, the history shifts by one
    place and starts with the clamped count, the running sum gains the
    capped new count and loses the capped oldest one, and the outputs are
    computed from the new sum and the 12 newest samples. *)
Definition filter_step (st : state) (raw : Z) (o : ma_out) (st' : state)
    : Prop :=
  config st' = config st /\ filter_ok st' /\
  (forall d, 0 <= d < window_size st ->
     hist st' d = if d =? 0 then clamp_count st raw else hist st (d - 1)) /\
  ma_sum st' - capped_sum st' = ma_sum st - capped_sum st /\
  ma_sum st' = ma_sum st + Z.min (clamp_count st raw) (4 * threshold st)
               - Z.min (hist st (window_size st - 1)) (4 * threshold st) /\
  ma_nf o = ma_sum st' ÷ window_size st /\
  ma_trend o = zsum (List.map (hist st') (zrange 0 12)) ÷ 12 /\
  ma_ret o = Z.max (ma_trend o - ma_nf o) 0.

(** The calls that a list of filter outputs makes to the event callback. *)
Definition fired (thr : Z) (o : ma_out) : list (Z * movementevents) :=
  if ma_ret o >=? thr then [(ma_ret o, movement)] else [].



(** ** Sample inputs *)

(** A 32x32 pixel frame, uniform sensitivity 10, threshold 1 and a ring of
    12 slots, in a block that [malloc] returned zeroed. *)
Definition grid_2x2 : state :=
  Eval vm_compute in
    match initmotion (fun _ => 0) boot 32 32 None 10 1 12 with
    | Some (_, st) => st
    | None => boot
    end.

(** A 64x64 pixel frame: 4 rows of 5 cells, otherwise as [grid_2x2]. *)
Definition grid_4x4 : state :=
  Eval vm_compute in
    match initmotion (fun _ => 0) boot 64 64 None 10 1 12 with
    | Some (_, st) => st
    | None => boot
    end.

(** A 112x112 pixel frame: 7 rows of 8 cells, threshold 1, 12 slots. *)
Definition grid_7x7 : state :=
  Eval vm_compute in
    match initmotion (fun _ => 0) boot 112 112 None 10 1 12 with
    | Some (_, st) => st
    | None => boot
    end.


(** Frames: nothing moves. *)
Definition still (n : nat) : list motvec := frame_of (replicate n (0, 0)).

(** The first cell moves by [(10, 0)]. *)
Definition nudge_1 : list motvec :=
  frame_of ((10, 0) :: replicate 5 (0, 0)).

(** The first cell moves by [(11, 0)]. *)
Definition spike_1 : list motvec :=
  frame_of ((11, 0) :: replicate 5 (0, 0)).

(** The cell of row 1, column 1 of the 2x2 grid moves. *)
Definition spike_row1 : list motvec :=
  frame_of (replicate 4 (0, 0) ++ [(11, 0); (0, 0)]).

(** Twelve cells of the first two rows of the 7x8 grid move. *)
Definition spike_12 : list motvec :=
  frame_of (replicate 7 (11, 0) ++ [(0, 0)] ++ replicate 5 (11, 0)
            ++ replicate 43 (0, 0)).

(** An image of 5 rows and 7 columns. *)
Definition image_5x7 : list (list Z) := replicate 5 [1; 2; 3; 4; 5; 6; 7].

(** The 2x2 detector with an empty heap and its thread waiting. *)
Definition idle_2x2 : system :=
  {| det := grid_2x2; heap := ∅; next_ptr := 0%nat; freed := [];
     worker := Waiting |}.

(** ** The sentences of the specification that the code does not follow

    Each one is written down as it reads, to be refuted on a sample input
    further down. *)



(** "The count runs over exactly the indices below
    [width_mb * height_mb]", for the grid of a [width_px] by [height_px]
    frame. *)
Definition counts_macroblocks_only (st : state) (width_px height_px : Z)
    (v : list motvec) : Prop :=
  count_moved (map st) v (width st * height st)
  = Some (Z.of_nat (length (moved_cells (map st) v
                              (width_mb width_px * height_mb height_px)))).

(** "A window size below 12 is refused": [initmotion] returns an error and
    no thread is created. *)
Definition rejects_window (junk : nat -> Z) (st : state)
    (width_px height_px sens thr ws : Z) : Prop :=
  exists rc st',
    initmotion junk st width_px height_px None sens thr ws = Some (rc, st') /\
    rc <> 0 /\ threads st' = threads st.

(** "An image that does not match the grid is refused". *)
Definition rejects_mismatch (st : state) (ct : Z) (rows : list (list Z))
    : Prop :=
  ~ image_matches rows (width st) (height st) ->
  exists rc st', readmap (Png ct rows) st = Some (rc, st') /\ rc <> 0.


(** "The raw count is clamped to [threshold] when it exceeds
    [total_macroblocks / 4]", the macroblocks of a [width_px] by
    [height_px] frame being its [width_mb * height_mb] cells, one per
    vector: read on the count that the call stores under the cursor. *)
Definition clamps_at_macroblocks (st : state) (width_px height_px raw : Z)
    : Prop :=
  exists o st',
    ma_filter st raw = Some (o, st') /\
    filter_window st' !! Z.to_nat (ma_i st)
    = Some (if raw >? (width_mb width_px * height_mb height_px) ÷ 4
            then threshold st else raw).

(** "After each call the running sum equals the sum over all ring slots of
    [min (slot, 4 * threshold)], and the cursor lies in
    [[0, window_size)]", for the calls [raws] made from the state [st]. *)
Definition sum_is_capped_sum (st : state) (raws : list Z) : Prop :=
  forall st', feed st raws = Some st' ->
    ma_sum st' = capped_sum st' /\ 0 <= ma_i st' < window_size st'.

(** ** Vocabulary and sample inputs of the further properties *)

(** The 2x2 grid with rings of 11, 5 and 24 slots. *)
Definition grid_2x2_w11 : state :=
  Eval vm_compute in
    match initmotion (fun _ => 0) boot 32 32 None 10 1 11 with
    | Some (_, st) => st
    | None => boot
    end.

Definition grid_2x2_w5 : state :=
  Eval vm_compute in
    match initmotion (fun _ => 0) boot 32 32 None 10 1 5 with
    | Some (_, st) => st
    | None => boot
    end.

Definition grid_2x2_w24 : state :=
  Eval vm_compute in
    match initmotion (fun _ => 0) boot 32 32 None 10 1 24 with
    | Some (_, st) => st
    | None => boot
    end.

(** The ring of 24 slots after 20 calls, and the ring of 12 slots after 5
    calls, each with the raw count 1. *)
Definition used_w24 : state :=
  Eval vm_compute in
    match feed grid_2x2_w24 (replicate 20 1) with
    | Some st => st
    | None => boot
    end.

Definition used_w12 : state :=
  Eval vm_compute in
    match feed grid_2x2 (replicate 5 1) with
    | Some st => st
    | None => boot
    end.

(** [used_w12] after a second [initmotion] with the same arguments. *)
Definition reinit_w12 : state :=
  Eval vm_compute in
    match initmotion (fun _ => 0) used_w12 32 32 None 10 1 12 with
    | Some (_, st) => st
    | None => boot
    end.

(** The clamped raw counts of a run, newest first and followed by zeros:
    [history st0 raws d] is the count of the call [d] places before the
    last one of [raws]. *)
Definition history (st0 : state) (raws : list Z) (d : Z) : Z :=
  match reverse raws !! Z.to_nat d with
  | Some r => clamp_count st0 r
  | None => 0
  end.

(** The sum over the last [window_size] samples of the filter, each capped
    at [4 * threshold]. *)
Definition capped_history (st : state) : Z :=
  zsum (List.map (fun d => Z.min (hist st d) (4 * threshold st))
          (zrange 0 (Z.to_nat (window_size st)))).

(** Successive calls of the checked [ma_filter_int], the outputs dropped. *)
Fixpoint feed_int (st : state) (raws : list Z) : option state :=
  match raws with
  | [] => Some st
  | t :: raws => '(_, st) ← ma_filter_int st t; feed_int st raws
  end.

(** A count between 0 and [2^24]. *)
Definition count24 (z : Z) : Prop := 0 <= z <= 16777216.

(** A frame as the encoder stores it: [dx] and [dy] are [int8_t]. *)
Definition int8_frame (v : list motvec) : Prop :=
  Forall (fun x => -128 <= dx x <= 127 /\ -128 <= dy x <= 127) v.

(** The 2x2 grid with the uniform sensitivity 300. *)
Definition grid_2x2_s300 : state :=
  Eval vm_compute in
    match initmotion (fun _ => 0) boot 32 32 None 300 1 12 with
    | Some (_, st) => st
    | None => boot
    end.

(** Every cell moves by [(1, 0)]. *)
Definition drift_6 : list motvec := frame_of (replicate 6 (1, 0)).

(** The steps of the two threads around the slot [mctx.vectors]: the encoder
    thread publishes a frame with [findmotion]; the detection thread takes
    the slot when it leaves [pthread_cond_wait], and later ends its pass. *)
Inductive hevent :=
| Publish (out : list motvec)
| Take
| Pass.

Definition hstep (e : hevent) (sys : system) : option system :=
  match e with
  | Publish out => findmotion out sys
  | Take => '(_, sys) ← motionstart_take sys; Some sys
  | Pass => motionstart_pass sys
  end.

(** An interleaving, oldest step first. *)
Fixpoint hrun (es : list hevent) (sys : system) : option system :=
  match es with
  | [] => Some sys
  | e :: es => sys ← hstep e sys; hrun es sys
  end.

(** The pointer that the detection thread holds during a pass. *)
Definition taken (sys : system) : option ptr :=
  match worker sys with
  | Busy tv => tv
  | _ => None
  end.

(** The buffers of the handoff: the live ones are the one of the slot and
    the one that the thread holds, which differ; no address was given to
    [av_free] twice and none of the freed ones is live; the addresses that
    [av_realloc] has handed out, those below [next_ptr], are the freed and
    the live ones; a woken thread finds the slot full, and a busy one holds
    a buffer. *)
Definition handoff_inv (sys : system) : Prop :=
  (forall p, is_Some (heap sys !! p) <->
             vectors (det sys) = Some p \/ taken sys = Some p) /\
  (forall p, vectors (det sys) = Some p -> taken sys <> Some p) /\
  NoDup (freed sys) /\
  (forall p, p ∈ freed sys -> heap sys !! p = None) /\
  (forall p, (p < next_ptr sys)%nat <->
             p ∈ freed sys \/ is_Some (heap sys !! p)) /\
  (worker sys = Woken -> is_Some (vectors (det sys))) /\
  worker sys <> Busy None.

(** *** The image of [dumppng] *)

(** The row buffers have a byte for every cell of a grid of [h] rows and
    [w] columns. *)
Definition rows_fit (rows : list (list Z)) (w h : Z) : Prop :=
  forall i, 0 <= i < h ->
    exists r, load rows i = Some r /\ w <= Z.of_nat (length r).

(** The row buffers as allocated for a grid of [h] rows and [w] columns. *)
Definition rows_dims (rows : list (list Z)) (w h : Z) : Prop :=
  length rows = Z.to_nat h /\
  Forall (fun r => length r = Z.to_nat w) rows.

(** The cells that the loops of [dumppng] have written when they reach row
    [i], column [j], on a grid of [w] columns. *)
Definition written (w i j i' j' : Z) : bool :=
  (0 <=? j') && (j' <? w) && (0 <=? i')
  && ((i' <? i) || ((i' =? i) && (j' <? j))).

(** The integer part of the length of the vector of cell [(i, j)]. *)
Definition vector_root (w : Z) (v : list motvec) (i j : Z) : Z :=
  match load v (i * w + j) with
  | Some tv => Z.sqrt (magnitude_sq tv)
  | None => 0
  end.

(** The 2x2 grid after one frame, and a 4x4 grid set up on top of it. *)
Definition seen_2x2 : state :=
  Eval vm_compute in
    match lookformotion grid_2x2 nudge_1 with
    | Some st => st
    | None => boot
    end.

Definition regrid_4x4 : state :=
  Eval vm_compute in
    match initmotion (fun _ => 0) seen_2x2 64 64 None 10 1 12 with
    | Some (_, st) => st
    | None => boot
    end.

(** *** Further sample inputs *)

(** The 4x5 grid after 12 frames with the raw count 5: every slot holds 5,
    which the sum counts as 4. *)
Definition warm_4x4 : state :=
  Eval vm_compute in
    match feed grid_4x4 (replicate 12 5) with
    | Some st => st
    | None => boot
    end.

(** The 2x2 grid with the thresholds -1 and 0. *)
Definition grid_2x2_neg : state :=
  Eval vm_compute in
    match initmotion (fun _ => 0) boot 32 32 None 10 (-1) 12 with
    | Some (_, st) => st
    | None => boot
    end.

Definition grid_2x2_t0 : state :=
  Eval vm_compute in
    match initmotion (fun _ => 0) boot 32 32 None 10 0 12 with
    | Some (_, st) => st
    | None => boot
    end.

(** The 2x2 detector with its thread in a pass on a first frame. *)
Definition busy_2x2 : system :=
  {| det := grid_2x2; heap := {[ 0%nat := nudge_1 ]}; next_ptr := 1%nat;
     freed := []; worker := Busy (Some 0%nat) |}.


Definition proc_2x2_t0 : process :=
  {| ctx := grid_2x2_t0; eventcb := true; png_rows := [] |}.

(** ** Loops and arrays *)

Lemma for_from_ext {St} (f g : Z -> St -> option St) trips lo s :
  (forall k a, lo <= k < lo + Z.of_nat trips -> f k a = g k a) ->
  for_from lo trips f s = for_from lo trips g s.
Proof.
  revert lo s. induction trips as [|n IH]; intros lo s H; simpl; [done|].
  rewrite H by lia. destruct (g lo s); [|done]. apply IH.
  intros k a Hk. apply H. lia.
Qed.

(** A loop that adds one readable term per index computes their sum. *)
Lemma for_from_add (g : Z -> option Z) (h : Z -> Z) trips lo acc :
  (forall k, lo <= k < lo + Z.of_nat trips -> g k = Some (h k)) ->
  for_from lo trips (fun j a => x ← g j; Some (a + x)) acc
  = Some (acc + zsum (List.map h (zrange lo trips))).
Proof.
  revert lo acc. induction trips as [|n IH]; intros lo acc H; simpl.
  - f_equal. lia.
  - rewrite H by lia. simpl. rewrite IH by (intros; apply H; lia).
    f_equal. lia.
Qed.

(** The invariant rule for [for_from]. *)
Lemma for_from_inv {St} (P : Z -> St -> Prop) body trips lo (s : St) :
  P lo s ->
  (forall k a, lo <= k < lo + Z.of_nat trips -> P k a ->
     exists a', body k a = Some a' /\ P (k + 1) a') ->
  exists s', for_from lo trips body s = Some s' /\ P (lo + Z.of_nat trips) s'.
Proof.
  revert lo s. induction trips as [|n IH]; intros lo s H0 Hstep; simpl.
  - exists s. split; [done|]. by replace (lo + Z.of_nat 0) with lo by lia.
  - destruct (Hstep lo s) as (a' & -> & Ha'); [lia|done|].
    destruct (IH (lo + 1) a') as (s' & -> & Hs'); [done| |].
    + intros k a Hk. apply Hstep. lia.
    + exists s'. split; [done|].
      by replace (lo + Z.of_nat (S n)) with (lo + 1 + Z.of_nat n) by lia.
Qed.

Lemma load_lookup {A} (a : list A) k :
  0 <= k -> load a k = a !! Z.to_nat k.
Proof. intros H. unfold load. by destruct (Z.ltb_spec k 0); [lia|]. Qed.

Lemma store_insert {A} (a : list A) k x :
  0 <= k < Z.of_nat (length a) ->
  store a k x = Some (<[Z.to_nat k := x]> a).
Proof.
  intros H. unfold store. destruct (Z.ltb_spec k 0); [lia|].
  by destruct (Nat.ltb_spec (Z.to_nat k) (length a)); [|lia].
Qed.

Lemma store_Some {A} (a a' : list A) k x :
  store a k x = Some a' ->
  0 <= k < Z.of_nat (length a) /\ a' = <[Z.to_nat k := x]> a.
Proof.
  unfold store. destruct (Z.ltb_spec k 0); [done|].
  destruct (Nat.ltb_spec (Z.to_nat k) (length a)); [|done].
  intros [= <-]. split; [lia|done].
Qed.

Lemma zsum_map_replicate (f : Z -> Z) n x :
  zsum (List.map f (replicate n x)) = Z.of_nat n * f x.
Proof.
  induction n as [|n IH]; simpl replicate; simpl List.map; simpl zsum; lia.
Qed.

Lemma zsum_insert (f : Z -> Z) (l : list Z) (i : nat) old x :
  l !! i = Some old ->
  zsum (List.map f (<[i := x]> l)) = zsum (List.map f l) - f old + f x.
Proof.
  revert i. induction l as [|y l IH]; intros [|i] H; simplify_eq/=; [lia|].
  rewrite (IH i) by done. lia.
Qed.

(** ** The ring buffer *)

Lemma cap4_min thr n : cap4 thr n = Z.min n (4 * thr).
Proof. unfold cap4. destruct (Z.gtb_spec n (thr * 4)); lia. Qed.

Lemma wrap_back i d ws :
  0 <= i < ws -> 0 <= d <= ws ->
  (i - d) mod ws = if i - d <? 0 then ws + i - d else i - d.
Proof.
  intros Hi Hd. destruct (Z.ltb_spec (i - d) 0).
  - rewrite <- (Z.mod_add _ 1) by lia. rewrite Z.mod_small; lia.
  - rewrite Z.mod_small; lia.
Qed.

Lemma wrap_next i ws :
  0 <= i < ws -> (if i + 1 >=? ws then 0 else i + 1) = (i + 1) mod ws.
Proof.
  intros Hi. destruct (Z.geb_spec (i + 1) ws).
  - replace (i + 1) with ws by lia. by rewrite Z.mod_same by lia.
  - rewrite Z.mod_small; lia.
Qed.

Lemma ring_back_load (fw : list Z) i j :
  0 <= i < Z.of_nat (length fw) -> 0 <= j <= Z.of_nat (length fw) ->
  load fw (if i - j <? 0 then Z.of_nat (length fw) + i - j else i - j)
  = Some (ring_back fw i j).
Proof.
  intros Hi Hj. unfold ring_back. rewrite wrap_back by done.
  set (k := if i - j <? 0 then _ else _).
  assert (0 <= k < Z.of_nat (length fw)) as Hk
    by (subst k; destruct (Z.ltb_spec (i - j) 0); lia).
  rewrite load_lookup by lia.
  destruct (lookup_lt_is_Some_2 fw (Z.to_nat k)) as [x Hx]; [lia|].
  by rewrite Hx.
Qed.

Lemma head_sum_recent (fw : list Z) ws i :
  ws = Z.of_nat (length fw) -> 12 <= ws -> 0 <= i < ws ->
  head_sum fw ws i = Some (recent_sum fw i 12).
Proof.
  intros -> Hws Hi. unfold head_sum, for_lt, recent_sum.
  change (Z.to_nat 12) with 12%nat.
  rewrite (for_from_add
             (fun j => load fw (if i - j <? 0
                                then Z.of_nat (length fw) + i - j else i - j))
             (ring_back fw i)); [done|].
  intros k Hk. apply ring_back_load; lia.
Qed.

Lemma filter_ok_slot st :
  filter_ok st -> is_Some (filter_window st !! Z.to_nat (ma_i st)).
Proof. intros (? & Hl & ?). apply lookup_lt_is_Some_2. lia. Qed.

(** [ma_filter], statement by statement, on a ring of at least 12 slots. *)
Lemma ma_filter_eq (st : state) (raw : Z) :
  12 <= window_size st -> filter_ok st ->
  exists old,
    filter_window st !! Z.to_nat (ma_i st) = Some old /\
    let thr := threshold st in
    let t := if raw >? (width st * height st) ÷ 4 then thr else raw in
    let sum' := ma_sum st + Z.min t (4 * thr) - Z.min old (4 * thr) in
    let nf := sum' ÷ window_size st in
    let fw' := <[Z.to_nat (ma_i st) := t]> (filter_window st) in
    let trend := recent_sum fw' (ma_i st) 12 ÷ 12 in
    ma_filter st raw =
      Some ({| ma_ret := Z.max (trend - nf) 0; ma_nf := nf; ma_trend := trend |},
            set_filter st fw' ((ma_i st + 1) mod window_size st) sum').
Proof.
  intros Hws Hok. destruct (filter_ok_slot st Hok) as [old Hold].
  destruct Hok as (Hpos & Hlen & Hi).
  exists old. split; [done|]. intros thr t sum' nf fw' trend.
  unfold ma_filter. rewrite load_lookup by lia. rewrite Hold. simpl.
  unfold int_div. destruct (Z.eqb_spec (window_size st) 0); [lia|]. simpl.
  rewrite store_insert by lia. simpl.
  rewrite (head_sum_recent _ (window_size st) (ma_i st));
    [|rewrite length_insert; lia|done|done].
  simpl. rewrite wrap_next by done. rewrite !cap4_min.
  fold thr t fw'. fold sum'. fold nf. fold trend.
  do 3 f_equal. destruct (Z.gtb_spec trend nf); lia.
Qed.

(** *** Staying inside [int] *)

Lemma int_add_ok a b :
  INT_MIN <= a + b <= INT_MAX -> int_add a b = Some (a + b).
Proof.
  intros H. unfold int_add, in_int.
  destruct (Z.leb_spec INT_MIN (a + b)), (Z.leb_spec (a + b) INT_MAX);
    simpl; try done; lia.
Qed.

Lemma int_sub_ok a b :
  INT_MIN <= a - b <= INT_MAX -> int_sub a b = Some (a - b).
Proof.
  intros H. unfold int_sub, in_int.
  destruct (Z.leb_spec INT_MIN (a - b)), (Z.leb_spec (a - b) INT_MAX);
    simpl; try done; lia.
Qed.

Lemma int_mul_ok a b :
  INT_MIN <= a * b <= INT_MAX -> int_mul a b = Some (a * b).
Proof.
  intros H. unfold int_mul, in_int.
  destruct (Z.leb_spec INT_MIN (a * b)), (Z.leb_spec (a * b) INT_MAX);
    simpl; try done; lia.
Qed.

Lemma cap4_int_ok thr n : small thr -> cap4_int thr n = Some (cap4 thr n).
Proof.
  intros [Hlo Hhi]. unfold cap4_int, cap4.
  rewrite int_mul_ok by (unfold INT_MIN, INT_MAX; lia). done.
Qed.

(** A loop that adds bounded terms stays in range. *)
Lemma for_from_add_int (g : Z -> option Z) (h : Z -> Z) (B : Z) trips lo acc :
  (forall k, lo <= k < lo + Z.of_nat trips ->
     g k = Some (h k) /\ - B <= h k <= B) ->
  INT_MIN <= acc - Z.of_nat trips * B -> acc + Z.of_nat trips * B <= INT_MAX ->
  for_from lo trips (fun j a => x ← g j; int_add a x) acc
  = Some (acc + zsum (List.map h (zrange lo trips))).
Proof.
  revert lo acc. induction trips as [|n IH]; intros lo acc H Hlo Hhi; simpl.
  - f_equal. lia.
  - destruct (H lo) as [-> Hb]; [lia|]. simpl.
    rewrite Nat2Z.inj_succ in Hlo, Hhi.
    assert (0 <= Z.of_nat n * B) by nia.
    rewrite int_add_ok by lia.
    rewrite IH; [f_equal; lia| |lia|lia].
    intros k Hk. apply H. lia.
Qed.

Lemma ring_back_small (fw : list Z) i j :
  Forall small fw -> small (ring_back fw i j).
Proof.
  intros H. unfold ring_back.
  destruct (fw !! _) as [x|] eqn:E; simpl.
  - by eapply Forall_lookup_1.
  - unfold small. lia.
Qed.

Lemma head_sum_int_ok (fw : list Z) ws i :
  ws = Z.of_nat (length fw) -> 12 <= ws <= 1073741824 -> 0 <= i < ws ->
  Forall small fw ->
  head_sum_int fw ws i = head_sum fw ws i.
Proof.
  intros Hl Hws Hi Hfw. rewrite (head_sum_recent fw ws i) by lia.
  unfold head_sum_int, for_lt, recent_sum. change (Z.to_nat 12) with 12%nat.
  rewrite (for_from_ext _
    (fun j a => x ← (k ← int_sub i j;
                     k ← (if k <? 0 then s ← int_add ws i; int_sub s j
                          else Some k);
                     load fw k);
                int_add a x)).
  2:{ intros k a _. destruct (int_sub i k) as [d|]; simpl; [|done].
      by destruct (if d <? 0 then _ else Some d). }
  rewrite (for_from_add_int _ (ring_back fw i) 16777216); try done.
  intros k Hk. split; [|apply ring_back_small; done].
  rewrite int_sub_ok by (unfold INT_MIN, INT_MAX; lia). simpl.
  rewrite <- (ring_back_load fw i k) by lia. rewrite <- Hl.
  destruct (Z.ltb_spec (i - k) 0); [|done].
  rewrite int_add_ok by (unfold INT_MIN, INT_MAX; lia). simpl.
  rewrite int_sub_ok by (unfold INT_MIN, INT_MAX; lia). done.
Qed.

(** On counts far from the ends of [int], the checked [ma_filter_int] and
    [ma_filter] are the same function. *)
Lemma ma_filter_int_agrees (st : state) (t : Z) :
  12 <= window_size st -> filter_ok st -> filter_small st t ->
  ma_filter_int st t = ma_filter st t.
Proof.
  intros Hws Hok (Hnm & Hthr & Ht & Hfw & Hsum & Hwsb).
  destruct (filter_ok_slot st Hok) as [old Hold].
  destruct Hok as (Hpos & Hlen & Hi).
  assert (small old) as Hso by (by eapply Forall_lookup_1).
  unfold ma_filter_int, ma_filter.
  rewrite int_mul_ok by done. simpl.
  set (t' := if t >? _ then threshold st else t).
  assert (small t') as Ht' by (subst t'; by destruct (_ >? _)).
  rewrite !cap4_int_ok by done. simpl.
  assert (forall n, small n ->
            -67108864 <= cap4 (threshold st) n <= 16777216) as Hcap.
  { intros n [? ?]. destruct Hthr. rewrite cap4_min. lia. }
  pose proof (Hcap t' Ht') as [? ?]. pose proof (Hcap old Hso) as [? ?].
  rewrite (int_add_ok (ma_sum st)) by (unfold INT_MIN, INT_MAX; lia). simpl.
  rewrite load_lookup by lia. rewrite Hold. simpl.
  rewrite cap4_int_ok by done. simpl.
  rewrite int_sub_ok by (unfold INT_MIN, INT_MAX; lia). simpl.
  destruct (int_div _ _) as [nf|] eqn:Hnf; simpl; [|done].
  rewrite store_insert by lia. simpl.
  rewrite head_sum_int_ok;
    [|rewrite length_insert; lia|lia|lia|by apply Forall_insert].
  rewrite (head_sum_recent _ (window_size st) (ma_i st));
    [|rewrite length_insert; lia|done|done].
  simpl. rewrite (int_add_ok (ma_i st)) by (unfold INT_MIN, INT_MAX; lia).
  simpl. set (fw := <[_ := _]> _).
  assert (Forall small fw) as Hfw' by (by apply Forall_insert).
  assert (-16777216 <= recent_sum fw (ma_i st) 12 ÷ 12 <= 16777216) as Htr.
  { assert (-12 * 16777216 <= recent_sum fw (ma_i st) 12 <= 12 * 16777216).
    { unfold recent_sum. simpl.
      repeat match goal with
             | |- context [ring_back fw (ma_i st) ?j] =>
                 pose proof (ring_back_small fw (ma_i st) j Hfw');
                 generalize dependent (ring_back fw (ma_i st) j); intros
             end.
      unfold small in *. lia. }
    split.
    - apply Z.quot_le_lower_bound; lia.
    - apply Z.quot_le_upper_bound; lia. }
  assert (-1200000000 <= nf <= 1200000000) as Hnfb.
  { unfold int_div in Hnf. destruct (_ =? _); [done|].
    injection Hnf as <-.
    set (x := ma_sum st + cap4 (threshold st) t' - cap4 (threshold st) old).
    assert (-1200000000 <= x <= 1200000000) by (subst x; lia).
    assert (Z.abs (x ÷ window_size st) <= Z.abs x)
      by (rewrite <- Z.quot_abs by lia; apply Z.quot_le_upper_bound; nia).
    lia. }
  destruct (Z.gtb_spec (recent_sum fw (ma_i st) 12 ÷ 12) nf); [|done].
  rewrite int_sub_ok by (unfold INT_MIN, INT_MAX; lia). done.
Qed.

Lemma initmotion_filter junk st0 w h mf sens thr ws rc st :
  initmotion junk st0 w h mf sens thr ws = Some (rc, st) ->
  threshold st = thr /\ window_size st = ws /\
  filter_window st = replicate (Z.to_nat ws) 0 /\
  ma_i st = ma_i st0 /\ ma_sum st = ma_sum st0 /\ events st = events st0.
Proof.
  unfold initmotion. destruct mf as [mf|]; simpl.
  - destruct mf as [| |ct rows]; simpl; try (intros [= <- <-]; simpl; done).
    destruct (readmap_rows _ _ _ _); simpl; [|done].
    intros [= <- <-]. simpl. done.
  - destruct (int_mul sens sens); simpl; [|done].
    destruct (fill_uniform _ _ _ _); simpl; [|done].
    intros [= <- <-]. simpl. done.
Qed.

Lemma ring_back_cursor (fw : list Z) i j :
  ring_back fw ((i + 1) mod Z.of_nat (length fw) - 1) j = ring_back fw i j.
Proof.
  unfold ring_back. do 3 f_equal.
  replace ((i + 1) mod Z.of_nat (length fw) - 1 - j)
    with ((i + 1) mod Z.of_nat (length fw) - (1 + j)) by lia.
  rewrite Zminus_mod_idemp_l. f_equal. lia.
Qed.

Lemma ring_back_insert (fw : list Z) i t d :
  0 <= i < Z.of_nat (length fw) -> 0 <= d < Z.of_nat (length fw) ->
  ring_back (<[Z.to_nat i := t]> fw) i d
  = if d =? 0 then t else ring_back fw i d.
Proof.
  intros Hi Hd. unfold ring_back. rewrite length_insert.
  rewrite wrap_back by lia. destruct (Z.eqb_spec d 0) as [->|Hd0].
  - destruct (Z.ltb_spec (i - 0) 0); [lia|].
    replace (i - 0) with i by lia.
    by rewrite list_lookup_insert_eq by lia.
  - rewrite list_lookup_insert_ne; [done|].
    destruct (Z.ltb_spec (i - d) 0); lia.
Qed.

Lemma ring_back_oldest (fw : list Z) i old :
  0 <= i < Z.of_nat (length fw) ->
  fw !! Z.to_nat i = Some old ->
  ring_back fw (i - 1) (Z.of_nat (length fw) - 1) = old.
Proof.
  intros Hi Hold. unfold ring_back.
  replace (i - 1 - (Z.of_nat (length fw) - 1))
    with (i - Z.of_nat (length fw)) by lia.
  rewrite wrap_back by lia.
  destruct (Z.ltb_spec (i - Z.of_nat (length fw)) 0); [|lia].
  replace (Z.of_nat (length fw) + i - Z.of_nat (length fw)) with i by lia.
  by rewrite Hold.
Qed.

Lemma zsum_map_ext (f g : Z -> Z) l :
  (forall x, x ∈ l -> f x = g x) ->
  zsum (List.map f l) = zsum (List.map g l).
Proof.
  induction l as [|x l IH]; intros H; simpl; [done|].
  rewrite H by left. rewrite IH; [done|]. intros y Hy. apply H. by right.
Qed.

Lemma elem_of_zrange x lo n :
  x ∈ zrange lo n <-> lo <= x < lo + Z.of_nat n.
Proof.
  revert lo. induction n as [|n IH]; intros lo; simpl.
  - rewrite elem_of_nil. lia.
  - rewrite elem_of_cons, IH. lia.
Qed.

(** [ma_filter] refines the shifting history. *)
Lemma ma_filter_step (st : state) (raw : Z) :
  12 <= window_size st -> filter_ok st ->
  exists o st',
    ma_filter st raw = Some (o, st') /\
    events st' = events st /\ fnum st' = fnum st /\
    filter_step st raw o st'.
Proof.
  intros Hws Hok.
  destruct (ma_filter_eq st raw Hws Hok) as (old & Hold & Heq).
  destruct Hok as (Hpos & Hlen & Hi).
  assert (Z.of_nat (length (filter_window st)) = window_size st) as Hl by lia.
  assert (hist st (window_size st - 1) = old) as Hlast.
  { unfold hist. rewrite <- Hl. apply ring_back_oldest; [lia|done]. }
  simpl in Heq. eexists _, _. split; [exact Heq|].
  fold (clamp_count st raw). set (t := clamp_count st raw).
  assert (forall d,
    hist (set_filter st (<[Z.to_nat (ma_i st) := t]> (filter_window st))
            ((ma_i st + 1) mod window_size st)
            (ma_sum st + Z.min t (4 * threshold st)
             - Z.min old (4 * threshold st))) d
    = ring_back (<[Z.to_nat (ma_i st) := t]> (filter_window st)) (ma_i st) d)
    as Hhist.
  { intros d. unfold hist. simpl. rewrite <- Hl.
    rewrite <- (length_insert (filter_window st) (Z.to_nat (ma_i st)) t).
    apply ring_back_cursor. }
  unfold filter_step.
  repeat split; try done; try (simpl; lia).
  - simpl. by rewrite length_insert.
  - simpl. apply Z.mod_pos_bound. lia.
  - simpl. apply Z.mod_pos_bound. lia.
  - intros d Hd. rewrite Hhist. rewrite ring_back_insert by lia.
    destruct (Z.eqb_spec d 0); [done|]. unfold hist, ring_back.
    do 4 f_equal. lia.
  - unfold capped_sum. simpl.
    rewrite (zsum_insert _ _ _ old) by done. lia.
  - cbn [ma_trend fst]. unfold recent_sum. f_equal. apply zsum_map_ext.
    intros x _. by rewrite Hhist.
Qed.

Lemma config_fields (a b : state) :
  config a = config b ->
  width a = width b /\ height a = height b /\ map a = map b /\
  threshold a = threshold b /\ window_size a = window_size b.
Proof. unfold config. intros [= -> -> -> -> ->]. done. Qed.

Lemma clamp_count_config (a b : state) r :
  config a = config b -> clamp_count a r = clamp_count b r.
Proof.
  intros H. apply config_fields in H as (Hw & Hh & _ & Ht & _).
  unfold clamp_count. by rewrite Hw, Hh, Ht.
Qed.

(** After a run of calls the history holds the clamped counts of the run,
    newest first, followed by what it held before. *)
Lemma feed_hist (st : state) (raws : list Z) :
  12 <= window_size st -> filter_ok st ->
  exists st',
    feed st raws = Some st' /\ config st' = config st /\ filter_ok st' /\
    ma_sum st' - capped_sum st' = ma_sum st - capped_sum st /\
    forall d, 0 <= d < window_size st ->
      hist st' d = match reverse raws !! Z.to_nat d with
                   | Some r => clamp_count st r
                   | None => hist st (d - Z.of_nat (length raws))
                   end.
Proof.
  revert st. induction raws as [|t raws IH]; intros st Hws Hok.
  - exists st. repeat split; try done; try apply Hok.
    intros d Hd. simpl. f_equal. lia.
  - simpl feed.
    destruct (ma_filter_step st t Hws Hok)
      as (o & st1 & -> & _ & _ & Hc & Hok1 & Hh & Hs & _).
    simpl. destruct (config_fields _ _ Hc) as (_ & _ & _ & _ & Hw).
    destruct (IH st1) as (st' & -> & Hc' & Hok' & Hs' & Hh'); [lia|done|].
    exists st'. split; [done|]. split; [congruence|]. split; [done|].
    split; [lia|]. intros d Hd. rewrite Hh' by lia.
    rewrite reverse_cons.
    destruct (Nat.lt_ge_cases (Z.to_nat d) (length (reverse raws)))
      as [Hlt|Hge].
    + rewrite lookup_app_l by done.
      destruct (lookup_lt_is_Some_2 _ _ Hlt) as [r ->].
      by apply clamp_count_config.
    + rewrite (lookup_ge_None_2 (reverse raws)) by done.
      rewrite length_reverse in Hge. rewrite lookup_app_r
        by (rewrite length_reverse; lia).
      rewrite length_reverse. rewrite Hh by lia.
      destruct (Z.eqb_spec (d - Z.of_nat (length raws)) 0) as [E|E].
      * replace (Z.to_nat d - length raws)%nat with 0%nat by lia. done.
      * replace (Z.to_nat d - length raws)%nat
          with (S (Z.to_nat d - length raws - 1))%nat by lia.
        simpl. f_equal. lia.
Qed.




(** The state that [initmotion] returns at program start has a consistent
    filter when the threshold is not negative. *)
Lemma initmotion_filter_ok junk w h mf sens thr ws rc st :
  initmotion junk boot w h mf sens thr ws = Some (rc, st) ->
  0 <= thr -> 0 < ws ->
  filter_ok st /\ ma_sum st = capped_sum st /\ ma_sum st = 0 /\
  (forall d, hist st d = 0).
Proof.
  intros Hinit Hthr Hws.
  destruct (initmotion_filter _ _ _ _ _ _ _ _ _ _ Hinit)
    as (Ht & Hw & Hfw & Hi & Hs & _).
  simpl in Hi, Hs. repeat split; try lia.
  - rewrite Hfw, length_replicate. lia.
  - unfold capped_sum. rewrite Hfw, zsum_map_replicate. lia.
  - intros d. unfold hist, ring_back. rewrite Hfw.
    destruct (replicate _ _ !! _) as [x|] eqn:E; [|done].
    by apply lookup_replicate in E as [-> _].
Qed.

(** ** The counting loop *)

Lemma count_moved_eq (m : list Z) (v : list motvec) (n : Z) :
  n <= Z.of_nat (length m) -> n <= Z.of_nat (length v) ->
  count_moved m v n = Some (Z.of_nat (length (moved_cells m v n))).
Proof.
  intros Hm Hv. unfold count_moved, for_lt, moved_cells.
  rewrite (for_from_ext _
    (fun j a => x ← (mi ← load m j; vi ← load v j;
                     Some (if mi <? magnitude_sq vi then 1 else 0));
                Some (a + x))).
  - rewrite (for_from_add _ (fun j => if exceeds m v j then 1 else 0)).
    + f_equal. simpl. generalize (zrange 0 (Z.to_nat n)). intros l.
      induction l as [|x l IH]; simpl; [done|].
      destruct (exceeds m v x); simpl; lia.
    + intros k Hk. unfold exceeds.
      rewrite !load_lookup by lia.
      destruct (lookup_lt_is_Some_2 m (Z.to_nat k)) as [mi ->]; [lia|].
      destruct (lookup_lt_is_Some_2 v (Z.to_nat k)) as [vi ->]; [lia|].
      simpl. by destruct (mi <? magnitude_sq vi).
  - intros k a _. destruct (load m k) as [mi|]; simpl; [|done].
    destruct (load v k) as [vi|]; simpl; [|done].
    destruct (mi <? magnitude_sq vi); f_equal; lia.
Qed.

Lemma for_from_Some {St} (body : Z -> St -> option St) trips lo (s s' : St) :
  for_from lo trips body s = Some s' ->
  forall k, lo <= k < lo + Z.of_nat trips -> exists a, is_Some (body k a).
Proof.
  revert lo s. induction trips as [|n IH]; intros lo s H k Hk; [lia|].
  simpl in H. destruct (body lo s) as [a|] eqn:E; [|done].
  destruct (Z.eq_dec k lo) as [->|Hne]; [exists s; by rewrite E|].
  apply (IH _ _ H). lia.
Qed.

(** A count that comes out has read every vector below [n]. *)
Lemma count_moved_length (m : list Z) (v : list motvec) (n c : Z) :
  count_moved m v n = Some c -> 0 < n -> n <= Z.of_nat (length v).
Proof.
  unfold count_moved, for_lt. intros H Hn.
  destruct (for_from_Some _ _ _ _ _ H (n - 1)) as (a & x & Hx); [lia|].
  destruct (load m (n - 1)); simpl in Hx; [|done].
  destruct (load v (n - 1)) as [vi|] eqn:E; simpl in Hx; [|done].
  rewrite load_lookup in E by lia. apply lookup_lt_Some in E. lia.
Qed.

(** ** One frame *)

Lemma ma_filter_fnum (st : state) (k raw : Z) :
  ma_filter (set_fnum st k) raw
  = '(o, st') ← ma_filter st raw; Some (o, set_fnum st' k).
Proof.
  unfold ma_filter. simpl.
  destruct (load (filter_window st) (ma_i st)); simpl; [|done].
  destruct (int_div _ _); simpl; [|done].
  destruct (store _ _ _); simpl; [|done].
  by destruct (head_sum _ _ _).
Qed.

(** [lookformotion] on a frame whose count is [c]. *)
Lemma lookformotion_eq (st : state) (v : list motvec) (c : Z) :
  count_moved (map st) v (width st * height st) = Some c ->
  lookformotion st v
  = '(o, st') ← ma_filter st c;
    let st' := set_fnum st' (fnum st + 1) in
    Some (if ma_ret o >=? threshold st then
            call_eventcb st' (ma_ret o) movement
          else st').
Proof.
  intros Hc. unfold lookformotion. rewrite Hc. simpl.
  assert (dumppng st v = Some (set_fnum st (fnum st + 1))) as ->.
  { unfold dumppng.
    destruct (Z.ltb_spec 0 (height st)); [|done].
    destruct (Z.ltb_spec 0 (width st)); [|done]. simpl.
    pose proof (count_moved_length _ _ _ _ Hc).
    destruct (Z.ltb_spec (Z.of_nat (length v)) (width st * height st));
      [nia|done]. }
  simpl. unfold filter_and_fire. rewrite ma_filter_fnum.
  destruct (ma_filter st c) as [[o st']|] eqn:E; simpl; [|done].
  assert (threshold st' = threshold st) as ->; [|by destruct (_ >=? _)].
  revert E. unfold ma_filter.
  destruct (load _ _); simpl; [|done]. destruct (int_div _ _); simpl; [|done].
  destruct (store _ _ _); simpl; [|done].
  destruct (head_sum _ _ _); simpl; [|done]. by intros [= <- <-].
Qed.




(** ** A lone spike *)

Lemma zsum_delta (k a : Z) n lo :
  zsum (List.map (fun d => if d =? k then a else 0) (zrange lo n))
  = if (lo <=? k) && (k <? lo + Z.of_nat n) then a else 0.
Proof.
  revert lo. induction n as [|n IH]; intros lo.
  - simpl. destruct (Z.leb_spec lo k), (Z.ltb_spec k (lo + Z.of_nat 0)); simpl; lia.
  - simpl zrange. simpl List.map. simpl zsum. rewrite IH.
    destruct (Z.eqb_spec lo k), (Z.leb_spec lo k), (Z.leb_spec (lo + 1) k),
      (Z.ltb_spec k (lo + 1 + Z.of_nat n)),
      (Z.ltb_spec k (lo + Z.of_nat (S n))); simpl; lia.
Qed.


Section spike.
Variables (st0 : state) (t : Z).
Hypothesis Hws : 12 <= window_size st0.
Hypothesis Hthr : 1 <= threshold st0.
Hypothesis Hdim : 0 <= width st0 * height st0.
Hypothesis Ht : 1 <= t.





End spike.


(** ** Filling the map *)

Lemma load_store {A} (m m' : list A) i x :
  store m i x = Some m' ->
  length m' = length m /\
  forall k, 0 <= k -> load m' k = if k =? i then Some x else load m k.
Proof.
  intros H. apply store_Some in H as [Hi ->]. split; [apply length_insert|].
  intros k Hk. rewrite !load_lookup by lia.
  destruct (Z.eqb_spec k i) as [->|Hne].
  - apply list_lookup_insert_eq. lia.
  - apply list_lookup_insert_ne. lia.
Qed.

(** The inner loop of both fillers: [n] cells from [base] on. *)
Lemma row_loop (cellf : Z -> option Z) (valf : Z -> Z) base n (m : list Z) :
  (forall x, 0 <= x < n -> cellf x = Some (valf x)) ->
  0 <= base -> base + n <= Z.of_nat (length m) ->
  exists m',
    for_lt n (fun x m => c ← cellf x; store m (base + x) c) m = Some m' /\
    length m' = length m /\
    forall k, 0 <= k ->
      load m' k = if (base <=? k) && (k <? base + n)
                  then Some (valf (k - base)) else load m k.
Proof.
  intros Hcell Hbase Hfit. unfold for_lt.
  destruct (for_from_inv
    (fun x m' => length m' = length m /\
       forall k, 0 <= k ->
         load m' k = if (base <=? k) && (k <? base + x)
                     then Some (valf (k - base)) else load m k)
    (fun x m => c ← cellf x; store m (base + x) c) (Z.to_nat n) 0 m)
    as (m' & Hrun & Hlen & Hcells).
  - split; [done|]. intros k Hk.
    destruct (Z.leb_spec base k), (Z.ltb_spec k (base + 0)); simpl; try done.
    lia.
  - intros x a Hx (Hlen & Hcells). rewrite Hcell by lia. simpl.
    assert (store a (base + x) (valf x)
            = Some (<[Z.to_nat (base + x) := valf x]> a)) as Hst
      by (apply store_insert; lia).
    rewrite Hst. destruct (load_store _ _ _ _ Hst) as (Hlen' & Hload).
    eexists. split; [done|]. split; [congruence|].
    intros k Hk. rewrite Hload, Hcells by done.
    destruct (Z.eqb_spec k (base + x)) as [->|Hne].
    + destruct (Z.leb_spec base (base + x)),
        (Z.ltb_spec (base + x) (base + (x + 1))); simpl; try lia.
      do 2 f_equal. lia.
    + destruct (Z.leb_spec base k), (Z.ltb_spec k (base + x)),
        (Z.ltb_spec k (base + (x + 1))); simpl; try done; lia.
  - exists m'. split; [done|]. split; [done|]. intros k Hk.
    rewrite Hcells by done.
    destruct (Z.leb_spec base k), (Z.ltb_spec k (base + (0 + Z.of_nat (Z.to_nat n)))),
      (Z.ltb_spec k (base + n)); simpl; try done; lia.
Qed.

Lemma row_div_mod cols y k :
  0 < cols -> y * cols <= k < y * cols + cols ->
  k / cols = y /\ k mod cols = k - y * cols.
Proof.
  intros Hc Hk. split.
  - symmetry. apply (Z.div_unique_pos k cols y (k - y * cols)); lia.
  - symmetry. apply (Z.mod_unique_pos k cols y (k - y * cols)); lia.
Qed.

(** The outer loop of both fillers, for any row body that writes the cells
    of its row but the last one and then 65535 at the start of the next
    row. *)
Lemma grid_loop (cols rows : Z) (val : Z -> Z -> Z) (m0 : list Z)
    (row : Z -> list Z -> option (list Z)) :
  2 <= cols ->
  (forall y m, 0 <= y < rows -> length m = length m0 ->
     exists m',
       row y m = Some m' /\ length m' = length m0 /\
       forall k, 0 <= k ->
         load m' k = if (y * cols <=? k) && (k <? y * cols + (cols - 1))
                     then Some (val y (k - y * cols))
                     else if k =? y * cols + cols then Some 65535
                     else load m k) ->
  exists m',
    for_lt rows row m0 = Some m' /\ length m' = length m0 /\
    forall k, 0 <= k ->
      load m' k = grid_after cols val m0 (Z.max rows 0) k.
Proof.
  intros Hcols Hrow. unfold for_lt.
  destruct (for_from_inv
    (fun y m => length m = length m0 /\
       forall k, 0 <= k -> load m k = grid_after cols val m0 y k)
    row (Z.to_nat rows) 0 m0) as (m' & Hrun & Hlen & Hcells).
  - split; [done|]. intros k Hk. unfold grid_after.
    destruct (Z.ltb_spec k (0 * cols)); [lia|].
    by rewrite andb_false_r.
  - intros y m Hy (Hlen & Hcells).
    destruct (Hrow y m) as (m' & Hrun & Hlen' & Hcells'); [lia|done|].
    exists m'. split; [done|]. split; [done|]. intros k Hk.
    rewrite Hcells', Hcells by done. unfold grid_after.
    destruct (Z.leb_spec (y * cols) k), (Z.ltb_spec k (y * cols + (cols - 1)));
      simpl.
    + destruct (row_div_mod cols y k) as [-> ->]; [lia|lia|].
      destruct (Z.ltb_spec k ((y + 1) * cols)); [|lia].
      destruct (Z.ltb_spec (k - y * cols) (cols - 1)); [done|lia].
    + destruct (Z.eqb_spec k (y * cols + cols)) as [->|Hne].
      * destruct (Z.ltb_spec (y * cols + cols) ((y + 1) * cols)); [lia|].
        destruct (Z.eqb_spec (y * cols + cols) ((y + 1) * cols)); [|lia].
        destruct (Z.ltb_spec 0 (y + 1)); [done|lia].
      * destruct (Z.ltb_spec k (y * cols)); [lia|].
        destruct (Z.eqb_spec k (y * cols)); [lia|]. simpl.
        destruct (Z.ltb_spec k ((y + 1) * cols)).
        -- destruct (row_div_mod cols y k) as [_ ->]; [lia|lia|].
           destruct (Z.ltb_spec (k - y * cols) (cols - 1)); [lia|done].
        -- destruct (Z.eqb_spec k ((y + 1) * cols)); [lia|done].
    + destruct (Z.eqb_spec k (y * cols + cols)); [lia|].
      destruct (Z.ltb_spec k (y * cols)); [|lia].
      destruct (Z.ltb_spec k ((y + 1) * cols)); [done|lia].
    + lia.
  - exists m'. split; [done|]. split; [done|]. intros k Hk.
    rewrite Hcells by done. do 2 f_equal. lia.
Qed.

Lemma fill_uniform_cells (rows cols sens : Z) (m0 : list Z) :
  2 <= cols -> (cols + 1) * rows <= Z.of_nat (length m0) ->
  exists m',
    fill_uniform rows cols sens m0 = Some m' /\ length m' = length m0 /\
    forall k, 0 <= k ->
      load m' k = grid_after cols (fun _ _ => u16 sens) m0 (Z.max rows 0) k.
Proof.
  intros Hcols Hfit. unfold fill_uniform. apply grid_loop; [done|].
  intros y m Hy Hlen.
  destruct (row_loop (fun _ => Some (u16 sens)) (fun _ => u16 sens)
              (y * cols) (cols - 1) m) as (m1 & Hrun & Hlen1 & Hcells1);
    [done|lia|nia|].
  simpl in Hrun. rewrite Hrun. simpl.
  assert (store m1 (y * cols + cols) 65535
          = Some (<[Z.to_nat (y * cols + cols) := 65535]> m1)) as Hst
    by (apply store_insert; nia).
  rewrite Hst. destruct (load_store _ _ _ _ Hst) as (Hlen2 & Hcells2).
  eexists. split; [done|]. split; [congruence|]. intros k Hk.
  rewrite Hcells2, Hcells1 by done.
  destruct (Z.eqb_spec k (y * cols + cols)) as [->|Hne]; [|done].
  destruct (Z.leb_spec (y * cols) (y * cols + cols)),
    (Z.ltb_spec (y * cols + cols) (y * cols + (cols - 1))); simpl; try done.
  lia.
Qed.

Lemma readmap_rows_cells (w h : Z) (rows : list (list Z)) (m0 : list Z) :
  2 <= w -> (w + 1) * h <= Z.of_nat (length m0) -> image_covers rows w h ->
  exists m',
    readmap_rows w h rows m0 = Some m' /\ length m' = length m0 /\
    forall k, 0 <= k ->
      load m' k = grid_after w (pixel_sq rows) m0 (Z.max h 0) k.
Proof.
  intros Hw Hfit Hcov. unfold readmap_rows. apply grid_loop; [done|].
  intros i m Hi Hlen.
  destruct (Hcov i 0) as [p0 Hp0]; [lia|lia|]. unfold pixel in Hp0.
  destruct (load rows i) as [r|] eqn:Hr; simpl in Hp0; [|done]. simpl.
  destruct (row_loop (fun j => rj ← load r j; Some (u16 (rj * rj)))
              (pixel_sq rows i) (i * w) (w - 1) m)
    as (m1 & Hrun & Hlen1 & Hcells1); [|lia|nia|].
  { intros j Hj. destruct (Hcov i j) as [p Hp]; [lia|lia|].
    unfold pixel_sq. rewrite Hp. unfold pixel in Hp. rewrite Hr in Hp.
    simpl in Hp. by rewrite Hp. }
  unfold for_lt in *.
  rewrite (for_from_ext _
    (fun j m => c ← (rj ← load r j; Some (u16 (rj * rj)));
                store m (i * w + j) c)).
  2:{ intros j a _. by destruct (load r j). }
  rewrite Hrun. simpl.
  assert (store m1 ((i + 1) * w) 65535
          = Some (<[Z.to_nat ((i + 1) * w) := 65535]> m1)) as Hst
    by (apply store_insert; nia).
  rewrite Hst. destruct (load_store _ _ _ _ Hst) as (Hlen2 & Hcells2).
  eexists. split; [done|]. split; [congruence|]. intros k Hk.
  rewrite Hcells2, Hcells1 by done.
  destruct (Z.eqb_spec k ((i + 1) * w)) as [Heq|Hne],
    (Z.eqb_spec k (i * w + w)); try lia; try done.
  destruct (Z.leb_spec (i * w) k),
    (Z.ltb_spec k (i * w + (w - 1))); simpl; try done.
  lia.
Qed.

Lemma length_malloc_u16 junk n :
  Z.of_nat (length (malloc_u16 junk n)) = Z.max n 0.
Proof. unfold malloc_u16. rewrite length_map, length_seq. lia. Qed.

Lemma load_malloc_u16 junk n k :
  0 <= k < n -> load (malloc_u16 junk n) k = Some (u16 (junk (Z.to_nat k))).
Proof.
  intros Hk. rewrite load_lookup by lia. unfold malloc_u16.
  rewrite list_lookup_fmap, lookup_seq_lt by lia. done.
Qed.

Lemma grid_dims (width_px height_px : Z) :
  1 <= width_px -> 0 <= height_px ->
  2 <= width_mb width_px + 1 /\ 0 <= height_mb height_px /\
  (1 <= height_px -> 1 <= height_mb height_px).
Proof.
  intros Hw Hh. unfold width_mb, height_mb.
  rewrite !Z.quot_div_nonneg by lia.
  pose proof (Z.div_le_lower_bound (width_px + 15) 16 1).
  pose proof (Z.div_le_lower_bound (height_px + 15) 16 1).
  pose proof (Z.div_pos (height_px + 15) 16). lia.
Qed.

(** [initmotion] with a uniform sensitivity: it succeeds, spawns the worker
    and leaves the map as the fill loop wrote it over the fresh block. *)
Lemma initmotion_uniform junk (st : state) width_px height_px sens thr ws :
  1 <= width_px -> 0 <= height_px -> sens * sens <= INT_MAX ->
  let rows := height_mb height_px in
  let cols := width_mb width_px + 1 in
  exists st',
    initmotion junk st width_px height_px None sens thr ws = Some (0, st') /\
    width st' = cols /\ height st' = rows /\
    threads st' = S (threads st) /\
    Z.of_nat (length (map st')) = (cols + 1) * rows /\
    forall k, 0 <= k ->
      load (map st') k
      = grid_after cols (fun _ _ => Z.min (sens * sens) 65535)
          (malloc_u16 junk ((cols + 1) * rows)) rows k.
Proof.
  intros Hw Hh Hs rows cols.
  destruct (grid_dims width_px height_px Hw Hh) as (Hc & Hr & _).
  fold rows cols in Hc, Hr. unfold initmotion.
  fold (height_mb height_px) (width_mb width_px). fold rows cols.
  unfold int_mul, in_int.
  destruct (Z.leb_spec INT_MIN (sens * sens)); [|unfold INT_MIN in *; nia].
  destruct (Z.leb_spec (sens * sens) INT_MAX); [|lia]. simpl.
  set (v := if sens * sens >? 65535 then 65535 else sens * sens).
  assert (v = Z.min (sens * sens) 65535) as Hv
    by (subst v; destruct (Z.gtb_spec (sens * sens) 65535); lia).
  assert (u16 v = v) as Hu by (unfold u16; apply Z.mod_small; nia).
  destruct (fill_uniform_cells rows cols v
              (malloc_u16 junk ((cols + 1) * rows)))
    as (m' & Hrun & Hlen & Hcells); [done|rewrite length_malloc_u16; nia|].
  rewrite Hrun. simpl. eexists. split; [done|]. simpl.
  repeat split; try done.
  - rewrite Hlen, length_malloc_u16. nia.
  - intros k Hk. rewrite Hcells by done. rewrite Hu, Hv.
    by replace (Z.max rows 0) with rows by lia.
Qed.

Lemma moved_cells_In (m : list Z) (v : list motvec) (n i : Z) :
  In i (moved_cells m v n) <->
  0 <= i < n /\
  exists mi vi, load m i = Some mi /\ load v i = Some vi /\
                mi < magnitude_sq vi.
Proof.
  unfold moved_cells. rewrite filter_In, <- list_elem_of_In, elem_of_zrange.
  unfold exceeds. split.
  - intros [Hi He]. split; [lia|].
    destruct (load m i) as [mi|]; [|done].
    destruct (load v i) as [vi|]; [|done].
    exists mi, vi. repeat split. by apply Z.ltb_lt.
  - intros [Hi (mi & vi & -> & -> & Hlt)]. split; [lia|].
    by apply Z.ltb_lt.
Qed.

(** ** The handoff *)

Lemma ma_filter_vectors (st : state) raw o st' :
  ma_filter st raw = Some (o, st') -> vectors st' = vectors st.
Proof.
  unfold ma_filter. destruct (load _ _); simpl; [|done].
  destruct (int_div _ _); simpl; [|done].
  destruct (store _ _ _); simpl; [|done].
  destruct (head_sum _ _ _); simpl; [|done]. by intros [= <- <-].
Qed.

Lemma lookformotion_vectors (st : state) (v : list motvec) st' :
  lookformotion st v = Some st' -> vectors st' = vectors st.
Proof.
  unfold lookformotion. destruct (count_moved _ _ _); simpl; [|done].
  unfold dumppng. destruct (_ && _); simpl; [done|].
  unfold filter_and_fire.
  destruct (ma_filter _ _) as [[o st1]|] eqn:E; simpl; [|done].
  apply ma_filter_vectors in E. simpl in E.
  destruct (_ >=? _); intros [= <-]; simpl; done.
Qed.

(** One call of [findmotion]: the copy is the new slot content, the stale
    content of the slot (if any) is freed, the thread is signalled. *)
Lemma findmotion_step (out : list motvec) (sys : system) :
  heap_ok sys ->
  let stale := match vectors (det sys) with Some q => [q] | None => [] end in
  exists sys',
    findmotion out sys = Some sys' /\ heap_ok sys' /\
    det sys' = set_vectors (det sys) (Some (next_ptr sys)) /\
    next_ptr sys' = S (next_ptr sys) /\
    heap sys' !! next_ptr sys = Some out /\
    (forall q, In q stale -> heap sys' !! q = None) /\
    (forall q, q <> next_ptr sys -> ~ In q stale ->
       heap sys' !! q = heap sys !! q) /\
    freed sys' = freed sys ++ stale /\
    (forall p, In p (freed sys') -> (p < next_ptr sys)%nat) /\
    worker sys' = cond_signal (worker sys).
Proof.
  intros (Hfresh & Hfreed & Hslot) stale. unfold findmotion. simpl.
  destruct (vectors (det sys)) as [q|] eqn:Hq; simpl.
  - destruct (Hslot q eq_refl) as [x Hx].
    assert (q < next_ptr sys)%nat as Hlt.
    { destruct (Nat.lt_ge_cases q (next_ptr sys)); [done|].
      rewrite Hfresh in Hx by done. done. }
    assert (q <> next_ptr sys) as Hne by lia.
    unfold av_free. simpl. rewrite lookup_insert_ne by done. rewrite Hx.
    simpl. eexists. split; [done|]. simpl. subst stale.
    repeat split; simpl; try done.
    + intros p Hp. rewrite lookup_delete_ne, lookup_insert_ne by lia.
      apply Hfresh. lia.
    + intros p Hp. apply in_app_or in Hp as [Hp|[<-|[]]].
      * apply Hfreed in Hp. lia.
      * lia.
    + intros p [= <-]. rewrite lookup_delete_ne by done.
      rewrite lookup_insert_eq. done.
    + rewrite lookup_delete_ne by done. apply lookup_insert_eq.
    + intros p [<-|[]]. apply lookup_delete_eq.
    + intros p Hp Hst. rewrite lookup_delete_ne by tauto.
      by rewrite lookup_insert_ne.
    + intros p Hp. apply in_app_or in Hp as [Hp|[<-|[]]]; [|done].
      by apply Hfreed.
  - eexists. split; [done|]. simpl. subst stale.
    repeat split; simpl; try done.
    all: try (by rewrite app_nil_r).
    + intros p Hp. rewrite lookup_insert_ne by lia. apply Hfresh. lia.
    + intros p Hp. apply Hfreed in Hp. lia.
    + intros p [= <-]. rewrite lookup_insert_eq. done.
    + apply lookup_insert_eq.
    + intros p Hp _. by rewrite lookup_insert_ne.
Qed.

(** A frame published while the thread is in the middle of a pass stays in
    the slot, and its signal is lost: [motionstart] waits without looking
    at the slot, so that after the pass the thread waits although a frame is
    there, until the next call of [findmotion]. *)
Lemma busy_thread_misses_signal (sys : system) (out : list motvec) tv :
  heap_ok sys -> worker sys = Busy tv ->
  exists sys',
    findmotion out sys = Some sys' /\ worker sys' = Busy tv /\
    vectors (det sys') = Some (next_ptr sys) /\
    forall sys'', motionstart_pass sys' = Some sys'' ->
      worker sys'' = Waiting /\
      vectors (det sys'') = Some (next_ptr sys) /\
      motionstart_take sys'' = None.
Proof.
  intros Hok Hw.
  destruct (findmotion_step out sys Hok)
    as (sys' & Hf & _ & Hd & _ & _ & _ & _ & _ & _ & Hw').
  rewrite Hw in Hw'. simpl in Hw'.
  exists sys'. split; [done|]. split; [done|]. split; [by rewrite Hd|].
  intros sys'' Hpass. unfold motionstart_pass in Hpass. rewrite Hw' in Hpass.
  destruct (match tv with Some p => heap sys' !! p | None => Some [] end)
    as [v|]; simpl in Hpass; [|done].
  destruct (lookformotion (det sys') v) as [d|] eqn:Hl; simpl in Hpass;
    [|done].
  apply lookformotion_vectors in Hl. rewrite Hd in Hl. simpl in Hl.
  assert (worker sys'' = Waiting /\ det sys'' = d) as [Hw'' Hd''].
  { destruct tv as [p|]; simpl in Hpass.
    - unfold av_free in Hpass. destruct (heap sys' !! p); simpl in Hpass;
        [|done]. by injection Hpass as <-.
    - by injection Hpass as <-. }
  split; [done|]. split; [by rewrite Hd''|].
  unfold motionstart_take. by rewrite Hw''.
Qed.

Lemma count_occ_snoc_eq (l : list nat) (p : nat) :
  ~ In p l -> count_occ Nat.eq_dec (l ++ [p]) p = 1%nat.
Proof.
  intros H. rewrite count_occ_app.
  apply (count_occ_not_In Nat.eq_dec) in H. rewrite H. simpl.
  by destruct (Nat.eq_dec p p).
Qed.

Lemma count_occ_snoc_ne (l : list nat) (p q : nat) :
  p <> q -> count_occ Nat.eq_dec (l ++ [q]) p = count_occ Nat.eq_dec l p.
Proof.
  intros H. rewrite count_occ_app. simpl.
  destruct (Nat.eq_dec q p); [congruence|lia].
Qed.

(** *** The invariant of the handoff *)

Lemma taken_cond_signal (sys : system) (w : worker_state) :
  match cond_signal w with Busy tv => tv | _ => None end
  = match w with Busy tv => tv | _ => None end.
Proof. by destruct w. Qed.

Lemma findmotion_inv (out : list motvec) (sys : system) :
  handoff_inv sys ->
  exists sys', findmotion out sys = Some sys' /\ handoff_inv sys'.
Proof.
  intros (Hlive & Hdiff & Hnd & Hfr & Hnext & Hwk & Hbusy).
  assert (heap sys !! next_ptr sys = None) as Hfresh.
  { apply eq_None_not_Some. intros Hs.
    assert (next_ptr sys < next_ptr sys)%nat; [|lia].
    apply Hnext. by right. }
  assert (next_ptr sys ∉ freed sys) as Hnf.
  { intros Hin. assert (next_ptr sys < next_ptr sys)%nat; [|lia].
    apply Hnext. by left. }
  unfold findmotion. cbn [det heap next_ptr freed worker].
  destruct (vectors (det sys)) as [q|] eqn:Eq.
  - assert (is_Some (heap sys !! q)) as [vq Hq] by (apply Hlive; by left).
    assert (q <> next_ptr sys) as Hne by congruence.
    unfold av_free. cbn [det heap next_ptr freed worker].
    rewrite lookup_insert_ne, Hq by done. cbn.
    eexists. split; [reflexivity|].
    unfold handoff_inv, taken. cbn [det heap next_ptr freed worker].
    rewrite taken_cond_signal by exact sys.
    fold (taken sys). unfold set_vectors. cbn [vectors].
    split; [|split; [|split; [|split; [|split; [|split]]]]].
    + intros p. destruct (decide (p = q)) as [->|Hpq].
      * rewrite lookup_delete_eq. split; [by intros [? ?]|].
        intros [H|H]; [congruence|]. by destruct (Hdiff q eq_refl).
      * rewrite lookup_delete_ne by done.
        destruct (decide (p = next_ptr sys)) as [->|Hpn].
        -- rewrite lookup_insert_eq. split; [by left|by eexists].
        -- rewrite lookup_insert_ne by done. rewrite Hlive.
           split; intros [H|H]; try by right.
           ++ congruence.
           ++ congruence.
    + intros p [= <-] Ht.
      assert (is_Some (heap sys !! next_ptr sys)) as [? ?]
        by (apply Hlive; by right).
      congruence.
    + apply NoDup_app. split; [done|]. split; [|apply NoDup_singleton].
      intros x Hx ->%list_elem_of_singleton.
      rewrite (Hfr q Hx) in Hq. done.
    + intros p [Hp| ->%list_elem_of_singleton]%elem_of_app.
      * rewrite lookup_delete_ne by (intros ->; rewrite (Hfr _ Hp) in Hq; done).
        rewrite lookup_insert_ne by (intros <-; exact (Hnf Hp)). by apply Hfr.
      * apply lookup_delete_eq.
    + intros p. rewrite elem_of_app, list_elem_of_singleton.
      destruct (decide (p = q)) as [->|Hpq].
      * rewrite lookup_delete_eq. split; [by left; right|].
        intros _. assert (q < next_ptr sys)%nat; [|lia].
        apply Hnext. right. by eexists.
      * rewrite lookup_delete_ne by done.
        destruct (decide (p = next_ptr sys)) as [->|Hpn].
        -- rewrite lookup_insert_eq. split; [right; by eexists|lia].
        -- rewrite lookup_insert_ne by done. split.
           ++ intros Hlt. assert (p < next_ptr sys)%nat as Hlt' by lia.
              apply Hnext in Hlt' as [?|?]; [left; by left|by right].
           ++ intros [[?|?]|?]; [|done|];
                (assert (p < next_ptr sys)%nat; [apply Hnext; tauto|lia]).
    + intros _. by eexists.
    + intros H. destruct (worker sys) as [| |[?|]]; simpl in H; congruence.
  - cbn. eexists. split; [reflexivity|].
    unfold handoff_inv, taken. cbn [det heap next_ptr freed worker].
    rewrite taken_cond_signal by exact sys.
    fold (taken sys). unfold set_vectors. cbn [vectors].
    split; [|split; [|split; [|split; [|split; [|split]]]]].
    + intros p. destruct (decide (p = next_ptr sys)) as [->|Hpn].
      * rewrite lookup_insert_eq. split; [by left|by eexists].
      * rewrite lookup_insert_ne by done. rewrite Hlive.
        split; intros [H|H]; try by right.
        congruence.
    + intros p [= <-] Ht.
      assert (is_Some (heap sys !! next_ptr sys)) as [? ?]
        by (apply Hlive; by right).
      congruence.
    + done.
    + intros p Hp. rewrite lookup_insert_ne by (intros <-; exact (Hnf Hp)).
      by apply Hfr.
    + intros p. destruct (decide (p = next_ptr sys)) as [->|Hpn].
      * rewrite lookup_insert_eq. split; [right; by eexists|lia].
      * rewrite lookup_insert_ne by done. rewrite <- Hnext. lia.
    + intros _. by eexists.
    + intros H. destruct (worker sys) as [| |[?|]]; simpl in H; congruence.
Qed.

Lemma motionstart_take_inv (sys sys' : system) tv :
  handoff_inv sys -> motionstart_take sys = Some (tv, sys') ->
  handoff_inv sys' /\ is_Some tv /\ worker sys = Woken.
Proof.
  intros (Hlive & Hdiff & Hnd & Hfr & Hnext & Hwk & Hbusy) H.
  unfold motionstart_take in H.
  destruct (worker sys) eqn:Ew; try done.
  injection H as <- <-. destruct (Hwk eq_refl) as [q Hq].
  split; [|split; [by eexists|done]].
  unfold handoff_inv, taken in *.
  cbn [det heap next_ptr freed worker]. unfold set_vectors. cbn [vectors].
  rewrite Hq in *.
  split; [|split; [|split; [|split; [|split; [|split]]]]]; try done.
  intros p. rewrite Hlive, Ew. tauto.
Qed.

Lemma motionstart_pass_inv (sys sys' : system) :
  handoff_inv sys -> motionstart_pass sys = Some sys' ->
  handoff_inv sys' /\
  exists p v d,
    worker sys = Busy (Some p) /\ heap sys !! p = Some v /\
    lookformotion (det sys) v = Some d /\ det sys' = d /\
    freed sys' = freed sys ++ [p] /\ worker sys' = Waiting.
Proof.
  intros (Hlive & Hdiff & Hnd & Hfr & Hnext & Hwk & Hbusy) H.
  unfold motionstart_pass in H.
  destruct (worker sys) as [| |[p|]] eqn:Ew; try done.
  assert (is_Some (heap sys !! p)) as [v Hv]
    by (apply Hlive; right; unfold taken; by rewrite Ew).
  rewrite Hv in H. cbn in H.
  destruct (lookformotion (det sys) v) as [d|] eqn:Hd; [|done].
  cbn in H. unfold av_free in H. rewrite Hv in H. cbn in H.
  injection H as <-.
  split; [|by exists p, v, d].
  pose proof (lookformotion_vectors _ _ _ Hd) as Hvec.
  unfold handoff_inv, taken in *.
  cbn [det heap next_ptr freed worker]. rewrite Hvec, Ew in *.
  split; [|split; [|split; [|split; [|split; [|split]]]]]; try done.
  - intros x. destruct (decide (x = p)) as [->|Hxp].
    + rewrite lookup_delete_eq. split; [by intros [? ?]|].
      intros [H|H]; [|done]. by destruct (Hdiff p H).
    + rewrite lookup_delete_ne by done. rewrite Hlive.
      split; intros [H|H]; try done; [by left|congruence|by left].
  - apply NoDup_app. split; [done|]. split; [|apply NoDup_singleton].
    intros x Hx ->%list_elem_of_singleton.
    rewrite (Hfr p Hx) in Hv. done.
  - intros x [Hx| ->%list_elem_of_singleton]%elem_of_app.
    + rewrite lookup_delete_ne by (intros ->; rewrite (Hfr _ Hx) in Hv; done).
      by apply Hfr.
    + apply lookup_delete_eq.
  - intros x. rewrite elem_of_app, list_elem_of_singleton.
    destruct (decide (x = p)) as [->|Hxp].
    + rewrite lookup_delete_eq. split; [by left; right|].
      intros _. apply Hnext. right. by eexists.
    + rewrite lookup_delete_ne by done. rewrite Hnext. tauto.
Qed.

Lemma hstep_inv (e : hevent) (sys sys' : system) :
  handoff_inv sys -> hstep e sys = Some sys' -> handoff_inv sys'.
Proof.
  intros Hinv H. destruct e as [out| |]; simpl in H.
  - destruct (findmotion_inv out sys Hinv) as (s & Hs & Hi). congruence.
  - destruct (motionstart_take sys) as [[tv s]|] eqn:E; [|done].
    simpl in H. injection H as <-.
    by destruct (motionstart_take_inv _ _ _ Hinv E).
  - by destruct (motionstart_pass_inv _ _ Hinv H).
Qed.

Lemma hrun_inv (es : list hevent) (sys sys' : system) :
  handoff_inv sys -> hrun es sys = Some sys' -> handoff_inv sys'.
Proof.
  revert sys. induction es as [|e es IH]; intros sys Hinv H; simpl in H.
  - by injection H as <-.
  - destruct (hstep e sys) as [s|] eqn:E; [|done]. simpl in H.
    apply (IH s); [by eapply hstep_inv|done].
Qed.

Lemma handoff_inv_idle (st : state) :
  vectors st = None ->
  handoff_inv {| det := st; heap := ∅; next_ptr := 0%nat; freed := [];
                 worker := Waiting |}.
Proof.
  intros Hv. unfold handoff_inv, taken.
  cbn [det heap next_ptr freed worker]. rewrite Hv.
  split; [|split; [|split; [|split; [|split; [|split]]]]]; try done.
  - intros p. rewrite lookup_empty. split; [by intros [? ?]|by intros [?|?]].
  - apply NoDup_nil_2.
  - intros p. rewrite lookup_empty. split; [lia|].
    intros [H|[? ?]]; [by apply elem_of_nil in H|done].
Qed.

Lemma handoff_inv_heap_ok (sys : system) : handoff_inv sys -> heap_ok sys.
Proof.
  intros (Hlive & _ & _ & _ & Hnext & _ & _). split; [|split].
  - intros p Hp. apply eq_None_not_Some. intros Hs.
    assert (p < next_ptr sys)%nat; [|lia]. apply Hnext. by right.
  - intros p Hp. apply Hnext. left. by apply list_elem_of_In.
  - intros q Hq. apply Hlive. by left.
Qed.

(** *** Two frames in a row *)

Lemma publish_twice (sys : system) (A B : list motvec) :
  heap_ok sys ->
  let pA := next_ptr sys in
  let pB := S (next_ptr sys) in
  exists s1 s2,
    findmotion A sys = Some s1 /\ findmotion B s1 = Some s2 /\
    heap_ok s2 /\ next_ptr s2 = S pB /\
    vectors (det s2) = Some pB /\ heap s2 !! pB = Some B /\
    heap s2 !! pA = None /\
    freed s2 = freed s1 ++ [pA] /\ ~ In pA (freed s1) /\
    ~ In pB (freed s1) /\
    count_occ Nat.eq_dec (freed s2) pA = 1%nat /\
    count_occ Nat.eq_dec (freed s2) pB = 0%nat /\
    worker s2 = cond_signal (cond_signal (worker sys)).
Proof.
  intros Hok pA pB.
  destruct (findmotion_step A sys Hok)
    as (s1 & Hf1 & Hok1 & Hd1 & Hn1 & Hh1 & _ & _ & _ & Hold1 & Hw1).
  destruct (findmotion_step B s1 Hok1)
    as (s2 & Hf2 & Hok2 & Hd2 & Hn2 & Hh2 & Hst2 & _ & Hfr2 & _ & Hw2).
  rewrite Hd1 in Hfr2, Hst2. simpl in Hfr2, Hst2. rewrite Hn1 in *.
  fold pA in Hfr2, Hst2, Hh1, Hd1, Hold1. fold pB in Hh2, Hd2, Hn2.
  assert (~ In pA (freed s1)) as HnA by (intros H; apply Hold1 in H; lia).
  assert (~ In pB (freed s1)) as HnB
    by (intros H; apply Hold1 in H; subst pB; lia).
  exists s1, s2. split; [done|]. split; [done|]. split; [done|].
  split; [done|]. split; [by rewrite Hd2|]. split; [done|].
  split; [apply Hst2; by left|]. split; [done|]. split; [done|].
  split; [done|]. split; [|split].
  - rewrite Hfr2. by apply count_occ_snoc_eq.
  - rewrite Hfr2, count_occ_snoc_ne by (subst pB; lia).
    by apply count_occ_not_In.
  - by rewrite Hw2, Hw1.
Qed.

(** The thread is inside [pthread_cond_wait]: the second frame is the one
    it takes. *)
Lemma publish_twice_waiting (sys s2 : system) (B : list motvec) :
  let pA : ptr := next_ptr sys in
  let pB : ptr := S (next_ptr sys) in
  worker s2 = Woken ->
  vectors (det s2) = Some pB -> heap s2 !! pB = Some B ->
  ~ In pB (freed s2) ->
  count_occ Nat.eq_dec (freed s2) pA = 1%nat ->
  exists s3,
    motionstart_take s2 = Some (Some pB, s3) /\
    vectors (det s3) = None /\ heap s3 !! pB = Some B /\
    forall d, lookformotion (det s3) B = Some d ->
      exists s4,
        motionstart_pass s3 = Some s4 /\ det s4 = d /\
        vectors (det s4) = None /\ heap s4 !! pB = None /\
        count_occ Nat.eq_dec (freed s4) pA = 1%nat /\
        count_occ Nat.eq_dec (freed s4) pB = 1%nat /\
        worker s4 = Waiting /\ motionstart_take s4 = None.
Proof.
  intros pA pB Hw Hd Hh HnB HcA.
  exists {| det := set_vectors (det s2) None; heap := heap s2;
            next_ptr := next_ptr s2; freed := freed s2;
            worker := Busy (Some pB) |}.
  split; [unfold motionstart_take; by rewrite Hw, Hd|].
  cbn [det heap next_ptr freed worker].
  split; [done|]. split; [done|].
  intros d Hl. unfold motionstart_pass.
  cbn [worker det heap next_ptr freed]. rewrite Hh. cbn [mbind option_bind].
  rewrite Hl. cbn [mbind option_bind]. unfold av_free.
  cbn [heap det next_ptr freed worker]. rewrite Hh. cbn [mbind option_bind].
  eexists. split; [done|]. simpl.
  apply lookformotion_vectors in Hl. simpl in Hl.
  split; [done|]. split; [done|]. split; [apply lookup_delete_eq|].
  split; [by rewrite count_occ_snoc_ne by (subst pB; lia)|].
  split; [|done]. by apply count_occ_snoc_eq.
Qed.

(** The thread is in a pass: the signal finds no waiter, the second frame
    stays in the slot when the pass ends, and the next [findmotion] frees
    it without the thread having taken it. *)
Lemma publish_twice_busy (sys s2 : system) (B : list motvec) tv :
  let pB : ptr := S (next_ptr sys) in
  handoff_inv sys -> worker sys = Busy tv ->
  handoff_inv s2 -> worker s2 = Busy tv -> next_ptr s2 = S pB ->
  vectors (det s2) = Some pB -> heap s2 !! pB = Some B ->
  ~ In pB (freed s2) ->
  motionstart_take s2 = None /\
  forall s3, motionstart_pass s2 = Some s3 ->
    worker s3 = Waiting /\ vectors (det s3) = Some pB /\
    heap s3 !! pB = Some B /\
    count_occ Nat.eq_dec (freed s3) pB = 0%nat /\
    motionstart_take s3 = None /\
    forall C, exists s4 s5,
      findmotion C s3 = Some s4 /\ heap s4 !! pB = None /\
      count_occ Nat.eq_dec (freed s4) pB = 1%nat /\
      vectors (det s4) = Some (S pB) /\ heap s4 !! S pB = Some C /\
      motionstart_take s4 = Some (Some (S pB), s5).
Proof.
  intros pB Hinv Hw Hinv2 Hw2 Hn2 Hd2 Hh2 HnB.
  split; [unfold motionstart_take; by rewrite Hw2|].
  intros s3 Hpass.
  destruct (motionstart_pass_inv _ _ Hinv2 Hpass)
    as (Hinv3 & p & v & d & Hwp & Hv & Hl & Hd3 & Hfr3 & Hw3).
  assert (p <> pB) as Hne.
  { destruct Hinv as (Hlive & _ & _ & _ & Hnext & _).
    assert (p < next_ptr sys)%nat; [|subst pB; lia].
    apply Hnext. right. apply Hlive. right. unfold taken.
    rewrite Hw. congruence. }
  assert (next_ptr s3 = S pB /\ heap s3 !! pB = Some B) as [Hn3 Hh3].
  { unfold motionstart_pass in Hpass. rewrite Hwp, Hv in Hpass.
    cbn in Hpass. rewrite Hl in Hpass. cbn in Hpass.
    unfold av_free in Hpass. rewrite Hv in Hpass. cbn in Hpass.
    injection Hpass as <-. cbn. split; [done|].
    by rewrite lookup_delete_ne. }
  assert (vectors (det s3) = Some pB) as Hslot3.
  { rewrite Hd3. apply lookformotion_vectors in Hl. congruence. }
  assert (~ In pB (freed s3)) as HnB3.
  { rewrite Hfr3. intros Hin. apply in_app_or in Hin as [Hin|[Hin|[]]];
      [done|congruence]. }
  split; [done|]. split; [done|]. split; [done|].
  split; [by apply count_occ_not_In|].
  split; [unfold motionstart_take; by rewrite Hw3|].
  intros C.
  destruct (findmotion_step C s3 (handoff_inv_heap_ok _ Hinv3))
    as (s4 & Hf4 & _ & Hd4 & _ & Hh4 & Hst4 & _ & Hfr4 & _ & Hw4).
  rewrite Hslot3 in Hst4, Hfr4. rewrite Hn3 in Hd4, Hh4.
  rewrite Hw3 in Hw4. simpl in Hw4.
  exists s4. eexists. split; [done|].
  split; [apply Hst4; by left|].
  split; [rewrite Hfr4; by apply count_occ_snoc_eq|].
  split; [by rewrite Hd4|]. split; [done|].
  unfold motionstart_take. by rewrite Hw4, Hd4.
Qed.

(** ** The checked program *)

Lemma int_add_Some a b c : int_add a b = Some c -> c = a + b.
Proof. unfold int_add. destruct (in_int _); congruence. Qed.

Lemma int_sub_Some a b c : int_sub a b = Some c -> c = a - b.
Proof. unfold int_sub. destruct (in_int _); congruence. Qed.

Lemma int_mul_Some a b c : int_mul a b = Some c -> c = a * b.
Proof. unfold int_mul. destruct (in_int _); congruence. Qed.

Lemma cap4_int_Some thr n c : cap4_int thr n = Some c -> c = cap4 thr n.
Proof.
  unfold cap4_int, cap4. destruct (int_mul thr 4) as [m|] eqn:E; [|done].
  apply int_mul_Some in E as ->. simpl. congruence.
Qed.

(** A loop whose body refines another body refines the other loop. *)
Lemma for_from_sound {St} (f g : Z -> St -> option St) trips lo (s s' : St) :
  (forall k a a', lo <= k < lo + Z.of_nat trips ->
     f k a = Some a' -> g k a = Some a') ->
  for_from lo trips f s = Some s' -> for_from lo trips g s = Some s'.
Proof.
  revert lo s. induction trips as [|n IH]; intros lo s H Hf; [done|].
  simpl in *. destruct (f lo s) as [a|] eqn:E; [|done].
  rewrite (H lo s a) by (done || lia). apply IH; [|done].
  intros k b b' Hk. apply H. lia.
Qed.

Lemma head_sum_int_Some (fw : list Z) ws i x :
  head_sum_int fw ws i = Some x -> head_sum fw ws i = Some x.
Proof.
  unfold head_sum_int, head_sum, for_lt. apply for_from_sound.
  intros k a a' _ H.
  destruct (int_sub i k) as [d|] eqn:E1; simpl in H; [|done].
  apply int_sub_Some in E1 as ->.
  destruct (Z.ltb_spec (i - k) 0).
  - destruct (int_add ws i) as [e|] eqn:E2; simpl in H; [|done].
    apply int_add_Some in E2 as ->.
    destruct (int_sub (ws + i) k) as [e|] eqn:E3; simpl in H; [|done].
    apply int_sub_Some in E3 as ->.
    destruct (load fw (ws + i - k)); simpl in *; [|done].
    by apply int_add_Some in H as ->.
  - simpl in H. destruct (load fw (i - k)); simpl in *; [|done].
    by apply int_add_Some in H as ->.
Qed.

(** What the checked filter returns, the filter returns. *)
Lemma ma_filter_int_sound (st : state) (t : Z) x :
  ma_filter_int st t = Some x -> ma_filter st t = Some x.
Proof.
  unfold ma_filter_int, ma_filter. intros H.
  destruct (int_mul (width st) (height st)) as [nm|] eqn:E1;
    simpl in H; [|done].
  apply int_mul_Some in E1 as ->.
  set (t' := if t >? _ then threshold st else t) in *.
  destruct (cap4_int (threshold st) t') as [n1|] eqn:E2; simpl in H; [|done].
  apply cap4_int_Some in E2 as ->.
  destruct (int_add (ma_sum st) _) as [s1|] eqn:E3; simpl in H; [|done].
  apply int_add_Some in E3 as ->.
  destruct (load (filter_window st) (ma_i st)) as [old|]; simpl in *; [|done].
  destruct (cap4_int (threshold st) old) as [n2|] eqn:E4; simpl in H; [|done].
  apply cap4_int_Some in E4 as ->.
  destruct (int_sub _ _) as [s2|] eqn:E5; simpl in H; [|done].
  apply int_sub_Some in E5 as ->.
  destruct (int_div _ _) as [nf|]; simpl in *; [|done].
  destruct (store (filter_window st) (ma_i st) t') as [fw|];
    simpl in *; [|done].
  destruct (head_sum_int fw (window_size st) (ma_i st)) as [hs|] eqn:E6;
    simpl in H; [|done].
  rewrite (head_sum_int_Some _ _ _ _ E6). simpl.
  destruct (int_add (ma_i st) 1) as [i1|] eqn:E7; simpl in H; [|done].
  apply int_add_Some in E7 as ->.
  destruct (Z.gtb_spec (hs ÷ 12) nf).
  - destruct (int_sub (hs ÷ 12) nf) as [r|] eqn:E8; simpl in H; [|done].
    by apply int_sub_Some in E8 as ->.
  - done.
Qed.

Lemma fill_uniform_int_sound rows cols sens (m m' : list Z) :
  fill_uniform_int rows cols sens m = Some m' ->
  fill_uniform rows cols sens m = Some m'.
Proof.
  unfold fill_uniform_int, fill_uniform, for_lt. apply for_from_sound.
  intros y a a' _ H.
  destruct (int_sub cols 1) as [c1|] eqn:E1; simpl in H; [|done].
  apply int_sub_Some in E1 as ->.
  destruct (for_from 0 (Z.to_nat (cols - 1)) _ a) as [b|] eqn:E2;
    simpl in H; [|done].
  apply (for_from_sound _ (fun x m => store m (y * cols + x) (u16 sens)))
    in E2.
  2:{ intros x c c' _ Hc.
      destruct (int_mul y cols) as [yc|] eqn:F1; simpl in Hc; [|done].
      apply int_mul_Some in F1 as ->.
      destruct (int_add (y * cols) x) as [k|] eqn:F2; simpl in Hc; [|done].
      by apply int_add_Some in F2 as ->. }
  rewrite E2. simpl.
  destruct (int_mul y cols) as [yc|] eqn:E3; simpl in H; [|done].
  apply int_mul_Some in E3 as ->.
  destruct (int_add (y * cols) cols) as [k|] eqn:E4; simpl in H; [|done].
  by apply int_add_Some in E4 as ->.
Qed.

Lemma readmap_rows_int_sound w h rows (m m' : list Z) :
  readmap_rows_int w h rows m = Some m' ->
  readmap_rows w h rows m = Some m'.
Proof.
  unfold readmap_rows_int, readmap_rows, for_lt. apply for_from_sound.
  intros i a a' _ H.
  destruct (load rows i) as [r|]; simpl in *; [|done].
  destruct (int_sub w 1) as [w1|] eqn:E1; simpl in H; [|done].
  apply int_sub_Some in E1 as ->.
  destruct (for_from 0 (Z.to_nat (w - 1)) _ a) as [b|] eqn:E2;
    simpl in H; [|done].
  apply (for_from_sound _
           (fun j m => rj ← load r j; store m (i * w + j) (u16 (rj * rj))))
    in E2.
  2:{ intros j c c' _ Hc.
      destruct (load r j) as [rj|]; simpl in *; [|done].
      destruct (int_mul i w) as [iw|] eqn:F1; simpl in Hc; [|done].
      apply int_mul_Some in F1 as ->.
      destruct (int_add (i * w) j) as [k|] eqn:F2; simpl in Hc; [|done].
      by apply int_add_Some in F2 as ->. }
  rewrite E2. simpl.
  destruct (int_add i 1) as [i1|] eqn:E3; simpl in H; [|done].
  apply int_add_Some in E3 as ->.
  destruct (int_mul (i + 1) w) as [k|] eqn:E4; simpl in H; [|done].
  by apply int_mul_Some in E4 as ->.
Qed.

(** What the checked [initmotion] returns, [initmotion] returns. *)
Lemma initmotion_int_sound junk (st : state) width_px height_px mf
    sens thr ws x :
  initmotion_int junk st width_px height_px mf sens thr ws = Some x ->
  initmotion junk st width_px height_px mf sens thr ws = Some x.
Proof.
  unfold initmotion_int, initmotion. intros H.
  destruct (int_add height_px 15) as [h15|] eqn:E1; simpl in H; [|done].
  apply int_add_Some in E1 as ->.
  destruct (int_add width_px 15) as [w15|] eqn:E2; simpl in H; [|done].
  apply int_add_Some in E2 as ->.
  destruct (int_add ((width_px + 15) ÷ 16) 1) as [cols|] eqn:E3;
    simpl in H; [|done].
  apply int_add_Some in E3 as ->.
  destruct (int_add ((width_px + 15) ÷ 16 + 1) 1) as [c1|] eqn:E4;
    simpl in H; [|done].
  apply int_add_Some in E4 as ->.
  destruct mf as [[| |ct rows]|]; simpl in *; try done.
  - destruct (readmap_rows_int _ _ _ _) as [m|] eqn:E5; simpl in H; [|done].
    by rewrite (readmap_rows_int_sound _ _ _ _ _ E5).
  - destruct (int_mul sens sens) as [ss|]; simpl in *; [|done].
    destruct (fill_uniform_int _ _ _ _) as [m|] eqn:E5; simpl in H; [|done].
    by rewrite (fill_uniform_int_sound _ _ _ _ _ E5).
Qed.


(** *** [initmotion] in range *)

Lemma fill_uniform_int_agrees rows cols sens (m : list Z) :
  1 <= cols -> rows * cols <= INT_MAX ->
  fill_uniform_int rows cols sens m = fill_uniform rows cols sens m.
Proof.
  intros Hc Hn. unfold fill_uniform_int, fill_uniform, for_lt.
  apply for_from_ext. intros y a Hy.
  rewrite int_sub_ok by (unfold INT_MIN, INT_MAX in *; lia). simpl.
  rewrite (for_from_ext _ (fun x m => store m (y * cols + x) (u16 sens))).
  2:{ intros x b Hx.
      rewrite int_mul_ok by (unfold INT_MIN, INT_MAX in *; nia). simpl.
      rewrite int_add_ok by (unfold INT_MIN, INT_MAX in *; nia). done. }
  destruct (for_from 0 _ _ a); simpl; [|done].
  rewrite int_mul_ok by (unfold INT_MIN, INT_MAX in *; nia). simpl.
  rewrite int_add_ok by (unfold INT_MIN, INT_MAX in *; nia). done.
Qed.

Lemma readmap_rows_int_agrees w h rows (m : list Z) :
  1 <= w -> h * w <= INT_MAX ->
  readmap_rows_int w h rows m = readmap_rows w h rows m.
Proof.
  intros Hw Hn. unfold readmap_rows_int, readmap_rows, for_lt.
  apply for_from_ext. intros i a Hi.
  destruct (load rows i) as [r|]; simpl; [|done].
  rewrite int_sub_ok by (unfold INT_MIN, INT_MAX in *; lia). simpl.
  rewrite (for_from_ext _
             (fun j m => rj ← load r j; store m (i * w + j) (u16 (rj * rj)))).
  2:{ intros j b Hj. destruct (load r j); simpl; [|done].
      rewrite int_mul_ok by (unfold INT_MIN, INT_MAX in *; nia). simpl.
      rewrite int_add_ok by (unfold INT_MIN, INT_MAX in *; nia). done. }
  destruct (for_from 0 _ _ a); simpl; [|done].
  rewrite int_add_ok by (unfold INT_MIN, INT_MAX in *; nia). simpl.
  rewrite int_mul_ok by (unfold INT_MIN, INT_MAX in *; nia). done.
Qed.

(** On a frame of at least one pixel across whose grid has an [int] number
    of cells, the checked [initmotion_int] and [initmotion] are the same
    function. *)
Lemma initmotion_int_agrees junk (st : state) width_px height_px mf
    sens thr ws :
  1 <= width_px <= INT_MAX - 15 -> 0 <= height_px <= INT_MAX - 15 ->
  (width_mb width_px + 1) * height_mb height_px <= INT_MAX ->
  initmotion_int junk st width_px height_px mf sens thr ws
  = initmotion junk st width_px height_px mf sens thr ws.
Proof.
  intros Hw Hh Hn.
  destruct (grid_dims width_px height_px) as (Hc & Hr & _); [lia|lia|].
  unfold width_mb, height_mb in *.
  assert ((width_px + 15) ÷ 16 < 134217728).
  { apply Z.quot_lt_upper_bound; unfold INT_MAX in *; lia. }
  unfold initmotion_int, initmotion.
  rewrite (int_add_ok height_px) by (unfold INT_MIN, INT_MAX in *; lia).
  simpl.
  rewrite (int_add_ok width_px) by (unfold INT_MIN, INT_MAX in *; lia).
  simpl.
  rewrite (int_add_ok ((width_px + 15) ÷ 16))
    by (unfold INT_MIN, INT_MAX in *; lia).
  simpl.
  rewrite (int_add_ok ((width_px + 15) ÷ 16 + 1))
    by (unfold INT_MIN, INT_MAX in *; lia).
  simpl. destruct mf as [[| |ct rows]|]; simpl; try done.
  - rewrite readmap_rows_int_agrees by (lia || nia). done.
  - destruct (int_mul sens sens); simpl; [|done].
    rewrite fill_uniform_int_agrees by (lia || nia). done.
Qed.

(** ** The claims *)

(** C1, as stated, fails: the quarter that the raw count is compared with
    is taken of [mctx.width * mctx.height], the sentinel column included,
    not of the [width_mb * height_mb] macroblocks.  On a 64x64 pixel frame
    (16 macroblocks, 20 cells) the raw count 5 exceeds [16 / 4] and is
    stored as it is, not as the threshold 1. *)
Lemma clamp_not_at_macroblocks :
  initmotion (fun _ => 0) boot 64 64 None 10 1 12 = Some (0, grid_4x4) /\
  ~ clamps_at_macroblocks grid_4x4 64 64 5.
Proof.
  split; [vm_compute; reflexivity|].
  intros (o & st' & Hrun & Hslot).
  vm_compute in Hrun. injection Hrun as <- <-.
  vm_compute in Hslot. discriminate.
Qed.

(** C1, as the code has it.  One call of [ma_filter] on a ring of
    [window_size >= 12] slots with the cursor on one of them: the raw count
    becomes [threshold] when it exceeds a quarter of [width * height], the
    number of cells of the map grid with its sentinel column; the running
    sum gains the new count capped at [4 * threshold] and loses the equally
    capped content [old] of the slot under the cursor; the noise floor is
    the sum divided by [window_size]; the count is stored under the cursor,
    which advances modulo [window_size]; the trend is the truncated average
    of the 12 samples that end at the slot just written; the value returned
    is [max (trend - noise_floor) 0]; nothing else of the state changes. *)
Theorem ma_filter_observe (st : state) (raw : Z) :
  12 <= window_size st -> filter_ok st ->
  exists old o st',
    filter_window st !! Z.to_nat (ma_i st) = Some old /\
    ma_filter st raw = Some (o, st') /\
    let thr := threshold st in
    let t := if raw >? (width st * height st) ÷ 4 then thr else raw in
    let sum' := ma_sum st + Z.min t (4 * thr) - Z.min old (4 * thr) in
    let fw' := <[Z.to_nat (ma_i st) := t]> (filter_window st) in
    filter_window st' = fw' /\
    ma_i st' = (ma_i st + 1) mod window_size st /\
    ma_sum st' = sum' /\
    ma_nf o = sum' ÷ window_size st /\
    ma_trend o = recent_sum fw' (ma_i st) 12 ÷ 12 /\
    ma_ret o = Z.max (ma_trend o - ma_nf o) 0 /\
    config st' = config st /\ vectors st' = vectors st /\
    flags st' = flags st /\ fnum st' = fnum st /\
    events st' = events st /\ threads st' = threads st.
Proof.
  intros Hws Hok.
  destruct (ma_filter_eq st raw Hws Hok) as (old & Hold & Heq).
  cbv zeta in Heq. exists old. eexists _, _.
  split; [exact Hold|]. split; [exact Heq|].
  cbv zeta. cbn [set_filter filter_window ma_i ma_sum ma_nf ma_trend ma_ret
                 config width height map threshold window_size vectors
                 flags fnum events threads].
  repeat split; reflexivity.
Qed.

Lemma ma_filter_observe_witness :
  exists o st',
    ma_filter warm_4x4 6 = Some (o, st') /\
    filter_window st' = [1; 5; 5; 5; 5; 5; 5; 5; 5; 5; 5; 5] /\
    ma_i st' = 1 /\ ma_sum st' = 45 /\
    ma_nf o = 3 /\ ma_trend o = 4 /\ ma_ret o = 1.
Proof.
  assert (12 <= window_size warm_4x4) as Hws by (vm_compute; discriminate).
  assert (filter_ok warm_4x4) as Hok
    by (repeat split; vm_compute; congruence).
  destruct (ma_filter_observe warm_4x4 6 Hws Hok)
    as (old & o & st' & Hold & Hrun & Hfw & Hi & Hsum & Hnf & Htr & Hret & _).
  vm_compute in Hold. injection Hold as <-.
  exists o, st'. split; [exact Hrun|].
  rewrite Hret, Htr, Hnf, Hfw, Hi, Hsum.
  repeat split; vm_compute; reflexivity.
Defined.







(** C4.  What [initmotion] makes of a uniform sensitivity on a frame of at
    least one pixel each way: every cell of a row but its last one holds
    [min (sens * sens) 65535]; the last cell of each row, the sentinel, is
    never written and holds what [malloc] left there; the 65535 written
    after each row lands on the first cell of the next row, which the next
    row overwrites, so that only the one after the last row survives. *)
Theorem uniform_map_cells junk (st : state) width_px height_px sens thr ws :
  1 <= width_px -> 1 <= height_px -> sens * sens <= INT_MAX ->
  let rows := height_mb height_px in
  let cols := width_mb width_px + 1 in
  exists st',
    initmotion junk st width_px height_px None sens thr ws = Some (0, st') /\
    width st' = cols /\ height st' = rows /\
    (forall y x, 0 <= y < rows -> 0 <= x < cols - 1 ->
       load (map st') (y * cols + x) = Some (Z.min (sens * sens) 65535)) /\
    (forall y, 0 <= y < rows ->
       load (map st') (y * cols + (cols - 1))
       = Some (u16 (junk (Z.to_nat (y * cols + (cols - 1)))))) /\
    load (map st') (rows * cols) = Some 65535.
Proof.
  intros Hw Hh Hs rows cols.
  destruct (grid_dims width_px height_px Hw) as (Hc & _ & Hr); [lia|].
  specialize (Hr Hh). fold rows cols in Hc, Hr.
  destruct (initmotion_uniform junk st width_px height_px sens thr ws)
    as (st' & Hinit & Hwd & Hht & _ & _ & Hcells); [done|lia|done|].
  fold rows cols in Hwd, Hht, Hcells.
  exists st'. split; [done|]. split; [done|]. split; [done|].
  repeat split.
  - intros y x Hy Hx. rewrite Hcells by nia. unfold grid_after.
    destruct (Z.ltb_spec (y * cols + x) (rows * cols)); [|nia].
    destruct (row_div_mod cols y (y * cols + x)) as [_ ->]; [lia|lia|].
    destruct (Z.ltb_spec (y * cols + x - y * cols) (cols - 1)); [done|lia].
  - intros y Hy. rewrite Hcells by nia. unfold grid_after.
    destruct (Z.ltb_spec (y * cols + (cols - 1)) (rows * cols)); [|nia].
    destruct (row_div_mod cols y (y * cols + (cols - 1))) as [_ ->];
      [lia|lia|].
    destruct (Z.ltb_spec (y * cols + (cols - 1) - y * cols) (cols - 1));
      [lia|].
    apply load_malloc_u16. nia.
  - rewrite Hcells by nia. unfold grid_after.
    destruct (Z.ltb_spec (rows * cols) (rows * cols)); [lia|].
    destruct (Z.eqb_spec (rows * cols) (rows * cols)); [|lia].
    destruct (Z.ltb_spec 0 rows); [done|lia].
Qed.

Lemma uniform_map_cells_witness :
  exists st',
    initmotion (fun _ => 0) boot 16 16 None 10 1 12 = Some (0, st') /\
    width st' = 2 /\ height st' = 1 /\
    (forall y x, 0 <= y < 1 -> 0 <= x < 2 - 1 ->
       load (map st') (y * 2 + x) = Some (Z.min (10 * 10) 65535)) /\
    (forall y, 0 <= y < 1 ->
       load (map st') (y * 2 + (2 - 1)) = Some (u16 0)) /\
    load (map st') (1 * 2) = Some 65535.
Proof.
  apply (uniform_map_cells (fun _ => 0) boot 16 16 10 1 12).
  - lia.
  - lia.
  - vm_compute. discriminate.
Defined.

(** C5, as stated, fails: a 32x32 pixel frame has 2 by 2 macroblocks, the
    indices below 4 hold no moved cell of the frame [spike_row1], and the
    count is 1, for the cell of index 4. *)
Lemma count_beyond_macroblocks :
  initmotion (fun _ => 0) boot 32 32 None 10 1 12 = Some (0, grid_2x2) /\
  width_mb 32 * height_mb 32 = 4 /\
  ~ counts_macroblocks_only grid_2x2 32 32 spike_row1.
Proof.
  split; [vm_compute; reflexivity|]. split; [reflexivity|].
  unfold counts_macroblocks_only. vm_compute. discriminate.
Qed.

(** C5, as the code has it.  After [initmotion] on a frame of
    [width_mb] by [height_mb] macroblocks, [lookformotion] counts over the
    indices below [(width_mb + 1) * height_mb]: every cell of the map grid,
    the last cell of each row included.  The count, which is what the frame
    hands to [ma_filter], is the number of those indices whose squared
    magnitude is strictly above the map value; on a map value of 100 the
    vector (10, 0) does not count and (11, 0) does. *)
Theorem count_scans_whole_grid junk (st0 : state) width_px height_px
    sens thr ws (v : list motvec) :
  1 <= width_px -> 0 <= height_px -> sens * sens <= INT_MAX ->
  (width_mb width_px + 1) * height_mb height_px <= Z.of_nat (length v) ->
  let n := (width_mb width_px + 1) * height_mb height_px in
  exists st,
    initmotion junk st0 width_px height_px None sens thr ws = Some (0, st) /\
    width st * height st = n /\
    count_moved (map st) v (width st * height st)
    = Some (Z.of_nat (length (moved_cells (map st) v n))) /\
    lookformotion st v
    = ('(o, st') ← ma_filter st (Z.of_nat (length (moved_cells (map st) v n)));
       let st' := set_fnum st' (fnum st + 1) in
       Some (if ma_ret o >=? threshold st
             then call_eventcb st' (ma_ret o) movement else st')) /\
    (forall i, In i (moved_cells (map st) v n) <->
       0 <= i < n /\
       exists mi vi, load (map st) i = Some mi /\ load v i = Some vi /\
                     mi < magnitude_sq vi) /\
    (forall i s, load (map st) i = Some 100 ->
       (load v i = Some (MotVec 10 0 s) -> exceeds (map st) v i = false) /\
       (load v i = Some (MotVec 11 0 s) -> exceeds (map st) v i = true)).
Proof.
  intros Hw Hh Hs Hv n.
  destruct (initmotion_uniform junk st0 width_px height_px sens thr ws)
    as (st & Hinit & Hwd & Hht & _ & Hlen & _); [done..|].
  destruct (grid_dims width_px height_px Hw Hh) as (Hc & Hr & _).
  exists st. split; [done|].
  assert (width st * height st = n) as Hn by (rewrite Hwd, Hht; done).
  split; [done|].
  assert (count_moved (map st) v (width st * height st)
          = Some (Z.of_nat (length (moved_cells (map st) v n)))) as Hcount.
  { rewrite Hn. apply count_moved_eq; [|done]. rewrite Hlen. subst n. nia. }
  split; [done|]. split; [by apply lookformotion_eq|].
  split; [intros i; apply moved_cells_In|].
  intros i s Hm. unfold exceeds. rewrite Hm. by split; intros ->.
Qed.

Lemma count_scans_whole_grid_witness :
  count_moved (map grid_2x2) nudge_1 (width grid_2x2 * height grid_2x2)
  = Some 0 /\
  count_moved (map grid_2x2) spike_1 (width grid_2x2 * height grid_2x2)
  = Some 1.
Proof.
  split.
  - destruct (count_scans_whole_grid (fun _ => 0) boot 32 32 10 1 12 nudge_1)
      as (st & Hinit & _ & Hcount & _);
      [lia|lia|vm_compute; discriminate|vm_compute; discriminate|].
    vm_compute in Hinit. injection Hinit as <-.
    vm_compute in Hcount. vm_compute. exact Hcount.
  - destruct (count_scans_whole_grid (fun _ => 0) boot 32 32 10 1 12 spike_1)
      as (st & Hinit & _ & Hcount & _);
      [lia|lia|vm_compute; discriminate|vm_compute; discriminate|].
    vm_compute in Hinit. injection Hinit as <-.
    vm_compute in Hcount. vm_compute. exact Hcount.
Defined.

(** C6.  [findmotion] on frame A and then on frame B with no take of the
    thread in between, from any state of the handoff: the slot holds the
    copy of B, the copy of A has been given to [av_free] exactly once and
    the copy of B never.  When the thread was inside [pthread_cond_wait],
    its take returns B and its pass frees B once.  When the thread was in
    a pass, [motionstart] waits without looking at the slot, the signals
    were lost and no take is possible: the pass ends, the thread waits with
    B in the slot, and the next [findmotion] frees B, which no take has
    returned, and wakes the thread for the frame after it. *)
Theorem handoff_two_publishes (sys : system) (A B : list motvec) :
  handoff_inv sys ->
  let pA : ptr := next_ptr sys in
  let pB : ptr := S (next_ptr sys) in
  exists s1 s2,
    findmotion A sys = Some s1 /\ findmotion B s1 = Some s2 /\
    vectors (det s2) = Some pB /\ heap s2 !! pB = Some B /\
    heap s2 !! pA = None /\
    count_occ Nat.eq_dec (freed s2) pA = 1%nat /\
    count_occ Nat.eq_dec (freed s2) pB = 0%nat /\
    (worker sys = Waiting \/ worker sys = Woken ->
     exists s3,
       motionstart_take s2 = Some (Some pB, s3) /\
       vectors (det s3) = None /\ heap s3 !! pB = Some B /\
       forall d, lookformotion (det s3) B = Some d ->
         exists s4,
           motionstart_pass s3 = Some s4 /\ det s4 = d /\
           vectors (det s4) = None /\ heap s4 !! pB = None /\
           count_occ Nat.eq_dec (freed s4) pA = 1%nat /\
           count_occ Nat.eq_dec (freed s4) pB = 1%nat /\
           worker s4 = Waiting /\ motionstart_take s4 = None) /\
    (forall tv, worker sys = Busy tv ->
     motionstart_take s2 = None /\
     forall s3, motionstart_pass s2 = Some s3 ->
       worker s3 = Waiting /\ vectors (det s3) = Some pB /\
       heap s3 !! pB = Some B /\
       count_occ Nat.eq_dec (freed s3) pB = 0%nat /\
       motionstart_take s3 = None /\
       forall C, exists s4 s5,
         findmotion C s3 = Some s4 /\ heap s4 !! pB = None /\
         count_occ Nat.eq_dec (freed s4) pB = 1%nat /\
         vectors (det s4) = Some (S pB) /\ heap s4 !! S pB = Some C /\
         motionstart_take s4 = Some (Some (S pB), s5)).
Proof.
  intros Hinv pA pB.
  destruct (publish_twice sys A B (handoff_inv_heap_ok _ Hinv))
    as (s1 & s2 & Hf1 & Hf2 & _ & Hn2 & Hd2 & Hh2 & HhA & Hfr2 & HnA & HnB
        & HcA & HcB & Hw2).
  fold pA pB in Hn2, Hd2, Hh2, HhA, Hfr2, HnA, HnB, HcA, HcB.
  assert (~ In pB (freed s2)) as HnB2.
  { rewrite Hfr2. intros Hin. apply in_app_or in Hin as [Hin|[Hin|[]]];
      [done|]. subst pA pB. lia. }
  assert (handoff_inv s2) as Hinv2.
  { destruct (findmotion_inv A sys Hinv) as (x1 & Hx1 & Hi1).
    rewrite Hf1 in Hx1. injection Hx1 as <-.
    destruct (findmotion_inv B s1 Hi1) as (x2 & Hx2 & Hi2).
    rewrite Hf2 in Hx2. by injection Hx2 as <-. }
  exists s1, s2. split; [done|]. split; [done|]. split; [done|].
  split; [done|]. split; [done|]. split; [done|]. split; [done|]. split.
  - intros Hw. apply (publish_twice_waiting sys s2 B); try done.
    rewrite Hw2. by destruct Hw as [-> | ->].
  - intros tv Hw. apply (publish_twice_busy sys s2 B tv); try done.
    by rewrite Hw2, Hw.
Qed.

Lemma handoff_two_publishes_witness :
  exists s1 s2 s3,
    findmotion spike_1 busy_2x2 = Some s1 /\
    findmotion nudge_1 s1 = Some s2 /\
    vectors (det s2) = Some 2%nat /\ motionstart_take s2 = None /\
    motionstart_pass s2 = Some s3 /\
    worker s3 = Waiting /\ vectors (det s3) = Some 2%nat /\
    motionstart_take s3 = None /\
    exists s4 s5,
      findmotion spike_1 s3 = Some s4 /\ heap s4 !! 2%nat = None /\
      count_occ Nat.eq_dec (freed s4) 2%nat = 1%nat /\
      motionstart_take s4 = Some (Some 3%nat, s5).
Proof.
  assert (handoff_inv busy_2x2) as Hinv.
  { apply (hrun_inv [Publish nudge_1; Take] idle_2x2 busy_2x2).
    - apply (handoff_inv_idle grid_2x2). reflexivity.
    - vm_compute. reflexivity. }
  destruct (handoff_two_publishes busy_2x2 spike_1 nudge_1 Hinv)
    as (s1 & s2 & H1 & H2 & H3 & _ & _ & _ & _ & _ & Hbusy).
  destruct (Hbusy (Some 0%nat) eq_refl) as (Htake & Hpass).
  destruct (motionstart_pass s2) as [s3|] eqn:E3.
  2:{ exfalso. vm_compute in H1. injection H1 as <-.
      vm_compute in H2. injection H2 as <-. vm_compute in E3. discriminate. }
  destruct (Hpass s3 eq_refl) as (Hw3 & Hd3 & _ & _ & Ht3 & Hnext).
  destruct (Hnext spike_1) as (s4 & s5 & H4 & Hh4 & Hc4 & _ & _ & Ht4).
  exists s1, s2, s3. repeat (split; [done|]).
  by exists s4, s5.
Defined.

(** C7, as stated, fails: a window of 5 slots is accepted. *)
Lemma small_window_not_rejected :
  ~ rejects_window (fun _ => 0) boot 32 32 10 1 5.
Proof.
  intros (rc & st' & Hinit & Hrc & _).
  vm_compute in Hinit. injection Hinit as <- _. done.
Qed.

(** C7, as the code has it.  [initmotion] does not look at the window size:
    whatever it is, with a uniform sensitivity whose square fits an [int]
    and a frame at least one pixel wide, the call returns 0, records the
    window size, allocates a zeroed ring of that many slots and creates the
    worker thread. *)
Theorem initmotion_accepts_any_window junk (st : state)
    width_px height_px sens thr ws :
  1 <= width_px -> 0 <= height_px -> sens * sens <= INT_MAX ->
  exists st',
    initmotion junk st width_px height_px None sens thr ws = Some (0, st') /\
    window_size st' = ws /\
    filter_window st' = replicate (Z.to_nat ws) 0 /\
    threads st' = S (threads st).
Proof.
  intros Hw Hh Hs.
  destruct (initmotion_uniform junk st width_px height_px sens thr ws)
    as (st' & Hinit & _ & _ & Hth & _); [done..|].
  destruct (initmotion_filter _ _ _ _ _ _ _ _ _ _ Hinit)
    as (_ & Hws & Hfw & _).
  by exists st'.
Qed.

Lemma initmotion_accepts_any_window_witness :
  exists st',
    initmotion (fun _ => 0) boot 32 32 None 10 1 5 = Some (0, st') /\
    window_size st' = 5 /\
    filter_window st' = replicate (Z.to_nat 5) 0 /\
    threads st' = S (threads boot).
Proof.
  apply (initmotion_accepts_any_window (fun _ => 0) boot 32 32 10 1 5).
  - lia.
  - lia.
  - vm_compute. discriminate.
Defined.

(** C8, as stated, fails: the 2x2 grid reads 2 rows of 2 bytes, and an
    image of 5 rows and 7 columns is accepted for it, by [readmap] and by
    [initmotion]. *)
Lemma mismatch_not_rejected :
  ~ rejects_mismatch grid_2x2 PNG_COLOR_TYPE_GRAY image_5x7 /\
  exists st,
    initmotion (fun _ => 0) boot 32 32
      (Some (Png PNG_COLOR_TYPE_GRAY image_5x7)) 10 1 12 = Some (0, st) /\
    threads st = 1%nat.
Proof.
  split.
  - intros H. destruct H as (rc & st' & Hrun & Hrc).
    + intros [Hlen _]. vm_compute in Hlen. discriminate.
    + vm_compute in Hrun. injection Hrun as <- _. done.
  - eexists. split; [vm_compute; reflexivity|reflexivity].
Qed.

(** C8, as the code has it.  [readmap] returns -1 for a file that cannot be
    opened and for one without the PNG signature.  It checks neither the
    colour type nor the dimensions of the decoded image: every image that
    has a byte for each cell read (the first [width - 1] bytes of the first
    [height] rows) is accepted with 0, and the squares of those bytes become
    the map values of the cells. *)
Theorem readmap_accepts_covering (st : state) (ct : Z) (rows : list (list Z)) :
  2 <= width st ->
  (width st + 1) * height st <= Z.of_nat (length (map st)) ->
  image_covers rows (width st) (height st) ->
  readmap Unreadable st = Some (-1, st) /\
  readmap NotPng st = Some (-1, st) /\
  exists m,
    readmap (Png ct rows) st = Some (0, set_map st m) /\
    length m = length (map st) /\
    forall i j, 0 <= i < height st -> 0 <= j < width st - 1 ->
      load m (i * width st + j) = Some (pixel_sq rows i j).
Proof.
  intros Hw Hfit Hcov. split; [done|]. split; [done|].
  destruct (readmap_rows_cells (width st) (height st) rows (map st))
    as (m & Hrun & Hlen & Hcells); [done..|].
  exists m. simpl. rewrite Hrun. split; [done|]. split; [done|].
  intros i j Hi Hj. rewrite Hcells by nia. unfold grid_after.
  destruct (Z.ltb_spec (i * width st + j) (Z.max (height st) 0 * width st));
    [|nia].
  destruct (row_div_mod (width st) i (i * width st + j)) as [-> ->];
    [lia|lia|].
  destruct (Z.ltb_spec (i * width st + j - i * width st) (width st - 1));
    [|lia].
  do 2 f_equal. lia.
Qed.

Lemma readmap_accepts_covering_witness :
  readmap Unreadable grid_2x2 = Some (-1, grid_2x2) /\
  readmap NotPng grid_2x2 = Some (-1, grid_2x2) /\
  exists m,
    readmap (Png PNG_COLOR_TYPE_RGB image_5x7) grid_2x2
      = Some (0, set_map grid_2x2 m) /\
    length m = length (map grid_2x2) /\
    forall i j, 0 <= i < height grid_2x2 -> 0 <= j < width grid_2x2 - 1 ->
      load m (i * width grid_2x2 + j) = Some (pixel_sq image_5x7 i j).
Proof.
  apply (readmap_accepts_covering grid_2x2 PNG_COLOR_TYPE_RGB image_5x7).
  - vm_compute. discriminate.
  - vm_compute. discriminate.
  - intros i j Hi Hj. change (height grid_2x2) with 2 in Hi.
    change (width grid_2x2 - 1) with 2 in Hj.
    assert (i = 0 \/ i = 1) as [-> | ->] by lia;
      (assert (j = 0 \/ j = 1) as [-> | ->] by lia); vm_compute; eauto.
Defined.




(** C10, as stated, fails twice.  A second [initmotion] with the same
    threshold and window size zeroes the ring and keeps the running sum of
    the 5 calls before it, and the next call leaves the sum at 5 above the
    capped sum of the ring.  From program start with the threshold -1, the
    zeroed slots count as -4 each and the sum is 0 where the capped sum is
    -48. *)
Lemma stale_sum_breaks_invariant :
  initmotion (fun _ => 0) used_w12 32 32 None 10 1 12 = Some (0, reinit_w12) /\
  ~ sum_is_capped_sum reinit_w12 [1] /\
  initmotion (fun _ => 0) boot 32 32 None 10 (-1) 12
  = Some (0, grid_2x2_neg) /\
  ~ sum_is_capped_sum grid_2x2_neg [0].
Proof.
  split; [vm_compute; reflexivity|]. split; [|split].
  - intros H.
    destruct (feed reinit_w12 [1]) as [st'|] eqn:E;
      [|vm_compute in E; discriminate].
    destruct (H st' E) as [Hs _].
    vm_compute in E. injection E as <-. vm_compute in Hs. discriminate.
  - vm_compute. reflexivity.
  - intros H.
    destruct (feed grid_2x2_neg [0]) as [st'|] eqn:E;
      [|vm_compute in E; discriminate].
    destruct (H st' E) as [Hs _].
    vm_compute in E. injection E as <-. vm_compute in Hs. discriminate.
Qed.

(** C10, as the code has it.  On a ring of [window_size >= 12] slots with
    the cursor on one of them, every call of [ma_filter], whatever calls
    [raws] came before it, keeps the cursor inside the ring and keeps the
    difference between the running sum and the sum over all ring slots of
    the slot value capped at [4 * threshold]; the noise floor of the call
    is the capped sum plus that difference, divided by [window_size].  The
    running sum is the capped sum after every call exactly when it was so
    before the first one, which holds for the state that the first
    [initmotion] of the program sets up with a threshold that is not
    negative. *)
Theorem filter_sum_invariant (st0 : state) (raws : list Z) (raw : Z) :
  12 <= window_size st0 -> filter_ok st0 ->
  exists st1 o st2,
    feed st0 raws = Some st1 /\ ma_filter st1 raw = Some (o, st2) /\
    threshold st2 = threshold st0 /\ window_size st2 = window_size st0 /\
    length (filter_window st2) = Z.to_nat (window_size st0) /\
    0 <= ma_i st2 < window_size st0 /\
    ma_sum st2 - capped_sum st2 = ma_sum st0 - capped_sum st0 /\
    ma_nf o = (capped_sum st2 + (ma_sum st0 - capped_sum st0))
              ÷ window_size st0 /\
    (ma_sum st2 = capped_sum st2 <-> ma_sum st0 = capped_sum st0) /\
    (forall junk w h mf sens thr ws rc,
       initmotion junk boot w h mf sens thr ws = Some (rc, st0) ->
       0 <= thr ->
       ma_sum st2 = capped_sum st2 /\
       ma_nf o = capped_sum st2 ÷ window_size st0).
Proof.
  intros Hws Hok.
  destruct (feed_hist st0 raws) as (st1 & Hfeed & Hc1 & Hok1 & Hs1 & _);
    [lia|done|].
  apply config_fields in Hc1 as (_ & _ & _ & Ht1 & Hw1).
  destruct (ma_filter_step st1 raw)
    as (o & st2 & Hcall & _ & _ & Hc2 & Hok2 & _ & Hs2 & _ & Hnf & _);
    [lia|done|].
  apply config_fields in Hc2 as (_ & _ & _ & Ht2 & Hw2).
  exists st1, o, st2. destruct Hok2 as (_ & Hlen & Hi).
  assert (ma_nf o = (capped_sum st2 + (ma_sum st0 - capped_sum st0))
                    ÷ window_size st0) as Hfloor.
  { rewrite Hnf, Hw1. f_equal. lia. }
  split; [done|]. split; [done|]. split; [congruence|].
  split; [congruence|]. split; [congruence|]. split; [lia|].
  split; [lia|]. split; [done|]. split; [lia|].
  intros junk w h mf sens thr ws rc Hinit Hthr.
  destruct (initmotion_filter _ _ _ _ _ _ _ _ _ _ Hinit) as (_ & Hw & _).
  destruct (initmotion_filter_ok _ _ _ _ _ _ _ _ _ Hinit Hthr)
    as (_ & Hsum & _); [lia|].
  split; [lia|]. rewrite Hfloor. f_equal. lia.
Qed.

Lemma filter_sum_invariant_witness :
  exists st1 o st2,
    feed reinit_w12 [1; 0; 7] = Some st1 /\
    ma_filter st1 3 = Some (o, st2) /\
    0 <= ma_i st2 < 12 /\
    ma_sum st2 - capped_sum st2 = 5 /\
    ma_nf o = (capped_sum st2 + 5) ÷ 12 /\
    ma_sum st2 <> capped_sum st2.
Proof.
  assert (12 <= window_size reinit_w12) as Hws by (vm_compute; discriminate).
  assert (filter_ok reinit_w12) as Hok.
  { split; [reflexivity|]. split; [reflexivity|].
    split; [vm_compute; discriminate|reflexivity]. }
  destruct (filter_sum_invariant reinit_w12 [1; 0; 7] 3 Hws Hok)
    as (st1 & o & st2 & Hf & Hc & _ & _ & _ & Hi & Hd & Hnf & Hiff & _).
  exists st1, o, st2. split; [done|]. split; [done|].
  split; [exact Hi|]. split; [exact Hd|]. split; [exact Hnf|].
  intros Heq. apply Hiff in Heq. vm_compute in Heq. discriminate.
Defined.

(** ** Further properties *)

(** *** The window that [ma_filter] needs *)

Lemma head_sum_Some_iff (fw : list Z) ws i :
  ws = Z.of_nat (length fw) -> 0 <= i < ws ->
  is_Some (head_sum fw ws i) <-> 11 <= ws + i.
Proof.
  intros Hl Hi. split.
  - intros [s Hs]. unfold head_sum, for_lt in Hs.
    destruct (for_from_Some _ _ _ _ _ Hs 11) as (a & x & Hx);
      [change (Z.to_nat 12) with 12%nat; lia|].
    simpl in Hx. unfold load in Hx at 1.
    destruct (Z.ltb_spec (i - 11) 0) as [Hneg|Hpos]; [|lia].
    destruct (Z.ltb_spec (ws + i - 11) 0); [done|lia].
  - intros Hge. unfold head_sum, for_lt. change (Z.to_nat 12) with 12%nat.
    rewrite (for_from_add
               (fun j => load fw (if i - j <? 0 then ws + i - j else i - j))
               (fun j => default 0
                  (load fw (if i - j <? 0 then ws + i - j else i - j))));
      [done|].
    intros k Hk. set (q := if i - k <? 0 then _ else _).
    assert (0 <= q < ws) as Hq
      by (subst q; destruct (Z.ltb_spec (i - k) 0); lia).
    rewrite load_lookup by lia.
    destruct (lookup_lt_is_Some_2 fw (Z.to_nat q)) as [x ->]; [lia|done].
Qed.

(** On a ring whose cursor is in range, [ma_filter] returns exactly when
    the 12 reads behind the cursor stay inside the ring. *)
Lemma ma_filter_Some_iff (st : state) (raw : Z) :
  filter_ok st ->
  is_Some (ma_filter st raw) <-> 11 <= window_size st + ma_i st.
Proof.
  intros Hok. destruct (filter_ok_slot st Hok) as [old Hold].
  destruct Hok as (Hpos & Hlen & Hi).
  unfold ma_filter. rewrite load_lookup by lia. rewrite Hold. simpl.
  unfold int_div. destruct (Z.eqb_spec (window_size st) 0); [lia|]. simpl.
  rewrite store_insert by lia. simpl.
  rewrite <- (head_sum_Some_iff
                (<[Z.to_nat (ma_i st) := if raw >? (width st * height st) ÷ 4
                                         then threshold st else raw]>
                   (filter_window st)) (window_size st) (ma_i st));
    [|rewrite length_insert; lia|done].
  destruct (head_sum _ _ _); simpl; split; intros [x Hx]; try done; eauto.
Qed.

(** X1.  On a ring of [window_size] slots with the cursor on slot [i],
    [ma_filter] stays inside the ring exactly when [window_size + i] is at
    least 11: a ring of 11 slots or more always serves, a smaller one fails
    on its first slots. *)
Theorem ma_filter_needs_eleven (st : state) (raw : Z) :
  filter_ok st ->
  is_Some (ma_filter st raw) <-> 11 <= window_size st + ma_i st.
Proof. exact (ma_filter_Some_iff st raw). Qed.

Lemma ma_filter_needs_eleven_witness :
  (is_Some (ma_filter grid_2x2_w11 3) <->
   11 <= window_size grid_2x2_w11 + ma_i grid_2x2_w11) /\
  (is_Some (ma_filter grid_2x2_w5 3) <->
   11 <= window_size grid_2x2_w5 + ma_i grid_2x2_w5).
Proof.
  split.
  - apply (ma_filter_needs_eleven grid_2x2_w11 3).
    repeat split; vm_compute; congruence.
  - apply (ma_filter_needs_eleven grid_2x2_w5 3).
    repeat split; vm_compute; congruence.
Defined.

Lemma lookformotion_None_of_filter (st : state) (v : list motvec) :
  (forall raw, ma_filter st raw = None) -> lookformotion st v = None.
Proof.
  intros H. unfold lookformotion.
  destruct (count_moved _ _ _) as [c|]; simpl; [|done].
  destruct (dumppng st v) as [st1|] eqn:E; simpl; [|done].
  unfold dumppng in E. destruct (_ && _); [done|]. injection E as <-.
  unfold filter_and_fire. rewrite ma_filter_fnum, H. done.
Qed.

(** X2.  After the first [initmotion] of the program with a window size
    below 11 (zero and negative sizes included), [lookformotion] fails on
    every frame: the ring has no slot, or the 12 reads behind the cursor
    leave it. *)
Theorem small_window_fails_first_frame junk width_px height_px mf
    sens thr ws rc (st : state) (v : list motvec) :
  initmotion junk boot width_px height_px mf sens thr ws = Some (rc, st) ->
  ws < 11 ->
  lookformotion st v = None.
Proof.
  intros Hinit Hws.
  destruct (initmotion_filter _ _ _ _ _ _ _ _ _ _ Hinit)
    as (_ & Hw & Hfw & Hi & _).
  simpl in Hi. apply lookformotion_None_of_filter. intros raw.
  destruct (Z.le_gt_cases ws 0) as [Hle|Hgt].
  - unfold ma_filter. rewrite Hfw, Hi.
    replace (Z.to_nat ws) with 0%nat by lia. done.
  - assert (filter_ok st) as Hok.
    { repeat split; try lia. rewrite Hfw, length_replicate. lia. }
    destruct (ma_filter st raw) eqn:E; [|done].
    assert (is_Some (ma_filter st raw)) as Hs by (rewrite E; eauto).
    apply ma_filter_Some_iff in Hs; [lia|done].
Qed.

Lemma small_window_fails_first_frame_witness :
  lookformotion grid_2x2_w5 spike_1 = None.
Proof.
  apply (small_window_fails_first_frame (fun _ => 0) 32 32 None 10 1 5 0).
  - vm_compute. reflexivity.
  - lia.
Defined.

(** *** Calling [initmotion] again *)

(** X3.  [initmotion] clears [mctx] and not the cursor of [ma_filter]: when
    the cursor that an earlier run left is not a slot of the new ring,
    [ma_filter] reads outside the ring and [lookformotion] fails on every
    frame. *)
Theorem reinit_stale_cursor junk (st0 : state) width_px height_px mf
    sens thr ws rc (st : state) (raw : Z) (v : list motvec) :
  initmotion junk st0 width_px height_px mf sens thr ws = Some (rc, st) ->
  ws <= ma_i st0 ->
  ma_i st = ma_i st0 /\ ma_filter st raw = None /\ lookformotion st v = None.
Proof.
  intros Hinit Hws.
  destruct (initmotion_filter _ _ _ _ _ _ _ _ _ _ Hinit)
    as (_ & Hw & Hfw & Hi & _).
  assert (forall r, ma_filter st r = None) as Hnone.
  { intros r. unfold ma_filter. rewrite Hfw, Hi. unfold load.
    destruct (Z.ltb_spec (ma_i st0) 0); [done|].
    rewrite lookup_ge_None_2 by (rewrite length_replicate; lia). done. }
  split; [done|]. split; [done|]. by apply lookformotion_None_of_filter.
Qed.

Lemma reinit_stale_cursor_witness :
  exists st,
    initmotion (fun _ => 0) used_w24 32 32 None 10 1 12 = Some (0, st) /\
    ma_i st = 20 /\ ma_filter st 1 = None /\ lookformotion st spike_1 = None.
Proof.
  eexists. split; [vm_compute; reflexivity|].
  apply (reinit_stale_cursor (fun _ => 0) used_w24 32 32 None 10 1 12 0).
  - vm_compute. reflexivity.
  - vm_compute. discriminate.
Defined.

(** X4.  [initmotion] does not clear the running sum of [ma_filter] either:
    after a second [initmotion] (threshold not negative, at least 12 slots,
    the old cursor a slot of the new ring) the running sum stays, after
    every run of calls, above the capped sum of the ring by the sum that
    the earlier run left, and the noise floor with it. *)
Theorem reinit_stale_sum junk (st0 : state) width_px height_px mf
    sens thr ws rc (st : state) (raws : list Z) (raw : Z) :
  initmotion junk st0 width_px height_px mf sens thr ws = Some (rc, st) ->
  0 <= thr -> 12 <= ws -> 0 <= ma_i st0 < ws ->
  exists st1 o st2,
    feed st raws = Some st1 /\ ma_filter st1 raw = Some (o, st2) /\
    ma_sum st2 = capped_sum st2 + ma_sum st0 /\
    ma_nf o = (capped_sum st2 + ma_sum st0) ÷ ws.
Proof.
  intros Hinit Hthr Hws Hi0.
  destruct (initmotion_filter _ _ _ _ _ _ _ _ _ _ Hinit)
    as (Ht & Hw & Hfw & Hi & Hs & _).
  assert (filter_ok st) as Hok.
  { repeat split; try lia. rewrite Hfw, length_replicate. lia. }
  assert (capped_sum st = 0) as Hcap.
  { unfold capped_sum. rewrite Hfw, zsum_map_replicate. lia. }
  destruct (feed_hist st raws) as (st1 & Hfeed & Hc1 & Hok1 & Hs1 & _);
    [lia|done|].
  apply config_fields in Hc1 as (_ & _ & _ & _ & Hw1).
  destruct (ma_filter_step st1 raw)
    as (o & st2 & Hcall & _ & _ & _ & _ & _ & Hs2 & _ & Hnf & _);
    [lia|done|].
  exists st1, o, st2. split; [done|]. split; [done|].
  assert (ma_sum st2 = capped_sum st2 + ma_sum st0) as Hsum by lia.
  split; [done|]. rewrite Hnf, Hsum. congruence.
Qed.

Lemma reinit_stale_sum_witness :
  ma_sum used_w12 = 5 /\
  exists st1 o st2,
    feed reinit_w12 [0; 0] = Some st1 /\ ma_filter st1 0 = Some (o, st2) /\
    ma_sum st2 = capped_sum st2 + ma_sum used_w12 /\
    ma_nf o = (capped_sum st2 + ma_sum used_w12) ÷ 12.
Proof.
  split; [reflexivity|].
  apply (reinit_stale_sum (fun _ => 0) used_w12 32 32 None 10 1 12 0).
  - vm_compute. reflexivity.
  - lia.
  - lia.
  - vm_compute. split; [discriminate|reflexivity].
Defined.

(** *** What a frame does to the detector *)

Lemma ma_filter_frame (st : state) (raw : Z) o st' :
  ma_filter st raw = Some (o, st') ->
  config st' = config st /\ events st' = events st /\ fnum st' = fnum st /\
  threads st' = threads st /\
  length (filter_window st') = length (filter_window st) /\
  0 <= ma_ret o.
Proof.
  unfold ma_filter. destruct (load _ _); simpl; [|done].
  destruct (int_div _ _) as [nf|]; simpl; [|done].
  destruct (store _ _ _) as [fw|] eqn:Hst; simpl; [|done].
  destruct (head_sum _ _ _) as [s|]; simpl; [|done].
  intros [= <- <-]. apply store_Some in Hst as [_ ->]. simpl.
  rewrite length_insert. repeat split; try done.
  destruct (Z.gtb_spec (s ÷ 12) nf); lia.
Qed.

(** The state after a frame, whatever the state before it. *)
Lemma lookformotion_fired (st : state) (v : list motvec) st' :
  lookformotion st v = Some st' ->
  config st' = config st /\ vectors st' = vectors st /\
  threads st' = threads st /\
  length (filter_window st') = length (filter_window st) /\
  fnum st' = fnum st + 1 /\
  exists o, 0 <= ma_ret o /\ events st' = events st ++ fired (threshold st) o.
Proof.
  intros H. pose proof (lookformotion_vectors _ _ _ H) as Hv.
  revert H. unfold lookformotion.
  destruct (count_moved _ _ _) as [c|]; simpl; [|done].
  unfold dumppng. destruct (_ && _); simpl; [done|].
  unfold filter_and_fire. rewrite ma_filter_fnum.
  destruct (ma_filter st c) as [[o st1]|] eqn:E; simpl; [|done].
  destruct (ma_filter_frame _ _ _ _ E) as (Hc & He & Hf & Ht & Hl & Hr).
  destruct (config_fields _ _ Hc) as (_ & _ & _ & Hth & _).
  rewrite Hth. unfold fired.
  destruct (ma_ret o >=? threshold st) eqn:Hge; intros [= <-]; simpl;
    (repeat split; try done); exists o; rewrite Hge, He;
    (split; [done|]); [done|by rewrite app_nil_r].
Qed.

(** X5.  A frame that [lookformotion] processes leaves the grid, the map,
    the threshold, the window size, the slot and the length of the ring as
    they are, advances the frame number of the dump by one, and appends at
    most one call to the event log: a call of kind [movement] whose value
    is neither negative nor below the threshold. *)
Theorem lookformotion_effects (st : state) (v : list motvec) st' :
  lookformotion st v = Some st' ->
  config st' = config st /\ vectors st' = vectors st /\
  threads st' = threads st /\
  length (filter_window st') = length (filter_window st) /\
  fnum st' = fnum st + 1 /\
  (events st' = events st \/
   exists x, events st' = events st ++ [(x, movement)] /\
             threshold st <= x /\ 0 <= x).
Proof.
  intros H.
  destruct (lookformotion_fired _ _ _ H)
    as (Hc & Hv & Ht & Hl & Hf & o & Hr & He).
  do 5 (split; [done|]). unfold fired in He.
  destruct (Z.geb_spec (ma_ret o) (threshold st)).
  - right. exists (ma_ret o). split; [done|]. lia.
  - left. by rewrite app_nil_r in He.
Qed.

Lemma lookformotion_effects_witness :
  exists st',
    lookformotion grid_7x7 spike_12 = Some st' /\
    config st' = config grid_7x7 /\ fnum st' = fnum grid_7x7 + 1 /\
    (events st' = events grid_7x7 \/
     exists x, events st' = events grid_7x7 ++ [(x, movement)] /\
               threshold grid_7x7 <= x /\ 0 <= x).
Proof.
  destruct (lookformotion grid_7x7 spike_12) as [st'|] eqn:Hrun;
    [|vm_compute in Hrun; discriminate].
  destruct (lookformotion_effects grid_7x7 spike_12 st' Hrun)
    as (Hc & _ & _ & _ & Hf & He).
  exists st'. split; [reflexivity|]. split; [done|]. split; done.
Defined.

Lemma lookformotion_all_fired (vs : list (list motvec)) :
  forall (st st' : state),
  threshold st <= 0 -> lookformotion_all st vs = Some st' ->
  exists xs,
    length xs = length vs /\ Forall (fun x => 0 <= x) xs /\
    events st' = events st ++ List.map (fun x => (x, movement)) xs.
Proof.
  induction vs as [|v vs IH]; intros st st' Hthr Hrun; simpl in Hrun.
  - injection Hrun as <-. exists []. by rewrite app_nil_r.
  - destruct (lookformotion st v) as [st1|] eqn:E; simpl in Hrun; [|done].
    destruct (lookformotion_fired _ _ _ E)
      as (Hc & _ & _ & _ & _ & o & Hr & He).
    destruct (config_fields _ _ Hc) as (_ & _ & _ & Hth & _).
    destruct (IH st1 st') as (xs & Hl & Hall & Hev); [lia|done|].
    exists (ma_ret o :: xs). split; [simpl; lia|]. split; [by constructor|].
    rewrite Hev, He. unfold fired.
    destruct (Z.geb_spec (ma_ret o) (threshold st)); [|lia].
    by rewrite <- app_assoc.
Qed.

(** A frame that the checked [lookformotion] completes is one that
    [lookformotion] completes, with the same detector; libpng accepted the
    header, the row buffers were filled, and a callback that was made went
    through a pointer that is not null. *)
Lemma lookformotion_full_sound junk (p p' : process) (v : list motvec) :
  lookformotion_full junk p v = Some p' ->
  lookformotion (ctx p) v = Some (ctx p') /\ eventcb p' = eventcb p /\
  png_ihdr_ok (width (ctx p) - 1) (height (ctx p)) = true /\
  dumppng_rows junk (ctx p) (png_rows p) v = Some (png_rows p') /\
  (events (ctx p') <> events (ctx p) -> eventcb p = true).
Proof.
  unfold lookformotion_full, lookformotion. intros H.
  destruct (int_mul (width (ctx p)) (height (ctx p))) as [n|] eqn:E1;
    simpl in H; [|done].
  apply int_mul_Some in E1 as ->.
  destruct (count_moved _ v _) as [t|] eqn:E2; simpl in *; [|done].
  unfold dumppng_full in H.
  destruct (dumppng_rows junk (ctx p) (png_rows p) v) as [rows|] eqn:E3;
    simpl in H; [|done].
  destruct (png_ihdr_ok _ _) eqn:E4; [|done].
  destruct (int_add (fnum (ctx p)) 1) as [f1|] eqn:E5; simpl in H; [|done].
  apply int_add_Some in E5 as ->. cbn [ctx eventcb png_rows] in H.
  destruct (ma_filter_int _ t) as [[o st]|] eqn:E6; simpl in H; [|done].
  assert (dumppng (ctx p) v
          = Some (set_fnum (ctx p) (fnum (ctx p) + 1))) as ->.
  { unfold dumppng. destruct (_ && _) eqn:E; [|done]. exfalso.
    apply andb_true_iff in E as [E Hlt]. apply andb_true_iff in E as [Hh Hw].
    apply Z.ltb_lt in Hlt, Hh, Hw.
    pose proof (count_moved_length _ _ _ _ E2). nia. }
  simpl. unfold filter_and_fire. rewrite (ma_filter_int_sound _ _ _ E6).
  simpl.
  pose proof (ma_filter_frame _ _ _ _ (ma_filter_int_sound _ _ _ E6))
    as (_ & Hev & _).
  simpl in Hev.
  destruct (ma_ret o >=? threshold st).
  - destruct (eventcb p) eqn:Ecb; [|done]. injection H as <-. simpl.
    repeat split; done.
  - injection H as <-. simpl. repeat split; done.
Qed.

Lemma lookformotion_full_all_sound junk (vs : list (list motvec)) :
  forall p p' : process,
  lookformotion_full_all junk p vs = Some p' ->
  lookformotion_all (ctx p) vs = Some (ctx p') /\ eventcb p' = eventcb p.
Proof.
  induction vs as [|v vs IH]; intros p p' H; simpl in H.
  - by injection H as <-.
  - destruct (lookformotion_full junk p v) as [p1|] eqn:E; [|done].
    simpl in H. apply lookformotion_full_sound in E as (E & Hcb & _).
    destruct (IH _ _ H) as [Hrun Hcb']. simpl. rewrite E. simpl.
    split; [done|congruence].
Qed.

Lemma lookformotion_full_all_fired junk (p p' : process)
    (vs : list (list motvec)) :
  threshold (ctx p) <= 0 -> lookformotion_full_all junk p vs = Some p' ->
  (vs <> [] -> eventcb p = true) /\
  exists xs,
    length xs = length vs /\ Forall (fun x => 0 <= x) xs /\
    events (ctx p')
    = events (ctx p) ++ List.map (fun x => (x, movement)) xs.
Proof.
  intros Hthr Hrun. split.
  - destruct vs as [|v vs]; [done|]. intros _. simpl in Hrun.
    destruct (lookformotion_full junk p v) as [p1|] eqn:E; [|done].
    apply lookformotion_full_sound in E as (E & _ & _ & _ & Hcb).
    apply Hcb.
    destruct (lookformotion_fired _ _ _ E)
      as (_ & _ & _ & _ & _ & o & Hret & Hev).
    rewrite Hev. unfold fired.
    destruct (Z.geb_spec (ma_ret o) (threshold (ctx p))); [|lia].
    intros Heq. apply (f_equal length) in Heq.
    rewrite length_app in Heq. simpl in Heq. lia.
  - apply lookformotion_full_all_sound in Hrun as [Hrun _].
    by apply (lookformotion_all_fired vs (ctx p) (ctx p')).
Qed.

(** X6.  With a threshold that is not positive, every frame that the
    program processes to its end calls the event callback exactly once,
    with a value that is not negative: a run over [n] frames appends [n]
    calls, made through a callback pointer that is not null. *)
Theorem zero_threshold_fires_every_frame junk (p p' : process)
    (vs : list (list motvec)) :
  threshold (ctx p) <= 0 -> lookformotion_full_all junk p vs = Some p' ->
  (vs <> [] -> eventcb p = true) /\
  exists xs,
    length xs = length vs /\ Forall (fun x => 0 <= x) xs /\
    events (ctx p')
    = events (ctx p) ++ List.map (fun x => (x, movement)) xs.
Proof. exact (lookformotion_full_all_fired junk p p' vs). Qed.

Lemma zero_threshold_fires_every_frame_witness :
  exists p' xs,
    lookformotion_full_all (fun _ _ => 0) proc_2x2_t0
      [nudge_1; spike_1; still 6] = Some p' /\
    length xs = 3%nat /\ Forall (fun x => 0 <= x) xs /\
    events (ctx p')
    = events (ctx proc_2x2_t0) ++ List.map (fun x => (x, movement)) xs.
Proof.
  destruct (lookformotion_full_all (fun _ _ => 0) proc_2x2_t0
              [nudge_1; spike_1; still 6]) as [p'|] eqn:Hrun;
    [|vm_compute in Hrun; discriminate].
  destruct (zero_threshold_fires_every_frame (fun _ _ => 0) proc_2x2_t0 p'
              [nudge_1; spike_1; still 6])
    as (_ & xs & H); [vm_compute; discriminate|exact Hrun|].
  exists p', xs. split; [reflexivity|exact H].
Defined.

(** *** The bounds of the counting loop *)

Lemma count_moved_map_length (m : list Z) (v : list motvec) (n c : Z) :
  count_moved m v n = Some c -> 0 < n -> n <= Z.of_nat (length m).
Proof.
  unfold count_moved, for_lt. intros H Hn.
  destruct (for_from_Some _ _ _ _ _ H (n - 1)) as (a & x & Hx); [lia|].
  destruct (load m (n - 1)) as [mi|] eqn:E; simpl in Hx; [|done].
  rewrite load_lookup in E by lia. apply lookup_lt_Some in E. lia.
Qed.

Lemma length_zrange lo n : length (zrange lo n) = n.
Proof.
  revert lo. induction n as [|n IH]; intros lo; simpl; [done|]. by rewrite IH.
Qed.

(** X7.  On a grid of [n > 0] cells the counting loop of [lookformotion]
    returns exactly when the map and the frame have [n] entries, and its
    count then lies between 0 and [n]; a frame with fewer vectors than the
    grid has cells makes [lookformotion] read outside the frame. *)
Theorem count_moved_bounds (st : state) (v : list motvec) :
  0 < width st * height st ->
  let n := width st * height st in
  (is_Some (count_moved (map st) v n) <->
   n <= Z.of_nat (length (map st)) /\ n <= Z.of_nat (length v)) /\
  (forall c, count_moved (map st) v n = Some c -> 0 <= c <= n) /\
  (Z.of_nat (length v) < n -> lookformotion st v = None).
Proof.
  intros Hn n. split; [|split].
  - split.
    + intros [c Hc]. split.
      * by eapply count_moved_map_length.
      * by eapply count_moved_length.
    + intros [Hm Hv]. rewrite count_moved_eq by done. eauto.
  - intros c Hc.
    pose proof (count_moved_map_length _ _ _ _ Hc Hn).
    pose proof (count_moved_length _ _ _ _ Hc Hn).
    rewrite count_moved_eq in Hc by done. injection Hc as <-.
    unfold moved_cells.
    pose proof (filter_length_le (exceeds (map st) v) (zrange 0 (Z.to_nat n)))
      as Hle.
    rewrite length_zrange in Hle. lia.
  - intros Hshort. unfold lookformotion. fold n.
    destruct (count_moved (map st) v n) as [c|] eqn:E; [|done].
    apply count_moved_length in E; lia.
Qed.

Lemma count_moved_bounds_witness :
  (is_Some (count_moved (map grid_2x2) (still 4) 6) <->
   6 <= Z.of_nat (length (map grid_2x2)) /\
   6 <= Z.of_nat (length (still 4))) /\
  (forall c, count_moved (map grid_2x2) (still 4) 6 = Some c -> 0 <= c <= 6) /\
  (Z.of_nat (length (still 4)) < 6 ->
   lookformotion grid_2x2 (still 4) = None).
Proof.
  apply (count_moved_bounds grid_2x2 (still 4)). reflexivity.
Defined.

(** *** The filter as a function of the counts it was given *)

Lemma zsum_zrange_shift (g : Z -> Z) lo n :
  zsum (List.map (fun d => g (d - 1)) (zrange (lo + 1) n))
  = zsum (List.map g (zrange lo n)).
Proof.
  revert lo. induction n as [|n IH]; intros lo; simpl; [done|].
  rewrite IH. f_equal. f_equal. lia.
Qed.

Lemma zsum_zrange_snoc (g : Z -> Z) lo n :
  zsum (List.map g (zrange lo (S n)))
  = zsum (List.map g (zrange lo n)) + g (lo + Z.of_nat n).
Proof.
  revert lo. induction n as [|n IH]; intros lo.
  - cbn [zrange List.map zsum]. change (Z.of_nat 0) with 0.
    rewrite (Z.add_0_r lo). lia.
  - change (zrange lo (S (S n))) with (lo :: zrange (lo + 1) (S n)).
    cbn [List.map zsum]. rewrite IH.
    change (zrange lo (S n)) with (lo :: zrange (lo + 1) n).
    cbn [List.map zsum].
    replace (lo + 1 + Z.of_nat n) with (lo + Z.of_nat (S n)) by lia. lia.
Qed.

Lemma capped_history_step (st : state) raw o st' :
  0 < window_size st -> filter_step st raw o st' ->
  ma_sum st' - capped_history st' = ma_sum st - capped_history st.
Proof.
  intros Hws (Hc & _ & Hh & _ & Hs & _).
  destruct (config_fields _ _ Hc) as (_ & _ & _ & Hth & Hw).
  unfold capped_history. rewrite Hth, Hw.
  destruct (Z.to_nat (window_size st)) as [|m] eqn:Hm; [lia|].
  rewrite (zsum_zrange_snoc (fun d => Z.min (hist st d) (4 * threshold st))).
  change (zrange 0 (S m)) with (0 :: zrange (0 + 1) m).
  cbn [List.map zsum]. rewrite (Hh 0) by lia.
  change (0 =? 0) with true. cbv iota.
  rewrite (zsum_map_ext _
    (fun d => (fun e => Z.min (hist st e) (4 * threshold st)) (d - 1))).
  - rewrite (zsum_zrange_shift
               (fun e => Z.min (hist st e) (4 * threshold st))), Hs.
    replace (0 + Z.of_nat m) with (window_size st - 1) by lia. lia.
  - intros d Hd. apply elem_of_zrange in Hd. rewrite Hh by lia.
    destruct (Z.eqb_spec d 0); [lia|done].
Qed.

Lemma feed_capped_history (raws : list Z) :
  forall st st' : state,
  12 <= window_size st -> filter_ok st -> feed st raws = Some st' ->
  ma_sum st' - capped_history st' = ma_sum st - capped_history st.
Proof.
  induction raws as [|t raws IH]; intros st st' Hws Hok Hrun; simpl in Hrun.
  - by injection Hrun as <-.
  - destruct (ma_filter_step st t Hws Hok)
      as (o & st1 & Hcall & _ & _ & Hstep).
    rewrite Hcall in Hrun. simpl in Hrun.
    pose proof (capped_history_step st t o st1 ltac:(lia) Hstep) as H1.
    destruct Hstep as (Hc & Hok1 & _).
    destruct (config_fields _ _ Hc) as (_ & _ & _ & _ & Hw).
    rewrite (IH st1 st') by (try done; lia). done.
Qed.

(** The outputs of a call, from the counts given since [initmotion]. *)
Lemma filter_history junk width_px height_px mf sens thr ws (st0 : state)
    (raws : list Z) (raw : Z) :
  initmotion junk boot width_px height_px mf sens thr ws = Some (0, st0) ->
  0 <= thr -> 12 <= ws ->
  exists st1 o st2,
    feed st0 raws = Some st1 /\ ma_filter st1 raw = Some (o, st2) /\
    let hd := history st0 (raws ++ [raw]) in
    ma_trend o = zsum (List.map hd (zrange 0 12)) ÷ 12 /\
    ma_nf o = zsum (List.map (fun d => Z.min (hd d) (4 * thr))
                      (zrange 0 (Z.to_nat ws))) ÷ ws /\
    ma_ret o = Z.max (ma_trend o - ma_nf o) 0.
Proof.
  intros Hinit Hthr Hws.
  destruct (initmotion_filter_ok _ _ _ _ _ _ _ _ _ Hinit Hthr)
    as (Hok & _ & Hs0 & Hh0); [lia|].
  destruct (initmotion_filter _ _ _ _ _ _ _ _ _ _ Hinit) as (Ht & Hw & _).
  destruct (feed_hist st0 raws) as (st1 & Hfeed & Hc1 & Hok1 & _ & Hh1);
    [lia|done|].
  destruct (config_fields _ _ Hc1) as (_ & _ & _ & Ht1 & Hw1).
  destruct (ma_filter_step st1 raw)
    as (o & st2 & Hcall & _ & _ & Hstep); [lia|done|].
  pose proof (capped_history_step st1 raw o st2 ltac:(lia) Hstep) as Hcs.
  pose proof (feed_capped_history raws st0 st1 ltac:(lia) Hok Hfeed) as Hcf.
  destruct Hstep as (Hc2 & Hok2 & Hh2 & _ & _ & Hnf & Htr & Hret).
  destruct (config_fields _ _ Hc2) as (_ & _ & _ & Ht2 & Hw2).
  assert (capped_history st0 = 0) as Hz.
  { unfold capped_history.
    rewrite (zsum_map_ext _ (fun d => if d =? -1 then 0 else 0)).
    - rewrite zsum_delta. by destruct (_ && _).
    - intros d _. rewrite Hh0. destruct (d =? -1); lia. }
  assert (forall d, 0 <= d < ws ->
            hist st2 d = history st0 (raws ++ [raw]) d) as Hh.
  { intros d Hd. rewrite Hh2 by lia. unfold history.
    rewrite reverse_app. simpl.
    destruct (Z.eqb_spec d 0) as [->|Hne].
    - simpl. by apply clamp_count_config.
    - replace (Z.to_nat d) with (S (Z.to_nat (d - 1))) by lia. simpl.
      rewrite Hh1 by lia.
      destruct (reverse raws !! Z.to_nat (d - 1)); [done|apply Hh0]. }
  exists st1, o, st2. split; [done|]. split; [done|]. intros hd.
  split; [|split; [|done]].
  - rewrite Htr. f_equal. apply zsum_map_ext. intros d Hd.
    apply elem_of_zrange in Hd. apply Hh. simpl in Hd. lia.
  - rewrite Hnf. assert (ma_sum st2 = capped_history st2) as -> by lia.
    unfold capped_history. rewrite Hw2, Hw1, Hw, Ht2, Ht1, Ht. f_equal.
    apply zsum_map_ext. intros d Hd. apply elem_of_zrange in Hd.
    rewrite Hh by lia. done.
Qed.

(** X8.  From the first [initmotion] of the program on (threshold not
    negative, at least 12 slots), the outputs of a call of [ma_filter]
    are a function of the raw counts given so far, and of the last
    [window_size] of them only: the trend is the truncated average of the
    12 newest clamped counts, the noise floor is the sum of the
    [window_size] newest clamped counts, each capped at [4 * threshold],
    divided by [window_size] (counts not yet given standing for 0), and
    the value returned is [max (trend - noise_floor) 0]. *)
Theorem filter_closed_form junk width_px height_px mf sens thr ws
    (st0 : state) (raws : list Z) (raw : Z) :
  initmotion junk boot width_px height_px mf sens thr ws = Some (0, st0) ->
  0 <= thr -> 12 <= ws ->
  exists st1 o st2,
    feed st0 raws = Some st1 /\ ma_filter st1 raw = Some (o, st2) /\
    let hd := history st0 (raws ++ [raw]) in
    ma_trend o = zsum (List.map hd (zrange 0 12)) ÷ 12 /\
    ma_nf o = zsum (List.map (fun d => Z.min (hd d) (4 * thr))
                      (zrange 0 (Z.to_nat ws))) ÷ ws /\
    ma_ret o = Z.max (ma_trend o - ma_nf o) 0.
Proof.
  exact (filter_history junk width_px height_px mf sens thr ws st0 raws raw).
Qed.

Lemma filter_closed_form_witness :
  exists st1 o st2,
    feed grid_4x4 [5; 0; 3] = Some st1 /\ ma_filter st1 4 = Some (o, st2) /\
    let hd := history grid_4x4 ([5; 0; 3] ++ [4]) in
    ma_trend o = zsum (List.map hd (zrange 0 12)) ÷ 12 /\
    ma_nf o = zsum (List.map (fun d => Z.min (hd d) (4 * 1))
                      (zrange 0 (Z.to_nat 12))) ÷ 12 /\
    ma_ret o = Z.max (ma_trend o - ma_nf o) 0.
Proof.
  apply (filter_closed_form (fun _ => 0) 64 64 None 10 1 12 grid_4x4).
  - vm_compute. reflexivity.
  - lia.
  - lia.
Defined.

Lemma zsum_map_bounds (f : Z -> Z) (l : list Z) (a b : Z) :
  (forall x, x ∈ l -> a <= f x <= b) ->
  Z.of_nat (length l) * a <= zsum (List.map f l) <= Z.of_nat (length l) * b.
Proof.
  induction l as [|x l IH]; intros H; [simpl; lia|].
  pose proof (H x ltac:(left)).
  destruct IH; [intros y Hy; apply H; by right|].
  cbn [List.map zsum length]. lia.
Qed.

Lemma history_bounds (st0 : state) (raws : list Z) (M d : Z) :
  0 <= threshold st0 <= M -> Forall (fun r => 0 <= r <= M) raws ->
  0 <= history st0 raws d <= M.
Proof.
  intros Hthr Hall. unfold history.
  destruct (reverse raws !! Z.to_nat d) as [r|] eqn:E; [|lia].
  assert (r ∈ raws) as Hin
    by (apply elem_of_reverse; by eapply list_elem_of_lookup_2).
  pose proof (proj1 (Forall_forall _ _) Hall r Hin) as Hr.
  cbv beta in Hr. unfold clamp_count. destruct (_ >? _); lia.
Qed.

(** X9.  From the first [initmotion] of the program on (threshold not
    negative, at least 12 slots), when every raw count given so far lies
    between 0 and [M], and the threshold too: the trend and the value that
    [ma_filter] returns lie between 0 and [M], and the noise floor between
    0 and the smaller of [M] and [4 * threshold].  The filter never
    reports more than it was given. *)
Theorem filter_output_bounded junk width_px height_px mf sens thr ws
    (st0 : state) (raws : list Z) (raw M : Z) :
  initmotion junk boot width_px height_px mf sens thr ws = Some (0, st0) ->
  0 <= thr <= M -> 12 <= ws ->
  Forall (fun r => 0 <= r <= M) (raws ++ [raw]) ->
  exists st1 o st2,
    feed st0 raws = Some st1 /\ ma_filter st1 raw = Some (o, st2) /\
    0 <= ma_trend o <= M /\
    0 <= ma_nf o <= Z.min M (4 * thr) /\
    0 <= ma_ret o <= M.
Proof.
  intros Hinit Hthr Hws Hall.
  destruct (filter_history junk width_px height_px mf sens thr ws
              st0 raws raw Hinit) as (st1 & o & st2 & Hf & Hc & H);
    [lia|done|].
  destruct (initmotion_filter _ _ _ _ _ _ _ _ _ _ Hinit) as (Ht & _).
  cbv zeta in H. destruct H as (Htr & Hnf & Hret).
  exists st1, o, st2. split; [done|]. split; [done|].
  assert (forall d, 0 <= history st0 (raws ++ [raw]) d <= M) as Hb
    by (intros d; apply history_bounds; [lia|done]).
  assert (0 <= ma_trend o <= M) as Htb.
  { rewrite Htr.
    pose proof (zsum_map_bounds (history st0 (raws ++ [raw])) (zrange 0 12)
                  0 M ltac:(intros; apply Hb)) as Hs.
    rewrite length_zrange in Hs. split.
    - apply Z.quot_pos; lia.
    - apply Z.quot_le_upper_bound; lia. }
  assert (0 <= ma_nf o <= Z.min M (4 * thr)) as Hnb.
  { rewrite Hnf.
    pose proof (zsum_map_bounds
                  (fun d => Z.min (history st0 (raws ++ [raw]) d) (4 * thr))
                  (zrange 0 (Z.to_nat ws)) 0 (Z.min M (4 * thr))) as Hs.
    rewrite length_zrange in Hs. destruct Hs as [Hlo Hhi].
    { intros d _. specialize (Hb d). lia. }
    split.
    - apply Z.quot_pos; lia.
    - apply Z.quot_le_upper_bound; lia. }
  split; [done|]. split; [done|]. lia.
Qed.

Lemma filter_output_bounded_witness :
  exists st1 o st2,
    feed grid_4x4 [5; 0; 3] = Some st1 /\ ma_filter st1 4 = Some (o, st2) /\
    0 <= ma_trend o <= 5 /\
    0 <= ma_nf o <= Z.min 5 (4 * 1) /\
    0 <= ma_ret o <= 5.
Proof.
  apply (filter_output_bounded (fun _ => 0) 64 64 None 10 1 12 grid_4x4).
  - vm_compute. reflexivity.
  - lia.
  - lia.
  - repeat constructor; lia.
Defined.

(** *** The map file *)

Lemma readmap_rows_covers (w h : Z) (rows : list (list Z)) (m0 m' : list Z) :
  readmap_rows w h rows m0 = Some m' -> image_covers rows w h.
Proof.
  unfold readmap_rows, for_lt. intros H i j Hi Hj.
  destruct (for_from_Some _ _ _ _ _ H i) as (a & x & Hx); [lia|].
  unfold pixel. destruct (load rows i) as [r|]; simpl in *; [|done].
  destruct (for_from 0 (Z.to_nat (w - 1)) _ a) as [b|] eqn:E;
    simpl in Hx; [|done].
  destruct (for_from_Some _ _ _ _ _ E j) as (c & y & Hy); [lia|].
  destruct (load r j); simpl in Hy; done.
Qed.

(** X10.  On a grid of at least two columns whose map block has
    [(width + 1) * height] cells, [readmap] on a decoded image stays inside
    the image exactly when the image has a byte for each cell read, the
    first [width - 1] bytes of the first [height] rows: on a smaller image
    it reads past the end of a row or of the row table. *)
Theorem readmap_defined_iff (st : state) (ct : Z) (rows : list (list Z)) :
  2 <= width st ->
  (width st + 1) * height st <= Z.of_nat (length (map st)) ->
  is_Some (readmap (Png ct rows) st) <->
  image_covers rows (width st) (height st).
Proof.
  intros Hw Hfit. split.
  - intros [[rc st'] H]. simpl in H.
    destruct (readmap_rows _ _ _ _) as [m|] eqn:E; [|done].
    by eapply readmap_rows_covers.
  - intros Hcov.
    destruct (readmap_rows_cells (width st) (height st) rows (map st))
      as (m & Hrun & _); [done..|].
    simpl. by rewrite Hrun.
Qed.

Lemma readmap_defined_iff_witness :
  is_Some (readmap (Png PNG_COLOR_TYPE_GRAY image_5x7) grid_4x4) <->
  image_covers image_5x7 (width grid_4x4) (height grid_4x4).
Proof.
  apply (readmap_defined_iff grid_4x4 PNG_COLOR_TYPE_GRAY image_5x7).
  - simpl. lia.
  - vm_compute. discriminate.
Defined.

Lemma initmotion_mapfile junk (st : state) width_px height_px ct rows
    sens thr ws :
  1 <= width_px -> 0 <= height_px ->
  let nr := height_mb height_px in
  let cols := width_mb width_px + 1 in
  image_covers rows cols nr ->
  exists st',
    initmotion junk st width_px height_px (Some (Png ct rows)) sens thr ws
    = Some (0, st') /\
    width st' = cols /\ height st' = nr /\
    threads st' = S (threads st) /\
    Z.of_nat (length (map st')) = (cols + 1) * nr /\
    forall k, 0 <= k ->
      load (map st') k
      = grid_after cols (pixel_sq rows)
          (malloc_u16 junk ((cols + 1) * nr)) nr k.
Proof.
  intros Hw Hh nr cols Hcov.
  destruct (grid_dims width_px height_px Hw Hh) as (Hc & Hr & _).
  fold nr cols in Hc, Hr.
  destruct (readmap_rows_cells cols nr rows
              (malloc_u16 junk ((cols + 1) * nr)))
    as (m & Hrun & Hlen & Hcells); [done| |done|].
  { rewrite length_malloc_u16. nia. }
  eexists. split.
  - unfold initmotion, readmap. cbn [width height map].
    fold (height_mb height_px) (width_mb width_px). fold nr cols.
    rewrite Hrun. simpl. reflexivity.
  - cbn [spawn_thread set_map width height map threads].
    split; [done|]. split; [done|]. split; [done|]. split.
    + rewrite Hlen, length_malloc_u16. nia.
    + intros k Hk. rewrite Hcells by done. f_equal. lia.
Qed.

(** X11.  [initmotion] with a map file that decodes to an image covering
    the grid (frame of at least one pixel each way) returns 0 and starts
    the thread, whatever [sens] is.  Every cell of a row but its last one
    holds the square of its pixel.  The last cell of each row is never
    written and holds what [malloc] left there: the 65535 that [readmap]
    writes after each row lands on the first cell of the next row, which
    the next row overwrites, so that only the one after the last row
    survives. *)
Theorem mapfile_map_cells junk (st : state) width_px height_px ct rows
    sens thr ws :
  1 <= width_px -> 1 <= height_px ->
  let nr := height_mb height_px in
  let cols := width_mb width_px + 1 in
  image_covers rows cols nr ->
  exists st',
    initmotion junk st width_px height_px (Some (Png ct rows)) sens thr ws
    = Some (0, st') /\
    width st' = cols /\ height st' = nr /\
    threads st' = S (threads st) /\
    (forall y x, 0 <= y < nr -> 0 <= x < cols - 1 ->
       load (map st') (y * cols + x) = Some (pixel_sq rows y x)) /\
    (forall y, 0 <= y < nr ->
       load (map st') (y * cols + (cols - 1))
       = Some (u16 (junk (Z.to_nat (y * cols + (cols - 1)))))) /\
    load (map st') (nr * cols) = Some 65535.
Proof.
  intros Hw Hh nr cols Hcov.
  destruct (grid_dims width_px height_px Hw) as (Hc & _ & Hr); [lia|].
  specialize (Hr Hh). fold nr cols in Hc, Hr.
  destruct (initmotion_mapfile junk st width_px height_px ct rows
              sens thr ws Hw) as (st' & Hrun & Hwd & Hht & Hth & Hlen & Hcells);
    [lia|done|].
  fold nr cols in Hwd, Hht, Hlen, Hcells.
  exists st'. split; [done|]. split; [done|]. split; [done|].
  split; [done|]. split; [|split].
  - intros y x Hy Hx. rewrite Hcells by nia. unfold grid_after.
    destruct (Z.ltb_spec (y * cols + x) (nr * cols)); [|nia].
    destruct (row_div_mod cols y (y * cols + x)) as [-> ->]; [lia|lia|].
    destruct (Z.ltb_spec (y * cols + x - y * cols) (cols - 1)); [|lia].
    do 2 f_equal. lia.
  - intros y Hy. rewrite Hcells by nia. unfold grid_after.
    destruct (Z.ltb_spec (y * cols + (cols - 1)) (nr * cols)); [|nia].
    destruct (row_div_mod cols y (y * cols + (cols - 1))) as [_ ->];
      [lia|lia|].
    destruct (Z.ltb_spec (y * cols + (cols - 1) - y * cols) (cols - 1));
      [lia|].
    apply load_malloc_u16. nia.
  - rewrite Hcells by nia. unfold grid_after.
    rewrite Z.ltb_irrefl, Z.eqb_refl.
    destruct (Z.ltb_spec 0 nr); [done|lia].
Qed.

Lemma mapfile_map_cells_witness :
  exists st',
    initmotion (fun _ => 7) boot 64 64
      (Some (Png PNG_COLOR_TYPE_GRAY image_5x7)) 10 1 12
    = Some (0, st') /\
    width st' = 5 /\ height st' = 4 /\
    threads st' = 1%nat /\
    (forall y x, 0 <= y < 4 -> 0 <= x < 5 - 1 ->
       load (map st') (y * 5 + x) = Some (pixel_sq image_5x7 y x)) /\
    (forall y, 0 <= y < 4 ->
       load (map st') (y * 5 + (5 - 1))
       = Some (u16 ((fun _ : nat => 7) (Z.to_nat (y * 5 + (5 - 1)))))) /\
    load (map st') (4 * 5) = Some 65535.
Proof.
  apply (mapfile_map_cells (fun _ => 7) boot 64 64 PNG_COLOR_TYPE_GRAY
           image_5x7 10 1 12); [lia|lia|].
  intros i j Hi Hj.
  change (height_mb 64) with 4 in Hi. change (width_mb 64 + 1 - 1) with 4 in Hj.
  assert (i = 0 \/ i = 1 \/ i = 2 \/ i = 3) as Hi' by lia.
  assert (j = 0 \/ j = 1 \/ j = 2 \/ j = 3) as Hj' by lia.
  destruct Hi' as [->|[->|[->| ->]]], Hj' as [->|[->|[->| ->]]];
    vm_compute; eauto.
Defined.

(** X12.  [initmotion] with a map file that cannot be opened, or that has
    no PNG signature, returns -1 and starts no thread, but only after it
    has replaced the context: the grid, the threshold and the window are
    the new ones, the slot is empty, and the map is the fresh block that
    [malloc] returned, with no cell written.  A thread started by an
    earlier call goes on with that block: the counting loop of
    [lookformotion] on the next frame counts the cells whose vector exceeds
    what [malloc] left there. *)
Theorem bad_mapfile_leaves_context junk (st : state) width_px height_px mf
    sens thr ws (v : list motvec) :
  mf = Unreadable \/ mf = NotPng ->
  1 <= width_px -> 0 <= height_px ->
  let nr := height_mb height_px in
  let cols := width_mb width_px + 1 in
  cols * nr <= Z.of_nat (length v) ->
  exists st',
    initmotion junk st width_px height_px (Some mf) sens thr ws
    = Some (-1, st') /\
    threads st' = threads st /\ events st' = events st /\
    width st' = cols /\ height st' = nr /\
    threshold st' = thr /\ window_size st' = ws /\
    vectors st' = None /\
    count_moved (map st') v (cols * nr)
    = Some (Z.of_nat (length (moved_cells (map st') v (cols * nr)))) /\
    forall k, In k (moved_cells (map st') v (cols * nr)) <->
      0 <= k < cols * nr /\
      exists vi, load v k = Some vi /\
                 u16 (junk (Z.to_nat k)) < magnitude_sq vi.
Proof.
  intros Hmf Hw Hh nr cols Hv.
  destruct (grid_dims width_px height_px Hw Hh) as (Hc & Hr & _).
  fold nr cols in Hc, Hr.
  exists {| width := cols; height := nr;
            map := malloc_u16 junk ((cols + 1) * nr);
            vectors := None; threshold := thr; flags := FLAGS_MOTMONITOR;
            window_size := ws; filter_window := calloc_int ws;
            ma_i := ma_i st; ma_sum := ma_sum st; fnum := fnum st;
            events := events st; threads := threads st |}.
  cbn [width height map vectors threshold window_size events threads].
  split; [by destruct Hmf as [-> | ->]|].
  do 7 (split; [reflexivity|]). split.
  - apply count_moved_eq; [|done]. rewrite length_malloc_u16. nia.
  - intros k. rewrite moved_cells_In. split.
    + intros (Hk & mi & vi & Hm & Hvi & Hlt). split; [done|].
      rewrite load_malloc_u16 in Hm by nia. injection Hm as <-.
      by exists vi.
    + intros (Hk & vi & Hvi & Hlt). split; [done|].
      exists (u16 (junk (Z.to_nat k))), vi.
      split; [apply load_malloc_u16; nia|done].
Qed.

Lemma bad_mapfile_leaves_context_witness :
  exists st',
    initmotion (fun _ => 7) used_w12 32 32 (Some NotPng) 10 3 24
    = Some (-1, st') /\
    threads st' = threads used_w12 /\ events st' = events used_w12 /\
    width st' = width_mb 32 + 1 /\ height st' = height_mb 32 /\
    threshold st' = 3 /\ window_size st' = 24 /\
    vectors st' = None /\
    count_moved (map st') spike_1 ((width_mb 32 + 1) * height_mb 32)
    = Some (Z.of_nat (length (moved_cells (map st') spike_1
                                ((width_mb 32 + 1) * height_mb 32)))) /\
    forall k, In k (moved_cells (map st') spike_1
                      ((width_mb 32 + 1) * height_mb 32)) <->
      0 <= k < (width_mb 32 + 1) * height_mb 32 /\
      exists vi, load spike_1 k = Some vi /\
                 u16 ((fun _ : nat => 7) (Z.to_nat k)) < magnitude_sq vi.
Proof.
  apply (bad_mapfile_leaves_context (fun _ => 7) used_w12 32 32 NotPng
           10 3 24 spike_1).
  - right. reflexivity.
  - lia.
  - lia.
  - vm_compute. discriminate.
Defined.

(** *** The range of the sensitivity *)

(** X13.  On a frame of at least one pixel across whose sizes leave room
    for the [+ 15] and whose grid has an [int] number of cells, every
    index and size that [initmotion] computes for a uniform map stays in
    [int] but the square of the sensitivity, taken before the cap at 65535
    is applied: the call is free of signed overflow exactly for the
    sensitivities between -46340 and 46340. *)
Theorem initmotion_sens_range junk (st : state) width_px height_px
    sens thr ws :
  1 <= width_px <= INT_MAX - 15 -> 0 <= height_px <= INT_MAX - 15 ->
  (width_mb width_px + 1) * height_mb height_px <= INT_MAX ->
  is_Some (initmotion_int junk st width_px height_px None sens thr ws) <->
  -46340 <= sens <= 46340.
Proof.
  intros Hw Hh Hn. rewrite initmotion_int_agrees by done. split.
  - intros [x H]. unfold initmotion, int_mul, in_int in H.
    destruct (_ && _) eqn:E; [|done].
    apply andb_true_iff in E as [_ E]. apply Z.leb_le in E.
    unfold INT_MAX in E. nia.
  - intros Hs.
    destruct (initmotion_uniform junk st width_px height_px sens thr ws)
      as (st' & -> & _); [lia|lia| |done].
    unfold INT_MAX. nia.
Qed.

Lemma initmotion_sens_range_witness :
  is_Some (initmotion_int (fun _ => 0) boot 32 32 None 46341 1 12) <->
  -46340 <= 46341 <= 46340.
Proof.
  apply (initmotion_sens_range (fun _ => 0) boot 32 32 46341 1 12).
  - unfold INT_MAX. lia.
  - unfold INT_MAX. lia.
  - vm_compute. discriminate.
Defined.

(** X14.  After [initmotion] with a uniform sensitivity of 182 or more, no
    written cell of the map can be exceeded by a vector of the encoder,
    whose components are [int8_t]: a cell that the counting loop of
    [lookformotion] counts as moved is the last cell of its row, the one
    that [initmotion] never writes. *)
Theorem high_sens_counts_unwritten_only junk (st st' : state)
    width_px height_px sens thr ws (v : list motvec) (k : Z) :
  1 <= width_px -> 1 <= height_px -> 182 <= sens <= 46340 ->
  int8_frame v ->
  initmotion junk st width_px height_px None sens thr ws = Some (0, st') ->
  In k (moved_cells (map st') v (width st' * height st')) ->
  k mod width st' = width st' - 1.
Proof.
  intros Hw Hh Hs Hv Hinit Hin.
  destruct (grid_dims width_px height_px Hw) as (Hc & _ & Hr); [lia|].
  specialize (Hr Hh).
  destruct (initmotion_uniform junk st width_px height_px sens thr ws)
    as (st2 & Hrun & Hwd & Hht & _ & _ & Hcells);
    [done|lia|unfold INT_MAX; nia|].
  rewrite Hrun in Hinit. injection Hinit as <-.
  rewrite Hwd, Hht in *.
  set (cols := width_mb width_px + 1) in *.
  set (nr := height_mb height_px) in *.
  apply moved_cells_In in Hin as (Hk & mi & vi & Hm & Hvi & Hlt).
  assert (magnitude_sq vi <= 32768) as Hmag.
  { rewrite load_lookup in Hvi by lia.
    pose proof (Forall_lookup_1 _ _ _ _ Hv Hvi) as Hb. cbv beta in Hb.
    unfold magnitude_sq. nia. }
  rewrite Hcells in Hm by lia. unfold grid_after in Hm.
  destruct (Z.ltb_spec k (nr * cols)); [|lia].
  pose proof (Z.mod_pos_bound k cols ltac:(lia)).
  destruct (Z.ltb_spec (k mod cols) (cols - 1)); [|lia].
  injection Hm as <-. nia.
Qed.

Lemma high_sens_counts_unwritten_only_witness :
  int8_frame drift_6 /\
  In 2 (moved_cells (map grid_2x2_s300) drift_6
          (width grid_2x2_s300 * height grid_2x2_s300)) /\
  2 mod width grid_2x2_s300 = width grid_2x2_s300 - 1.
Proof.
  assert (int8_frame drift_6) as Hv by (repeat constructor; simpl; lia).
  assert (In 2 (moved_cells (map grid_2x2_s300) drift_6
                  (width grid_2x2_s300 * height grid_2x2_s300))) as Hin
    by (vm_compute; auto).
  split; [done|]. split; [done|].
  apply (high_sens_counts_unwritten_only (fun _ => 0) boot grid_2x2_s300
           32 32 300 1 12 drift_6 2); [lia|lia|lia|done| |done].
  vm_compute. reflexivity.
Defined.

(** *** Interleavings of the handoff *)



Lemma hstep_defined (sys : system) :
  handoff_inv sys ->
  (forall out, is_Some (hstep (Publish out) sys)) /\
  (is_Some (hstep Take sys) <-> worker sys = Woken) /\
  (forall tv, worker sys = Busy tv ->
     exists p v,
       tv = Some p /\ heap sys !! p = Some v /\
       (is_Some (hstep Pass sys) <-> is_Some (lookformotion (det sys) v))).
Proof.
  intros Hinv. split; [|split].
  - intros out. destruct (findmotion_inv out sys Hinv) as (s & Hs & _).
    simpl. by rewrite Hs.
  - simpl. unfold motionstart_take.
    destruct (worker sys); simpl; split; try done; by intros [? ?].
  - intros tv Ew.
    destruct Hinv as (Hlive & _ & _ & _ & _ & _ & Hbusy).
    destruct tv as [p|]; [|congruence].
    assert (is_Some (heap sys !! p)) as [v Hv]
      by (apply Hlive; right; unfold taken; by rewrite Ew).
    exists p, v. split; [done|]. split; [done|].
    simpl. unfold motionstart_pass. rewrite Ew, Hv. cbn.
    destruct (lookformotion (det sys) v) as [d|]; cbn.
    + unfold av_free. rewrite Hv. cbn. split; intros _; by eexists.
    + split; by intros [? ?].
Qed.

(** X16.  After every interleaving of the handoff (the thread being woken
    by [pthread_cond_signal] only), the next step never touches a dead
    buffer: [findmotion] always completes, freeing a live buffer or none;
    the thread takes the slot exactly when it has been signalled; and a
    thread in its pass holds a live buffer, so that the pass completes
    exactly when [lookformotion] on that buffer does. *)
Theorem handoff_steps_defined (es : list hevent) (sys sys' : system) :
  handoff_inv sys -> hrun es sys = Some sys' ->
  (forall out, is_Some (hstep (Publish out) sys')) /\
  (is_Some (hstep Take sys') <-> worker sys' = Woken) /\
  (forall tv, worker sys' = Busy tv ->
     exists p v,
       tv = Some p /\ heap sys' !! p = Some v /\
       (is_Some (hstep Pass sys') <-> is_Some (lookformotion (det sys') v))).
Proof.
  intros Hinv Hrun. apply hstep_defined. by eapply hrun_inv.
Qed.

Lemma handoff_steps_defined_witness :
  exists sys',
    hrun [Publish nudge_1; Take; Publish spike_1] idle_2x2 = Some sys' /\
    (forall out, is_Some (hstep (Publish out) sys')) /\
    (is_Some (hstep Take sys') <-> worker sys' = Woken) /\
    (forall tv, worker sys' = Busy tv ->
       exists p v,
         tv = Some p /\ heap sys' !! p = Some v /\
         (is_Some (hstep Pass sys') <->
          is_Some (lookformotion (det sys') v))).
Proof.
  destruct (hrun [Publish nudge_1; Take; Publish spike_1] idle_2x2)
    as [sys'|] eqn:Hrun; [|vm_compute in Hrun; discriminate].
  exists sys'. split; [reflexivity|].
  apply (handoff_steps_defined [Publish nudge_1; Take; Publish spike_1]
           idle_2x2 sys'); [|exact Hrun].
  apply (handoff_inv_idle grid_2x2). reflexivity.
Defined.

(** X17.  A frame that [findmotion] publishes while the detection thread
    is in its pass is not detected on: [pthread_cond_signal] finds no
    waiter and is lost, the frame stays in the slot, and when the pass
    ends the thread waits again with the slot full, so that it cannot take
    the frame before a later [findmotion] signals again. *)
Theorem signal_lost_while_busy (sys : system) (out : list motvec) tv :
  heap_ok sys -> worker sys = Busy tv ->
  exists sys',
    findmotion out sys = Some sys' /\ worker sys' = Busy tv /\
    vectors (det sys') = Some (next_ptr sys) /\
    forall sys'', motionstart_pass sys' = Some sys'' ->
      worker sys'' = Waiting /\
      vectors (det sys'') = Some (next_ptr sys) /\
      motionstart_take sys'' = None.
Proof. exact (busy_thread_misses_signal sys out tv). Qed.

Lemma signal_lost_while_busy_witness :
  exists sys',
    findmotion spike_1
      {| det := grid_2x2; heap := {[ 0%nat := nudge_1 ]};
         next_ptr := 1%nat; freed := []; worker := Busy (Some 0%nat) |}
    = Some sys' /\ worker sys' = Busy (Some 0%nat) /\
    vectors (det sys') = Some 1%nat /\
    forall sys'', motionstart_pass sys' = Some sys'' ->
      worker sys'' = Waiting /\
      vectors (det sys'') = Some 1%nat /\
      motionstart_take sys'' = None.
Proof.
  apply (signal_lost_while_busy
           {| det := grid_2x2; heap := {[ 0%nat := nudge_1 ]};
              next_ptr := 1%nat; freed := []; worker := Busy (Some 0%nat) |}
           spike_1 (Some 0%nat)); [|reflexivity].
  unfold heap_ok. cbn [det heap next_ptr freed worker].
  split; [|split].
  - intros p Hp. apply lookup_singleton_ne. lia.
  - intros p [].
  - intros q Hq. vm_compute in Hq. discriminate.
Defined.

(** *** No overflow in the filter *)

(** X18.  With at least 12 slots, a grid whose cell count fits an [int],
    a threshold, a raw count and ring slots below [2^24] in absolute
    value, and a running sum and a window size below [2^30]: no step of
    [ma_filter] leaves the range of [int], and the call returns what the
    same arithmetic gives over the integers. *)
Theorem ma_filter_no_overflow (st : state) (t : Z) :
  12 <= window_size st -> filter_ok st -> filter_small st t ->
  exists o st',
    ma_filter_int st t = Some (o, st') /\ ma_filter st t = Some (o, st').
Proof.
  intros Hws Hok Hsmall.
  rewrite (ma_filter_int_agrees st t Hws Hok Hsmall).
  destruct (ma_filter_eq st t Hws Hok) as (old & _ & Hrun).
  cbv zeta in Hrun. rewrite Hrun. by eexists _, _.
Qed.

Lemma ma_filter_no_overflow_witness :
  exists o st',
    ma_filter_int used_w12 3 = Some (o, st') /\
    ma_filter used_w12 3 = Some (o, st').
Proof.
  apply (ma_filter_no_overflow used_w12 3).
  - vm_compute. discriminate.
  - unfold filter_ok. split; [reflexivity|]. split; [reflexivity|].
    split; [vm_compute; discriminate|reflexivity].
  - unfold filter_small, small.
    split; [split; vm_compute; discriminate|].
    split; [split; vm_compute; discriminate|].
    split; [split; vm_compute; discriminate|].
    split; [|split; [split|]; vm_compute; discriminate].
    unfold used_w12. cbn [filter_window].
    repeat (constructor; [split; vm_compute; discriminate|]). constructor.
Defined.

Lemma capped_sum_bounds (st : state) :
  0 <= threshold st -> Forall count24 (filter_window st) ->
  0 <= capped_sum st
  <= Z.of_nat (length (filter_window st)) * (4 * threshold st).
Proof.
  intros Hthr Hfw. unfold capped_sum.
  pose proof (zsum_map_bounds (fun x => Z.min x (4 * threshold st))
                (filter_window st) 0 (4 * threshold st)) as H.
  destruct H as [Hlo Hhi]; [|lia].
  intros x Hx. pose proof (proj1 (Forall_forall _ _) Hfw x Hx) as Hc.
  unfold count24 in Hc. lia.
Qed.

Lemma feed_int_agrees (raws : list Z) :
  forall st : state,
  12 <= window_size st <= 1073741824 -> filter_ok st ->
  INT_MIN <= width st * height st <= INT_MAX ->
  count24 (threshold st) ->
  window_size st * (4 * threshold st) <= 1073741824 ->
  Forall count24 (filter_window st) ->
  ma_sum st = capped_sum st ->
  Forall count24 raws ->
  feed_int st raws = feed st raws.
Proof.
  induction raws as [|t raws IH];
    intros st Hws Hok Hnm Hthr Hprod Hfw Hsum Hraws; [done|].
  apply Forall_cons in Hraws as [Ht Hraws].
  assert (filter_small st t) as Hsmall.
  { unfold filter_small, small. unfold count24 in Hthr, Ht.
    split; [done|]. split; [lia|]. split; [lia|]. split; [|split; [|lia]].
    - eapply Forall_impl; [exact Hfw|]. unfold count24. intros; lia.
    - pose proof (capped_sum_bounds st ltac:(lia) Hfw) as Hb.
      destruct Hok as (_ & Hlen & _). rewrite Hlen in Hb.
      rewrite Z2Nat.id in Hb by lia. lia. }
  cbn [feed_int feed].
  rewrite (ma_filter_int_agrees st t) by (done || lia).
  destruct (ma_filter_step st t) as (o & st' & Hcall & _ & _ & Hstep);
    [lia|done|].
  destruct (ma_filter_eq st t) as (old & _ & Heq); [lia|done|].
  cbv zeta in Heq. rewrite Hcall in Heq. injection Heq as _ Hst'.
  rewrite Hcall. cbn.
  destruct Hstep as (Hcfg & Hok' & _ & Hdiff & _).
  apply config_fields in Hcfg as (Hw' & Hh' & _ & Ht' & Hws').
  apply IH; rewrite ?Hw', ?Hh', ?Ht', ?Hws'; try done.
  - rewrite Hst'. cbn [set_filter filter_window].
    apply Forall_insert; [done|].
    destruct (_ >? _); done.
  - lia.
Qed.

(** X19.  From the first [initmotion] of the program on, with a threshold
    between 0 and [2^24], between 12 and [2^30] slots,
    [window_size * 4 * threshold] at most [2^30] and a grid whose cell
    count fits an [int]: on raw counts between 0 and [2^24], as the
    counting loop gives them, no call of [ma_filter] in the run leaves the
    range of [int]. *)
Theorem filter_run_no_overflow junk width_px height_px mf sens thr ws
    (st0 : state) (raws : list Z) :
  initmotion junk boot width_px height_px mf sens thr ws = Some (0, st0) ->
  count24 thr -> 12 <= ws <= 1073741824 -> ws * (4 * thr) <= 1073741824 ->
  INT_MIN <= width st0 * height st0 <= INT_MAX ->
  Forall count24 raws ->
  exists st1, feed_int st0 raws = Some st1 /\ feed st0 raws = Some st1.
Proof.
  intros Hinit Hthr Hws Hprod Hnm Hraws.
  destruct (initmotion_filter_ok _ _ _ _ _ _ _ _ _ Hinit)
    as (Hok & Hsum & _); [unfold count24 in Hthr; lia|lia|].
  destruct (initmotion_filter _ _ _ _ _ _ _ _ _ _ Hinit)
    as (Ht & Hw & Hfw & _).
  destruct (feed_hist st0 raws) as (st1 & Hfeed & _); [lia|done|].
  exists st1. split; [|done]. rewrite <- Hfeed.
  apply feed_int_agrees; rewrite ?Ht, ?Hw; try done.
  rewrite Hfw. apply Forall_replicate. unfold count24. lia.
Qed.

Lemma filter_run_no_overflow_witness :
  exists st1,
    feed_int grid_2x2 [0; 6; 2] = Some st1 /\
    feed grid_2x2 [0; 6; 2] = Some st1.
Proof.
  apply (filter_run_no_overflow (fun _ => 0) 32 32 None 10 1 12 grid_2x2).
  - vm_compute. reflexivity.
  - unfold count24. lia.
  - lia.
  - lia.
  - vm_compute. split; discriminate.
  - unfold count24. repeat constructor; lia.
Defined.

(** *** The image of [dumppng] *)

Ltac case_cmp :=
  repeat match goal with
  | |- context [Z.ltb ?a ?b] => destruct (Z.ltb_spec a b)
  | |- context [Z.leb ?a ?b] => destruct (Z.leb_spec a b)
  | |- context [Z.eqb ?a ?b] => destruct (Z.eqb_spec a b)
  end; simpl; try done; try lia.

Lemma pixel_store (rows rows' : list (list Z)) (t t' : list Z) i j x :
  load rows i = Some t -> store t j x = Some t' ->
  store rows i t' = Some rows' ->
  forall i' j',
    pixel rows' i' j'
    = if (i' =? i) && (j' =? j) then Some x else pixel rows i' j'.
Proof.
  intros Ht Hst Hsr i' j'.
  pose proof (store_Some _ _ _ _ Hst) as [Hj _].
  pose proof (store_Some _ _ _ _ Hsr) as [Hi _].
  destruct (load_store _ _ _ _ Hst) as [_ Hrow].
  destruct (load_store _ _ _ _ Hsr) as [_ Hrows].
  unfold pixel. destruct (Z.ltb_spec i' 0) as [Hneg|Hpos].
  - destruct (Z.eqb_spec i' i); [lia|]. simpl.
    unfold load. by destruct (Z.ltb_spec i' 0); [|lia].
  - rewrite Hrows by done. destruct (Z.eqb_spec i' i) as [->|Hne]; [|done].
    rewrite Ht. simpl. destruct (Z.ltb_spec j' 0) as [Hjn|Hjp].
    + destruct (Z.eqb_spec j' j); [lia|].
      unfold load. by destruct (Z.ltb_spec j' 0); [|lia].
    + by rewrite Hrow.
Qed.

Lemma sqrt_u8_small (m : Z) :
  0 <= m < 65536 -> sqrt_u8 m = Some (Z.sqrt m).
Proof.
  intros Hm. unfold sqrt_u8.
  destruct (Z.leb_spec 0 m); [|lia].
  assert (Z.sqrt m < 256) by (apply Z.sqrt_lt_square; lia).
  by destruct (Z.ltb_spec (Z.sqrt m) 256); [|lia].
Qed.

Lemma int8_magnitude (v : list motvec) (k : Z) tv :
  int8_frame v -> load v k = Some tv -> 0 <= magnitude_sq tv < 65536.
Proof.
  intros Hv Hk. unfold load in Hk. destruct (k <? 0); [done|].
  pose proof (Forall_lookup_1 _ _ _ _ Hv Hk) as Hb. cbv beta in Hb.
  unfold magnitude_sq. nia.
Qed.

Lemma dumppng_cell_step (w : Z) (v : list motvec) (i j : Z)
    (rows : list (list Z)) :
  0 <= i -> 0 <= j -> is_Some (pixel rows i j) ->
  0 <= i * w + j < Z.of_nat (length v) -> int8_frame v ->
  exists rows',
    dumppng_cell w v i j rows = Some rows' /\
    forall i' j',
      pixel rows' i' j'
      = if (i' =? i) && (j' =? j) then Some (vector_root w v i j)
        else pixel rows i' j'.
Proof.
  intros Hi Hj [x Hx] Hk Hv. unfold pixel in Hx.
  destruct (load rows i) as [t|] eqn:Ht; [|done]. simpl in Hx.
  destruct (lookup_lt_is_Some_2 v (Z.to_nat (i * w + j))) as [tv Htv];
    [lia|].
  rewrite <- load_lookup in Htv by lia.
  pose proof (int8_magnitude v _ tv Hv Htv) as Hm.
  assert (0 <= j < Z.of_nat (length t)) as Hjt.
  { rewrite load_lookup in Hx by done. apply lookup_lt_Some in Hx. lia. }
  assert (0 <= i < Z.of_nat (length rows)) as Hir.
  { rewrite load_lookup in Ht by done. apply lookup_lt_Some in Ht. lia. }
  pose proof (store_insert t j (Z.sqrt (magnitude_sq tv)) Hjt) as Hst.
  pose proof (store_insert rows i
                (<[Z.to_nat j := Z.sqrt (magnitude_sq tv)]> t) Hir) as Hsr.
  eexists. split.
  - unfold dumppng_cell. rewrite Ht. simpl. rewrite Htv. simpl.
    rewrite sqrt_u8_small by done. simpl. rewrite Hst. simpl. exact Hsr.
  - intros i' j'. rewrite (pixel_store _ _ _ _ _ _ _ Ht Hst Hsr).
    unfold vector_root. by rewrite Htv.
Qed.

Lemma dumppng_loops (w h : Z) (v : list motvec) (rows0 : list (list Z)) :
  rows_fit rows0 w h -> w * h <= Z.of_nat (length v) -> int8_frame v ->
  exists rows',
    for_lt h (fun i rows =>
      for_lt w (fun j rows => dumppng_cell w v i j rows) rows) rows0
    = Some rows' /\
    forall i' j',
      pixel rows' i' j'
      = if written w (Z.max h 0) 0 i' j' then Some (vector_root w v i' j')
        else pixel rows0 i' j'.
Proof.
  intros Hfit Hlen Hv.
  assert (forall i j, 0 <= i < h -> 0 <= j < w ->
            is_Some (pixel rows0 i j)) as Hpix.
  { intros i j Hi Hj. destruct (Hfit i Hi) as (r & Hr & Hw).
    unfold pixel. rewrite Hr. simpl. rewrite load_lookup by lia.
    apply lookup_lt_is_Some_2. lia. }
  set (Q := fun i j (rows : list (list Z)) =>
    forall i' j',
      pixel rows i' j'
      = if written w i j i' j' then Some (vector_root w v i' j')
        else pixel rows0 i' j').
  destruct (for_from_inv (fun i rows => Q i 0 rows)
              (fun i rows =>
                 for_lt w (fun j rows => dumppng_cell w v i j rows) rows)
              (Z.to_nat h) 0 rows0) as (rows' & Hrun & Hq).
  - intros i' j'. unfold written. case_cmp.
  - intros i rows Hi Hrows. cbv beta.
    destruct (for_from_inv (fun j rows => Q i j rows)
                (fun j rows => dumppng_cell w v i j rows)
                (Z.to_nat w) 0 rows) as (rows2 & Hrun2 & Hq2).
    + exact Hrows.
    + intros j a Hj Ha.
      destruct (dumppng_cell_step w v i j a) as (a' & Hcell & Hpx);
        [lia|lia| |nia|done|].
      { rewrite Ha. destruct (written w i j i j); [done|].
        apply Hpix; lia. }
      exists a'. split; [done|]. intros i' j'. rewrite Hpx, Ha.
      unfold written. case_cmp; subst; done.
    + exists rows2. split; [exact Hrun2|]. intros i' j'. rewrite Hq2.
      unfold written. case_cmp.
  - exists rows'. split; [exact Hrun|].
    replace (Z.max h 0) with (0 + Z.of_nat (Z.to_nat h)) by lia. exact Hq.
Qed.

Lemma png_alloc_fit junk (w h : Z) : rows_fit (png_alloc junk w h) w h.
Proof.
  intros i Hi. unfold png_alloc. rewrite load_lookup by lia.
  rewrite list_lookup_fmap, lookup_seq_lt by lia. simpl.
  eexists. split; [reflexivity|]. rewrite length_map, length_seq. lia.
Qed.

Lemma for_from_Some_inv {St} (P : St -> Prop)
    (body : Z -> St -> option St) trips lo (s s' : St) :
  P s -> (forall k a a', P a -> body k a = Some a' -> P a') ->
  for_from lo trips body s = Some s' ->
  P s' /\
  forall k, lo <= k < lo + Z.of_nat trips ->
    exists a, P a /\ is_Some (body k a).
Proof.
  intros Hs Hstep. revert lo s Hs.
  induction trips as [|n IH]; intros lo s Hs H; simpl in H.
  - injection H as <-. split; [done|lia].
  - destruct (body lo s) as [a|] eqn:E; [|done].
    destruct (IH _ _ (Hstep _ _ _ Hs E) H) as [Hs' Hk]. split; [done|].
    intros k Hr. destruct (Z.eq_dec k lo) as [->|Hne].
    + exists s. split; [done|]. by rewrite E.
    + apply Hk. lia.
Qed.

Lemma dumppng_cell_shape (w : Z) (v : list motvec) (i j : Z)
    (a a' : list (list Z)) :
  dumppng_cell w v i j a = Some a' ->
  length <$> a' = length <$> a /\
  exists t, load a i = Some t /\ 0 <= i /\ 0 <= j < Z.of_nat (length t).
Proof.
  unfold dumppng_cell. intros H.
  destruct (load a i) as [t|] eqn:Ht; simpl in H; [|done].
  destruct (load v (i * w + j)) as [tv|]; simpl in H; [|done].
  destruct (sqrt_u8 (magnitude_sq tv)) as [px|]; simpl in H; [|done].
  destruct (store t j px) as [t'|] eqn:Hst; simpl in H; [|done].
  apply store_Some in Hst as [Hj ->]. apply store_Some in H as [Hi ->].
  split; [|exists t; split; [done|lia]].
  rewrite list_fmap_insert, length_insert. apply list_insert_id.
  rewrite list_lookup_fmap. rewrite load_lookup in Ht by lia.
  by rewrite Ht.
Qed.

Lemma dumppng_cell_same_shape (rows0 : list (list Z)) (w : Z)
    (v : list motvec) (i k : Z) (a a' : list (list Z)) :
  length <$> a = length <$> rows0 -> dumppng_cell w v i k a = Some a' ->
  length <$> a' = length <$> rows0.
Proof.
  intros Ha Hc. apply dumppng_cell_shape in Hc as [Hc _]. congruence.
Qed.

Lemma dumppng_loops_fit (w h : Z) (v : list motvec)
    (rows0 rows' : list (list Z)) :
  0 < w ->
  for_lt h (fun i rows =>
    for_lt w (fun j rows => dumppng_cell w v i j rows) rows) rows0
  = Some rows' ->
  rows_fit rows0 w h.
Proof.
  intros Hw H i Hi. unfold for_lt in H.
  destruct (for_from_Some_inv
              (fun a : list (list Z) => length <$> a = length <$> rows0)
              _ _ _ _ _ eq_refl
              ltac:(intros k a a' Ha Hin; unfold for_lt in Hin;
                    refine (proj1 (for_from_Some_inv _ _ _ _ _ _ Ha _ Hin));
                    intros k2 b b';
                    apply dumppng_cell_same_shape) H) as [_ Hrows].
  destruct (Hrows i) as (a & Ha & [a' Hin]); [lia|].
  unfold for_lt in Hin.
  destruct (for_from_Some_inv
              (fun a : list (list Z) => length <$> a = length <$> rows0)
              _ _ _ _ _ Ha
              ltac:(intros k b b'; apply dumppng_cell_same_shape) Hin)
    as [_ Hcols].
  destruct (Hcols (w - 1)) as (b & Hb & [b' Hc]); [lia|].
  apply dumppng_cell_shape in Hc as (_ & t & Ht & _ & Hj).
  rewrite load_lookup in Ht by lia.
  assert ((length <$> rows0) !! Z.to_nat i = Some (length t)) as Hl
    by (rewrite <- Hb, list_lookup_fmap, Ht; done).
  apply list_lookup_fmap_Some in Hl as (t0 & Hlen & Ht0).
  exists t0. rewrite load_lookup by lia. split; [done|lia].
Qed.

Lemma initmotion_fnum junk st0 w h mf sens thr ws rc st :
  initmotion junk st0 w h mf sens thr ws = Some (rc, st) ->
  fnum st = fnum st0.
Proof.
  unfold initmotion. destruct mf as [mf|]; simpl.
  - destruct mf as [| |ct rows]; simpl; try (intros [= <- <-]; simpl; done).
    destruct (readmap_rows _ _ _ _); simpl; [|done].
    intros [= <- <-]. simpl. done.
  - destruct (int_mul sens sens); simpl; [|done].
    destruct (fill_uniform _ _ _ _); simpl; [|done].
    intros [= <- <-]. simpl. done.
Qed.

(** X20.  [dumppng] on a frame of [int8_t] vectors that has a vector for
    every cell of the grid, at its first call ([fnum] is 0) or later with
    row buffers that have a byte for every cell: the loops stay inside the
    buffers and the frame, and leave in byte [j] of row [i] the integer
    part of the length of the vector of cell [i * width + j], the largest
    [r] with [r * r <= dx * dx + dy * dy]. *)
Theorem dumppng_image junk (st : state) (rows : list (list Z))
    (v : list motvec) :
  fnum st = 0 \/ rows_fit rows (width st) (height st) ->
  width st * height st <= Z.of_nat (length v) -> int8_frame v ->
  exists rows',
    dumppng_rows junk st rows v = Some rows' /\
    forall i j, 0 <= i < height st -> 0 <= j < width st ->
      exists tv r,
        load v (i * width st + j) = Some tv /\
        pixel rows' i j = Some r /\
        0 <= r /\ r * r <= magnitude_sq tv < (r + 1) * (r + 1).
Proof.
  intros Hfit Hlen Hv. unfold dumppng_rows.
  set (rows0 := if fnum st =? 0 then _ else rows).
  assert (rows_fit rows0 (width st) (height st)) as Hfit0.
  { subst rows0. destruct (Z.eqb_spec (fnum st) 0) as [E|E].
    - apply png_alloc_fit.
    - by destruct Hfit. }
  destruct (dumppng_loops (width st) (height st) v rows0 Hfit0 Hlen Hv)
    as (rows' & Hrun & Hpx).
  exists rows'. split; [exact Hrun|]. intros i j Hi Hj.
  destruct (lookup_lt_is_Some_2 v (Z.to_nat (i * width st + j)))
    as [tv Htv]; [nia|].
  rewrite <- load_lookup in Htv by nia.
  exists tv, (Z.sqrt (magnitude_sq tv)). split; [done|].
  pose proof (int8_magnitude v _ tv Hv Htv) as Hm.
  split; [|split].
  - rewrite Hpx. unfold written, vector_root. rewrite Htv. case_cmp.
  - apply Z.sqrt_nonneg.
  - pose proof (Z.sqrt_spec (magnitude_sq tv) ltac:(lia)) as Hs.
    cbv zeta in Hs. lia.
Qed.

Lemma dumppng_image_witness :
  exists rows',
    dumppng_rows (fun _ _ => 0) grid_2x2 [] spike_1 = Some rows' /\
    forall i j, 0 <= i < height grid_2x2 -> 0 <= j < width grid_2x2 ->
      exists tv r,
        load spike_1 (i * width grid_2x2 + j) = Some tv /\
        pixel rows' i j = Some r /\
        0 <= r /\ r * r <= magnitude_sq tv < (r + 1) * (r + 1).
Proof.
  apply (dumppng_image (fun _ _ => 0) grid_2x2 [] spike_1).
  - left. reflexivity.
  - vm_compute. discriminate.
  - repeat constructor; simpl; lia.
Defined.

(** X21.  A call of [dumppng] after the first one reuses the row buffers
    of the first call without looking at their size.  On a grid of at
    least one column and a frame of [int8_t] vectors with a vector for
    every cell, it stays inside the buffers exactly when they have a row
    for every row of the grid and a byte for every column. *)
Theorem dumppng_rows_defined_iff junk (st : state) (rows : list (list Z))
    (v : list motvec) :
  fnum st <> 0 -> 0 < width st ->
  width st * height st <= Z.of_nat (length v) -> int8_frame v ->
  is_Some (dumppng_rows junk st rows v) <->
  rows_fit rows (width st) (height st).
Proof.
  intros Hf Hw Hlen Hv. unfold dumppng_rows.
  destruct (Z.eqb_spec (fnum st) 0) as [E|_]; [done|]. split.
  - intros [rows' H]. by eapply dumppng_loops_fit.
  - intros Hfit.
    destruct (dumppng_loops (width st) (height st) v rows Hfit Hlen Hv)
      as (rows' & -> & _).
    by eexists.
Qed.

Lemma dumppng_rows_defined_iff_witness :
  is_Some (dumppng_rows (fun _ _ => 0) regrid_4x4
             (png_alloc (fun _ _ => 0) 3 2) (still 20)) <->
  rows_fit (png_alloc (fun _ _ => 0) 3 2)
    (width regrid_4x4) (height regrid_4x4).
Proof.
  apply (dumppng_rows_defined_iff (fun _ _ => 0) regrid_4x4
           (png_alloc (fun _ _ => 0) 3 2) (still 20)).
  - vm_compute. discriminate.
  - vm_compute. reflexivity.
  - vm_compute. discriminate.
  - repeat constructor; simpl; lia.
Defined.

(** X22.  [initmotion] leaves the statics of [dumppng] alone.  When it is
    called again, after at least one frame, with a frame size that gives
    more rows or more columns than the row buffers of [dumppng] were
    allocated for, the next [dumppng] writes outside those buffers. *)
Theorem regrid_overruns_rows junk junk_rows (st0 st : state)
    width_px height_px mf sens thr ws rc (rows : list (list Z))
    (v : list motvec) :
  fnum st0 <> 0 -> rows_dims rows (width st0) (height st0) ->
  initmotion junk st0 width_px height_px mf sens thr ws = Some (rc, st) ->
  0 < width st -> 0 < height st ->
  width st0 < width st \/ height st0 < height st ->
  fnum st = fnum st0 /\ dumppng_rows junk_rows st rows v = None.
Proof.
  intros Hf [Hrows Hcols] Hinit Hw Hh Hbig.
  pose proof (initmotion_fnum _ _ _ _ _ _ _ _ _ _ Hinit) as Hfn.
  split; [done|].
  destruct (dumppng_rows junk_rows st rows v) as [rows'|] eqn:E; [|done].
  exfalso. unfold dumppng_rows in E.
  destruct (Z.eqb_spec (fnum st) 0) as [E0|_]; [congruence|].
  pose proof (dumppng_loops_fit _ _ _ _ _ Hw E) as Hfit.
  destruct Hbig as [Hbig|Hbig].
  - destruct (Hfit 0) as (r & Hr & Hlen); [lia|].
    rewrite load_lookup in Hr by lia.
    pose proof (Forall_lookup_1 _ _ _ _ Hcols Hr) as Hl. cbv beta in Hl.
    lia.
  - destruct (Hfit (height st - 1)) as (r & Hr & _); [lia|].
    rewrite load_lookup in Hr by lia. apply lookup_lt_Some in Hr. lia.
Qed.

Lemma regrid_overruns_rows_witness :
  fnum regrid_4x4 = fnum seen_2x2 /\
  dumppng_rows (fun _ _ => 0) regrid_4x4 (png_alloc (fun _ _ => 0) 3 2)
    (still 20) = None.
Proof.
  apply (regrid_overruns_rows (fun _ => 0) (fun _ _ => 0) seen_2x2
           regrid_4x4 64 64 None 10 1 12 0
           (png_alloc (fun _ _ => 0) 3 2) (still 20)).
  - vm_compute. discriminate.
  - split; [reflexivity|]. repeat constructor.
  - vm_compute. reflexivity.
  - vm_compute. reflexivity.
  - vm_compute. reflexivity.
  - left. vm_compute. reflexivity.
Defined.

(** *** The program in range *)

(** On a frame of [int8_t] vectors, with a callback, a grid that libpng
    accepts and that has at most [2^24] cells, row buffers that cover it,
    and a filter far from the ends of [int], the frame that
    [lookformotion] completes is completed by the checked
    [lookformotion_full], with the same detector. *)
Lemma lookformotion_full_agrees junk (p : process) (v : list motvec)
    (st' : state) :
  lookformotion (ctx p) v = Some st' ->
  eventcb p = true ->
  png_ihdr_ok (width (ctx p) - 1) (height (ctx p)) = true ->
  fnum (ctx p) = 0 \/
    rows_fit (png_rows p) (width (ctx p)) (height (ctx p)) ->
  0 <= fnum (ctx p) < INT_MAX -> int8_frame v ->
  12 <= window_size (ctx p) -> filter_ok (ctx p) ->
  filter_small (ctx p) 0 ->
  width (ctx p) * height (ctx p) <= 16777216 ->
  exists p',
    lookformotion_full junk p v = Some p' /\ ctx p' = st' /\
    eventcb p' = true.
Proof.
  intros H Hcb Hpng Hrows Hf Hv Hws Hok Hsmall Hn.
  pose proof Hpng as Hdim. unfold png_ihdr_ok in Hdim.
  apply andb_true_iff in Hdim as [Hdim _].
  apply andb_true_iff in Hdim as [Hdim Hh1].
  apply andb_true_iff in Hdim as [Hw1 _].
  apply Z.leb_le in Hw1, Hh1.
  assert (0 < width (ctx p) * height (ctx p)) as Hpos by nia.
  unfold lookformotion in H.
  destruct (count_moved _ v _) as [t|] eqn:E2; simpl in H; [|done].
  pose proof (count_moved_map_length _ _ _ _ E2 Hpos) as Hml.
  pose proof (count_moved_length _ _ _ _ E2 Hpos) as Hvl.
  assert (0 <= t <= width (ctx p) * height (ctx p)) as Ht.
  { rewrite count_moved_eq in E2 by done. injection E2 as <-.
    unfold moved_cells.
    pose proof (filter_length_le (exceeds (map (ctx p)) v)
                  (zrange 0 (Z.to_nat (width (ctx p) * height (ctx p)))))
      as Hle.
    rewrite length_zrange in Hle. lia. }
  destruct (dumppng (ctx p) v) as [st1|] eqn:E3; simpl in H; [|done].
  assert (st1 = set_fnum (ctx p) (fnum (ctx p) + 1)) as ->.
  { unfold dumppng in E3. destruct (_ && _); congruence. }
  assert (is_Some (dumppng_rows junk (ctx p) (png_rows p) v))
    as [rows Hdump].
  { unfold dumppng_rows.
    destruct (dumppng_loops (width (ctx p)) (height (ctx p)) v
                (if fnum (ctx p) =? 0
                 then png_alloc junk (width (ctx p)) (height (ctx p))
                 else png_rows p)) as (rows & -> & _); [|done|done|done].
    destruct (Z.eqb_spec (fnum (ctx p)) 0); [apply png_alloc_fit|].
    by destruct Hrows. }
  unfold lookformotion_full.
  rewrite int_mul_ok by (unfold INT_MIN, INT_MAX; lia). simpl.
  rewrite E2. simpl. unfold dumppng_full. rewrite Hdump. simpl.
  rewrite Hpng. rewrite int_add_ok by (unfold INT_MIN, INT_MAX in *; lia).
  simpl. unfold filter_and_fire in H.
  rewrite ma_filter_int_agrees.
  - destruct (ma_filter _ t) as [[o st2]|]; simpl in *; [|done].
    rewrite Hcb.
    destruct (ma_ret o >=? threshold st2); injection H as <-;
      eexists; repeat split; reflexivity.
  - done.
  - done.
  - destruct Hsmall as (H1 & H2 & _ & H4 & H5 & H6).
    unfold filter_small. cbn [set_fnum width height threshold filter_window
                              ma_sum window_size].
    split; [done|]. split; [done|]. split; [unfold small; lia|].
    split; [done|]. split; done.
Qed.
